(** * pg_shared_plans: a shallow embedding of the shared plan cache

    The development follows [src/pg_shared_plans.c] and [src/pgsp_utility.c].
    One backend is modelled: its view of the shared hash table, of the dsa
    arena, of the reverse-dependency table and of [pgsp->lock], with explicit
    state passing.  What other backends do between two lock acquisitions is
    outside the model.

    Conventions.
    - C [double] and [Cost] are IEEE binary64 values: Rocq's primitive floats.
    - C integers whose range is never approached ([int] counters, [int64]
      counters, [size_t] byte counts) are [Z]; the places where the source
      relies on a range are pointed out where they occur.
    - [Assert] is not executed (it is compiled out of production builds); the
      build options the source tests with the preprocessor are fields of
      [build_config].
    - Host functions (planner, catalog lookups, clock, lwlock, dsa) are inputs:
      fields of [host] or of the request, or small models stated as such.
    - The backend is attached to the dsa area ([pgsp_attach_dsa] returns at
      once), and [pgsp_rdepend.c] is not part of the sources at hand: the
      reverse index follows its description and is marked as such.
    - [events] is a ghost trace of the lock operations, of the calls of
      [pgsp_evict_by_oid] and of the run of a utility statement; the code
      does not read it. *)

From Stdlib Require Import ZArith List Bool Lia PrimFloat Uint63.
From Stdlib Require Import Permutation Sorted.
From Stdlib Require String.
Import ListNotations.
Import String.StringSyntax.
Delimit Scope string_scope with string.
Local Open Scope Z_scope.

(* ================================================================= *)
(** ** Numbers *)

(** Conversion of a C integer to [double] (exact below 2^53). *)
Definition Z2double (n : Z) : float :=
  if n <? 0 then PrimFloat.opp (PrimFloat.of_uint63 (Uint63.of_Z (- n)))
  else PrimFloat.of_uint63 (Uint63.of_Z n).

(** C's [a >= b] on doubles is [b <= a]; [a > b] is [b < a]. *)
Definition double_ge (a b : float) : bool := PrimFloat.leb b a.
Definition double_gt (a b : float) : bool := PrimFloat.ltb b a.

Definition PGSP_USAGE_INIT : float := 1%float.
Definition ASSUMED_MEDIAN_INIT : float := 10%float.
(** 0.99 *)
Definition USAGE_DECREASE_FACTOR : float := 0x1.fae147ae147aep-1%float.
Definition USAGE_DEALLOC_PERCENT : Z := 5.
Definition PLANCACHE_THRESHOLD : Z := 5.

(* ================================================================= *)
(** ** Keys and catalog identifiers *)

Definition Oid := Z.
Definition InvalidOid : Oid := 0.
Definition OidIsValid (o : Oid) : bool := negb (o =? InvalidOid).

(** The syscache identifiers the source distinguishes. *)
Inductive cache_id := RELOID | TYPEOID | PROCOID | OTHER_CACHE (n : Z).

Definition cache_id_eqb (a b : cache_id) : bool :=
  match a, b with
  | RELOID, RELOID | TYPEOID, TYPEOID | PROCOID, PROCOID => true
  | OTHER_CACHE n, OTHER_CACHE m => n =? m
  | _, _ => false
  end.

Record pgspHashKey := mk_pgspHashKey {
  userid : Oid;
  dbid : Oid;
  queryid : Z;      (* uint64 *)
  constid : Z       (* uint32 *)
}.

(** Compares two keys.  Zero means match. *)
Definition pgsp_match_fn (k1 k2 : pgspHashKey) : Z :=
  if (userid k1 =? userid k2) && (dbid k1 =? dbid k2)
     && (queryid k1 =? queryid k2) && (constid k1 =? constid k2)
  then 0 else 1.

Definition key_eqb (k1 k2 : pgspHashKey) : bool := pgsp_match_fn k1 k2 =? 0.

Record pgspRdependKey := mk_pgspRdependKey {
  rk_dbid : Oid;
  rk_classid : cache_id;
  rk_oid : Oid
}.

(** [pgsp_rdepend_fn_compare]: zero means match. *)
Definition pgsp_rdepend_fn_compare (a b : pgspRdependKey) : Z :=
  if (rk_dbid a =? rk_dbid b) && cache_id_eqb (rk_classid a) (rk_classid b)
     && (rk_oid a =? rk_oid b)
  then 0 else 1.

Definition rkey_eqb (a b : pgspRdependKey) : bool :=
  pgsp_rdepend_fn_compare a b =? 0.

Definition sizeof_Oid : Z := 4.
Definition sizeof_pgspRdependKey : Z := 12.

(* ================================================================= *)
(** ** Host data: plans and queries *)

Inductive RTEKind := RTE_RELATION | RTE_SUBQUERY | RTE_OTHER.

Record RangeTblEntry := mk_rte {
  rtekind : RTEKind;
  relid : Oid
}.

Record PlanInvalItem := mk_item {
  cacheId : cache_id;
  hashValue : Z     (* uint32 *)
}.

Inductive CmdType := CMD_SELECT | CMD_UTILITY | CMD_OTHER.

(** The fields of [PlannedStmt] the cache reads.  [nodeToString_len] is
    [strlen(nodeToString(stmt))]; [stmt_body] stands for the rest of the tree. *)
Record PlannedStmt := mk_stmt {
  commandType : CmdType;
  rtable : list RangeTblEntry;
  invalItems : list PlanInvalItem;
  total_cost : float;            (* planTree->total_cost *)
  nodeToString_len : Z;
  stmt_body : Z
}.

Definition set_total_cost (s : PlannedStmt) (c : float) : PlannedStmt :=
  mk_stmt (commandType s) (rtable s) (invalItems s) c
          (nodeToString_len s) (stmt_body s).

(* ================================================================= *)
(** ** The dsa arena

    A model of the host's [dsa_area]: live segments with their byte size and
    content, and the room left.  [dsa_allocate_extended] with
    [DSA_ALLOC_NO_OOM] returns [InvalidDsaPointer] when the request does not
    fit. *)

Definition dsa_pointer := Z.
Definition InvalidDsaPointer : dsa_pointer := 0.
Definition dsa_valid (p : dsa_pointer) : bool := negb (p =? InvalidDsaPointer).

Inductive dsa_payload :=
| PlanBytes (stmt : PlannedStmt)               (* serialized plan *)
| OidArray (a : list Oid)
| RdependKeyArray (a : list pgspRdependKey).

Record dsa_segment := mk_segment {
  seg_ptr : dsa_pointer;
  seg_size : Z;
  seg_data : dsa_payload
}.

Record dsa_area := mk_area {
  dsa_segments : list dsa_segment;
  dsa_next : dsa_pointer;     (* next fresh handle, > 0 *)
  dsa_room : Z                (* bytes still available *)
}.

Definition dsa_allocate_extended (a : dsa_area) (size : Z) (d : dsa_payload)
  : dsa_pointer * dsa_area :=
  if size <=? dsa_room a then
    (dsa_next a,
     mk_area (mk_segment (dsa_next a) size d :: dsa_segments a)
             (dsa_next a + 1) (dsa_room a - size))
  else (InvalidDsaPointer, a).

Definition dsa_find (a : dsa_area) (p : dsa_pointer) : option dsa_segment :=
  find (fun s => seg_ptr s =? p) (dsa_segments a).

Definition dsa_get_address (a : dsa_area) (p : dsa_pointer) : option dsa_payload :=
  option_map seg_data (dsa_find a p).

Definition dsa_free (a : dsa_area) (p : dsa_pointer) : dsa_area :=
  match dsa_find a p with
  | Some s =>
      mk_area (filter (fun s' => negb (seg_ptr s' =? p)) (dsa_segments a))
              (dsa_next a) (dsa_room a + seg_size s)
  | None => a
  end.

(* ================================================================= *)
(** ** Entries and shared state *)

Record pgspEntry := mk_pgspEntry {
  key : pgspHashKey;
  len : Z;                      (* serialized plan length *)
  plan : dsa_pointer;
  num_rels : Z;
  rels : dsa_pointer;
  num_rdeps : Z;
  rdeps : dsa_pointer;
  num_const : Z;
  plantime : float;
  generic_cost : float;
  discard : Z;                  (* int64 *)
  lockers : Z;                  (* pg_atomic_uint32 *)
  bypass : Z;                   (* int64 *)
  usage : float;
  total_custom_cost : float;
  num_custom_plans : Z          (* int64 *)
}.

Definition set_plan (e : pgspEntry) (p : dsa_pointer) (l : Z) : pgspEntry :=
  mk_pgspEntry (key e) l p (num_rels e) (rels e) (num_rdeps e) (rdeps e)
    (num_const e) (plantime e) (generic_cost e) (discard e) (lockers e)
    (bypass e) (usage e) (total_custom_cost e) (num_custom_plans e).

Definition set_rels (e : pgspEntry) (p : dsa_pointer) (n : Z) : pgspEntry :=
  mk_pgspEntry (key e) (len e) (plan e) n p (num_rdeps e) (rdeps e)
    (num_const e) (plantime e) (generic_cost e) (discard e) (lockers e)
    (bypass e) (usage e) (total_custom_cost e) (num_custom_plans e).

Definition set_rdeps (e : pgspEntry) (p : dsa_pointer) (n : Z) : pgspEntry :=
  mk_pgspEntry (key e) (len e) (plan e) (num_rels e) (rels e) n p
    (num_const e) (plantime e) (generic_cost e) (discard e) (lockers e)
    (bypass e) (usage e) (total_custom_cost e) (num_custom_plans e).

Definition set_discard (e : pgspEntry) (d : Z) : pgspEntry :=
  mk_pgspEntry (key e) (len e) (plan e) (num_rels e) (rels e) (num_rdeps e)
    (rdeps e) (num_const e) (plantime e) (generic_cost e) d (lockers e)
    (bypass e) (usage e) (total_custom_cost e) (num_custom_plans e).

Definition set_lockers (e : pgspEntry) (l : Z) : pgspEntry :=
  mk_pgspEntry (key e) (len e) (plan e) (num_rels e) (rels e) (num_rdeps e)
    (rdeps e) (num_const e) (plantime e) (generic_cost e) (discard e) l
    (bypass e) (usage e) (total_custom_cost e) (num_custom_plans e).

(** The counters protected by the entry's spinlock. *)
Definition set_counters (e : pgspEntry) (b : Z) (u tc : float) (n : Z)
  : pgspEntry :=
  mk_pgspEntry (key e) (len e) (plan e) (num_rels e) (rels e) (num_rdeps e)
    (rdeps e) (num_const e) (plantime e) (generic_cost e) (discard e)
    (lockers e) b u tc n.

Definition set_usage (e : pgspEntry) (u : float) : pgspEntry :=
  set_counters e (bypass e) u (total_custom_cost e) (num_custom_plans e).

Record pgspSharedState := mk_pgspSharedState {
  cur_median_usage : float;
  rdepend_num : Z;
  alloced_size : Z;
  dealloc : Z;
  stats_reset : Z               (* TimestampTz *)
}.

Definition set_alloced_size (s : pgspSharedState) (n : Z) : pgspSharedState :=
  mk_pgspSharedState (cur_median_usage s) (rdepend_num s) n (dealloc s)
                     (stats_reset s).

(** The state [pgsp_shmem_startup] leaves at first start. *)
Definition pgsp_shmem_startup (stats_reset0 : Z) : pgspSharedState :=
  mk_pgspSharedState ASSUMED_MEDIAN_INIT 0 0 0 stats_reset0.

(* ================================================================= *)
(** ** The reverse-dependency table *)

(** Modelled from the spec: [pgsp_rdepend.c] is not among the sources, only
    its callers are.  Following section 4.C, the table maps
    [{db, class, object}] to the fingerprints that depend on it, at most
    [rdepend_max] per object.  [register] fails when it would exceed the cap;
    [unregister] removes the fingerprint, and an object left without
    fingerprint leaves the table.  The bytes of the table's own arrays are not
    part of this model. *)
Definition rdepend_table := list (pgspRdependKey * list pgspHashKey).

Definition rdepend_find (t : rdepend_table) (rk : pgspRdependKey)
  : option (list pgspHashKey) :=
  option_map snd (find (fun p => rkey_eqb (fst p) rk) t).

Definition rdepend_put (t : rdepend_table) (rk : pgspRdependKey)
    (ks : list pgspHashKey) : rdepend_table :=
  let others := filter (fun p => negb (rkey_eqb (fst p) rk)) t in
  match ks with
  | [] => others
  | _ => (rk, ks) :: others
  end.

(** Modelled from the spec: registration of [k] under [rk] (section 4.C). *)
Definition pgsp_entry_register_rdepend (rdepend_max : Z) (rk : pgspRdependKey)
    (k : pgspHashKey) (t : rdepend_table) : bool * rdepend_table :=
  let ks := match rdepend_find t rk with Some ks => ks | None => [] end in
  if existsb (key_eqb k) ks then (true, t)
  else if rdepend_max <=? Z.of_nat (length ks) then (false, t)
  else (true, rdepend_put t rk (ks ++ [k])).

(** Modelled from the spec: removal of [k] from the fingerprints of [rk]. *)
Definition pgsp_entry_unregister_rdepend (rk : pgspRdependKey)
    (k : pgspHashKey) (t : rdepend_table) : rdepend_table :=
  match rdepend_find t rk with
  | Some ks => rdepend_put t rk (filter (fun k' => negb (key_eqb k k')) ks)
  | None => t
  end.

(* ================================================================= *)
(** ** Backend state, errors, and the state monad *)

Inductive LWLockMode := LW_EXCLUSIVE | LW_SHARED.

Inductive pgspEvictionKind :=
| PGSP_UNLOCK | PGSP_DISCARD | PGSP_DISCARD_AND_LOCK | PGSP_EVICT.

Definition kind_eqb (a b : pgspEvictionKind) : bool :=
  match a, b with
  | PGSP_UNLOCK, PGSP_UNLOCK | PGSP_DISCARD, PGSP_DISCARD
  | PGSP_DISCARD_AND_LOCK, PGSP_DISCARD_AND_LOCK | PGSP_EVICT, PGSP_EVICT => true
  | _, _ => false
  end.

(** What the backend does that an observer of [pgsp->lock] and of the host
    can see, in program order. *)
Inductive event :=
| EvAcquire (m : LWLockMode)
| EvRelease
| EvEvictByOid (classid : cache_id) (oid : Oid) (kind : pgspEvictionKind)
| EvRunUtility                   (* the host executes the statement *)
| EvSetReadOnly.                 (* pg_shared_plans.read_only := on *)

Record backend := mk_backend {
  pgsp : pgspSharedState;
  pgsp_hash : list pgspEntry;         (* in hash_seq_search order *)
  pgsp_area : dsa_area;
  pgsp_rdepend : rdepend_table;
  held_lwlocks : list LWLockMode;     (* this backend's holds of pgsp->lock *)
  pgsp_ro : bool;                     (* pg_shared_plans.read_only *)
  events : list event
}.

Definition set_pgsp (b : backend) (s : pgspSharedState) : backend :=
  mk_backend s (pgsp_hash b) (pgsp_area b) (pgsp_rdepend b) (held_lwlocks b)
             (pgsp_ro b) (events b).
Definition set_hash (b : backend) (h : list pgspEntry) : backend :=
  mk_backend (pgsp b) h (pgsp_area b) (pgsp_rdepend b) (held_lwlocks b)
             (pgsp_ro b) (events b).
Definition set_area (b : backend) (a : dsa_area) : backend :=
  mk_backend (pgsp b) (pgsp_hash b) a (pgsp_rdepend b) (held_lwlocks b)
             (pgsp_ro b) (events b).
Definition set_rdepend (b : backend) (t : rdepend_table) : backend :=
  mk_backend (pgsp b) (pgsp_hash b) (pgsp_area b) t (held_lwlocks b)
             (pgsp_ro b) (events b).
Definition set_held (b : backend) (l : list LWLockMode) : backend :=
  mk_backend (pgsp b) (pgsp_hash b) (pgsp_area b) (pgsp_rdepend b) l
             (pgsp_ro b) (events b).
Definition set_ro (b : backend) (r : bool) : backend :=
  mk_backend (pgsp b) (pgsp_hash b) (pgsp_area b) (pgsp_rdepend b)
             (held_lwlocks b) r (events b).
Definition emit (ev : event) (b : backend) : backend :=
  mk_backend (pgsp b) (pgsp_hash b) (pgsp_area b) (pgsp_rdepend b)
             (held_lwlocks b) (pgsp_ro b) (events b ++ [ev]).

(** Errors of the host that the modelled code can run into. *)
Inductive failure :=
| LockNotHeld            (* LWLockRelease: elog(ERROR, "lock %s is not held") *)
| SelfDeadlock           (* LWLockAcquire on a conflicting hold of our own *)
| RdependClassNotHandled (* elog(ERROR, "rdepend classid %d not handled") *)
| BadPointer             (* a handle that is not live is dereferenced *)
| OutOfFuel.             (* a loop of the model ran out of fuel *)

Inductive outcome (A : Type) :=
| Done (a : A) (b : backend)
| Raised (f : failure) (b : backend).
Arguments Done {A} a b.
Arguments Raised {A} f b.

Definition M (A : Type) := backend -> outcome A.

Definition ret {A} (a : A) : M A := fun b => Done a b.
Definition bind {A B} (m : M A) (k : A -> M B) : M B :=
  fun b => match m b with
           | Done a b' => k a b'
           | Raised f b' => Raised f b'
           end.
Definition raise {A} (f : failure) : M A := fun b => Raised f b.
Definition get : M backend := fun b => Done b b.
Definition modify (f : backend -> backend) : M unit := fun b => Done tt (f b).

Notation "x <- m ;; k" := (bind m (fun x => k))
  (at level 61, m at next level, right associativity).
Notation "m ;;; k" := (bind m (fun _ => k))
  (at level 61, right associativity).

Definition final_state {A} (o : outcome A) : backend :=
  match o with Done _ b => b | Raised _ b => b end.

(** Host contract of lwlock.c for one lock: shared holds may pile up; an
    exclusive request, or any request over an exclusive hold of our own, never
    returns; releasing a lock that is not held is an error. *)
Definition LWLockAcquire (m : LWLockMode) : M unit :=
  fun b =>
    match m, held_lwlocks b with
    | _, [] | LW_SHARED, LW_SHARED :: _ =>
        Done tt (emit (EvAcquire m) (set_held b (m :: held_lwlocks b)))
    | _, _ => Raised SelfDeadlock b
    end.

Definition LWLockRelease : M unit :=
  fun b =>
    match held_lwlocks b with
    | _ :: rest => Done tt (emit EvRelease (set_held b rest))
    | [] => Raised LockNotHeld b
    end.

Definition LWLockHeldByMe (b : backend) : bool :=
  match held_lwlocks b with [] => false | _ => true end.

Definition PGSP_USEDSMEM (size : Z) (b : backend) : backend :=
  set_pgsp b (set_alloced_size (pgsp b) (alloced_size (pgsp b) + size)).

Definition PGSP_FREEDSMEM (size : Z) (b : backend) : backend :=
  set_pgsp b (set_alloced_size (pgsp b) (alloced_size (pgsp b) - size)).

(** [dsa_free] followed by [PGSP_FREEDSMEM]: the state part of
    [PGSP_FREERELEASEDSMEM]; the caller clears the handle and its size field. *)
Definition free_dsmem (p : dsa_pointer) (size : Z) (b : backend) : backend :=
  PGSP_FREEDSMEM size (set_area b (dsa_free (pgsp_area b) p)).

(* ================================================================= *)
(** ** Configuration *)

(** What the preprocessor decides. *)
Record build_config := mk_build {
  USE_ASSERT_CHECKING : bool;
  PG_VERSION_NUM : Z
}.

(** The GUC variables the code reads ([pg_shared_plans.read_only] is part of
    the backend state, as the code itself sets it). *)
Record gucs := mk_gucs {
  pgsp_cache_all : bool;          (* exists under USE_ASSERT_CHECKING only *)
  pgsp_disable_plancache : bool;
  pgsp_enabled : bool;
  pgsp_max : Z;                   (* 5 .. INT_MAX *)
  pgsp_min_plantime : Z;          (* 0 .. INT_MAX, ms *)
  pgsp_rdepend_max : Z;
  pgsp_threshold : Z;             (* 1 .. PLANCACHE_THRESHOLD *)
  cpu_operator_cost : float;      (* host GUC *)
  compute_query_id_off : bool     (* compute_query_id == COMPUTE_QUERY_ID_OFF *)
}.

(* ================================================================= *)
(** ** The hash table [pgsp_hash] *)

(** [hash_search(pgsp_hash, key, HASH_FIND, NULL)] *)
Definition hash_find (h : list pgspEntry) (k : pgspHashKey) : option pgspEntry :=
  find (fun e => key_eqb (key e) k) h.

(** [hash_search(pgsp_hash, key, HASH_REMOVE, NULL)] *)
Definition hash_remove (h : list pgspEntry) (k : pgspHashKey) : list pgspEntry :=
  filter (fun e => negb (key_eqb (key e) k)) h.

(** Writing through an entry pointer obtained from [hash_search]. *)
Definition hash_update (h : list pgspEntry) (k : pgspHashKey)
    (f : pgspEntry -> pgspEntry) : list pgspEntry :=
  map (fun e => if key_eqb (key e) k then f e else e) h.

Definition hash_get_num_entries (h : list pgspEntry) : Z := Z.of_nat (length h).

(* ================================================================= *)
(** ** Removing an entry *)

Definition oid_array (a : dsa_area) (p : dsa_pointer) : list Oid :=
  match dsa_get_address a p with Some (OidArray l) => l | _ => [] end.

Definition rdepend_key_array (a : dsa_area) (p : dsa_pointer)
  : list pgspRdependKey :=
  match dsa_get_address a p with Some (RdependKeyArray l) => l | _ => [] end.

(** [for (i = 0; i < n; i++)]
    [pgsp_entry_unregister_rdepend(db, RELOID, array[i], key)] *)
Definition unregister_rels (db : Oid) (k : pgspHashKey) (n : Z)
    (array : list Oid) (t : rdepend_table) : rdepend_table :=
  fold_left
    (fun t o => pgsp_entry_unregister_rdepend (mk_pgspRdependKey db RELOID o) k t)
    (firstn (Z.to_nat n) array) t.

(** [for (i = 0; i < n; i++) pgsp_entry_unregister_rdepend(rdeps[i]..., key)] *)
Definition unregister_rdeps (k : pgspHashKey) (n : Z)
    (array : list pgspRdependKey) (t : rdepend_table) : rdepend_table :=
  fold_left (fun t rk => pgsp_entry_unregister_rdepend rk k t)
            (firstn (Z.to_nat n) array) t.

(** Completely remove an entry: free its dsa memory, unregister its reverse
    dependencies, remove it from the hash table. *)
Definition pgsp_entry_remove (e : pgspEntry) (b : backend) : backend :=
  let b1 := if dsa_valid (plan e) then free_dsmem (plan e) (len e) b else b in
  let b2 :=
    if 0 <? num_rels e then
      let array := oid_array (pgsp_area b1) (rels e) in
      let t := unregister_rels (dbid (key e)) (key e) (num_rels e) array
                               (pgsp_rdepend b1) in
      free_dsmem (rels e) (num_rels e * sizeof_Oid) (set_rdepend b1 t)
    else b1 in
  let b3 :=
    if 0 <? num_rdeps e then
      let array := rdepend_key_array (pgsp_area b2) (rdeps e) in
      let t := unregister_rdeps (key e) (num_rdeps e) array (pgsp_rdepend b2) in
      free_dsmem (rdeps e) (num_rdeps e * sizeof_pgspRdependKey)
                 (set_rdepend b2 t)
    else b2 in
  set_hash b3 (hash_remove (pgsp_hash b3) (key e)).

(* ================================================================= *)
(** ** Capacity-driven eviction *)

(** qsort comparator for sorting into increasing usage order *)
Definition entry_cmp (lhs rhs : pgspEntry) : Z :=
  if PrimFloat.ltb (usage lhs) (usage rhs) then -1
  else if double_gt (usage lhs) (usage rhs) then 1
  else 0.

(** [qsort] of the entry pointers with [entry_cmp].  The C library fixes
    the result up to the order of elements that compare equal; the model is
    the stable sort. *)
Fixpoint qsort_insert (e : pgspEntry) (l : list pgspEntry) : list pgspEntry :=
  match l with
  | [] => [e]
  | x :: l' => if entry_cmp e x <=? 0 then e :: l else x :: qsort_insert e l'
  end.

Definition qsort (l : list pgspEntry) : list pgspEntry :=
  fold_right qsort_insert [] l.

(** The number of entries one pass removes, out of [i]. *)
Definition nvictims (i : Z) : Z :=
  Z.min (Z.max 10 (Z.quot (i * USAGE_DEALLOC_PERCENT) 100)) i.

Definition decay (e : pgspEntry) : pgspEntry :=
  set_usage e (PrimFloat.mul (usage e) USAGE_DECREASE_FACTOR).

(** The lowest-usage entries one pass removes, given the table after decay. *)
Definition victims (decayed : list pgspEntry) : list pgspEntry :=
  firstn (Z.to_nat (nvictims (Z.of_nat (length decayed)))) (qsort decayed).

Definition set_cur_median_usage (s : pgspSharedState) (u : float)
  : pgspSharedState :=
  mk_pgspSharedState u (rdepend_num s) (alloced_size s) (dealloc s)
                     (stats_reset s).

Definition set_dealloc (s : pgspSharedState) (n : Z) (reset : Z)
  : pgspSharedState :=
  mk_pgspSharedState (cur_median_usage s) (rdepend_num s) (alloced_size s) n
                     reset.

(** Deallocate least-used entries. *)
Definition pgsp_entry_dealloc (b : backend) : backend :=
  (* scan the table, applying the decay factor *)
  let decayed := map decay (pgsp_hash b) in
  let b1 := set_hash b decayed in
  (* sort into increasing order by usage *)
  let entries := qsort decayed in
  let i := Z.of_nat (length entries) in
  (* record the (approximate) median usage *)
  let b2 :=
    if 0 <? i then
      match nth_error entries (Z.to_nat (Z.quot i 2)) with
      | Some m => set_pgsp b1 (set_cur_median_usage (pgsp b1) (usage m))
      | None => b1
      end
    else b1 in
  (* zap the lowest-usage entries *)
  let b3 := fold_left (fun b e => pgsp_entry_remove e b)
                      (firstn (Z.to_nat (nvictims i)) entries) b2 in
  (* count the pass *)
  set_pgsp b3 (set_dealloc (pgsp b3) (dealloc (pgsp b3) + 1)
                           (stats_reset (pgsp b3))).

(* ================================================================= *)
(** ** Arbitration between the cached plan and a custom plan *)

(** Decide whether to use a cached plan or not, and if caller should
    accumulate custom plan statistics.  Returns [use_cached], the new value of
    [*accum_custom_stats], and the entry with its counters updated. *)
Definition pgsp_choose_cache_plan (g : gucs) (e : pgspEntry)
    (accum_custom_stats : bool) : bool * bool * pgspEntry :=
  if pgsp_threshold g <=? num_custom_plans e then
    let avg := PrimFloat.div (total_custom_cost e)
                             (Z2double (num_custom_plans e)) in
    let use_cached := PrimFloat.ltb (generic_cost e) avg in
    if use_cached then
      (true, accum_custom_stats,
       set_counters e (bypass e + 1) (PrimFloat.add (usage e) (plantime e))
                    (total_custom_cost e) (num_custom_plans e))
    else (false, accum_custom_stats, e)
  else
    (* Increment usage so that it doesn't get evicted too soon, and tell
       caller to later accumulate custom plan statistics. *)
    (false, true, set_usage e (PrimFloat.add (usage e) (plantime e))).

(** Accumulate statistics for custom planning. *)
Definition pgsp_accum_custom_plan (k : pgspHashKey) (custom_cost : float)
  : M unit :=
  LWLockAcquire LW_SHARED ;;;
  modify (fun b =>
    set_hash b (hash_update (pgsp_hash b) k (fun e =>
      set_counters e (bypass e) (usage e)
                   (PrimFloat.add (total_custom_cost e) custom_cost)
                   (num_custom_plans e + 1)))) ;;;
  LWLockRelease.

(* ================================================================= *)
(** ** Storing a plan in the arena: [pgsp_allocate_plan] *)

Record pgspDsaContext := mk_pgspDsaContext {
  ctx_plan : dsa_pointer;
  ctx_rels : dsa_pointer;
  ctx_num_rdeps : Z;
  ctx_len : Z;
  ctx_num_rels : Z;
  ctx_rdeps : dsa_pointer
}.

(** [pgspDsaContext context = {0}] *)
Definition empty_context : pgspDsaContext :=
  mk_pgspDsaContext InvalidDsaPointer InvalidDsaPointer 0 0 0 InvalidDsaPointer.

Definition ctx_set_plan (c : pgspDsaContext) (p : dsa_pointer) (l : Z) :=
  mk_pgspDsaContext p (ctx_rels c) (ctx_num_rdeps c) l (ctx_num_rels c)
                    (ctx_rdeps c).
Definition ctx_set_rels (c : pgspDsaContext) (p : dsa_pointer) (n : Z) :=
  mk_pgspDsaContext (ctx_plan c) p (ctx_num_rdeps c) (ctx_len c) n (ctx_rdeps c).
Definition ctx_set_rdeps (c : pgspDsaContext) (p : dsa_pointer) (n : Z) :=
  mk_pgspDsaContext (ctx_plan c) (ctx_rels c) n (ctx_len c) (ctx_num_rels c) p.

Definition PGSP_ITEM_NOT_HANDLED (i : PlanInvalItem) : bool :=
  negb (cache_id_eqb (cacheId i) TYPEOID)
  && negb (cache_id_eqb (cacheId i) PROCOID).

(** [list_append_unique_oid] *)
Definition list_append_unique_oid (l : list Oid) (o : Oid) : list Oid :=
  if existsb (Z.eqb o) l then l else l ++ [o].

(** The base relations the plan is referencing: the loop over [stmt->rtable]. *)
Definition plan_relation_oids (bc : build_config) (stmt : PlannedStmt)
  : list Oid :=
  fold_left
    (fun oids rte =>
       let not_relation :=
         match rtekind rte with RTE_RELATION => false | _ => true end in
       let subquery_with_relid :=
         match rtekind rte with
         | RTE_SUBQUERY => OidIsValid (relid rte)
         | _ => false
         end in
       if not_relation
          && (if 160000 <=? PG_VERSION_NUM bc then negb subquery_with_relid
              else true)
       then oids
       else list_append_unique_oid oids (relid rte))
    (rtable stmt) [].

(** The loop registering [array[i]] for [i < num_rels]; returns [ok] and the
    index it stopped at. *)
Fixpoint register_rels (rdepend_max : Z) (db : Oid) (k : pgspHashKey)
    (array : list Oid) (i : Z) (t : rdepend_table)
  : bool * Z * rdepend_table :=
  match array with
  | [] => (true, i, t)
  | o :: rest =>
      let (ok, t') :=
        pgsp_entry_register_rdepend rdepend_max (mk_pgspRdependKey db RELOID o)
                                    k t in
      if ok then register_rels rdepend_max db k rest (i + 1) t'
      else (false, i, t')
  end.

(** The loop registering the handled invalidation items; [tmp] is
    [rdeps_tmp[0 .. nb_alloced_inval)]. *)
Fixpoint register_invals (rdepend_max : Z) (db : Oid) (k : pgspHashKey)
    (items : list PlanInvalItem) (tmp : list pgspRdependKey)
    (t : rdepend_table) : bool * list pgspRdependKey * rdepend_table :=
  match items with
  | [] => (true, tmp, t)
  | item :: rest =>
      if PGSP_ITEM_NOT_HANDLED item
      then register_invals rdepend_max db k rest tmp t
      else
        let rk := mk_pgspRdependKey db (cacheId item) (hashValue item) in
        let (ok, t') := pgsp_entry_register_rdepend rdepend_max rk k t in
        if ok then register_invals rdepend_max db k rest (tmp ++ [rk]) t'
        else (false, tmp, t')
  end.

(** The loop under [free_invals]: unregister handled items, counting them in
    [i], and leave the loop once [i > nb_alloced_inval]. *)
Fixpoint unregister_invals (db : Oid) (k : pgspHashKey) (nb_alloced_inval : Z)
    (items : list PlanInvalItem) (i : Z) (t : rdepend_table) : rdepend_table :=
  match items with
  | [] => t
  | item :: rest =>
      if PGSP_ITEM_NOT_HANDLED item
      then unregister_invals db k nb_alloced_inval rest i t
      else
        let rk := mk_pgspRdependKey db (cacheId item) (hashValue item) in
        let t' := pgsp_entry_unregister_rdepend rk k t in
        if nb_alloced_inval <? i + 1 then t'
        else unregister_invals db k nb_alloced_inval rest (i + 1) t'
  end.

(** From the label [free_plan] to the end. *)
Definition allocate_plan_free_plan (ok : bool) (c : pgspDsaContext)
  : M (bool * pgspDsaContext) :=
  modify (fun b => if ok then b else free_dsmem (ctx_plan c) (ctx_len c) b) ;;;
  LWLockRelease ;;;
  ret (ok, c).

(** From the label [free_rels] to the end. *)
Definition allocate_plan_free_rels (db : Oid) (k : pgspHashKey) (ok : bool)
    (c : pgspDsaContext) (oids : list Oid) (nb_alloced_rels : Z)
  : M (bool * pgspDsaContext) :=
  modify (fun b =>
    if negb ok && (0 <? ctx_num_rels c) then
      let t := unregister_rels db k nb_alloced_rels oids (pgsp_rdepend b) in
      free_dsmem (ctx_rels c) (Z.of_nat (length oids) * sizeof_Oid)
                 (set_rdepend b t)
    else b) ;;;
  allocate_plan_free_plan ok c.

(** From the label [free_invals] to the end. *)
Definition allocate_plan_free_invals (db : Oid) (k : pgspHashKey) (ok : bool)
    (c : pgspDsaContext) (oids : list Oid) (nb_alloced_rels : Z)
    (items : list PlanInvalItem) (nb_alloced_inval : Z)
  : M (bool * pgspDsaContext) :=
  modify (fun b =>
    if negb ok && (0 <? nb_alloced_inval) then
      set_rdepend b (unregister_invals db k nb_alloced_inval items 0
                                       (pgsp_rdepend b))
    else b) ;;;
  allocate_plan_free_rels db k ok c oids nb_alloced_rels.

(** [pgsp_allocate_plan(parse, stmt, context, key)].  [query_items] is what
    [extract_query_dependencies] finds in [parse]. *)
Definition pgsp_allocate_plan (bc : build_config) (g : gucs) (db : Oid)
    (query_items : list PlanInvalItem) (stmt : PlannedStmt)
    (context : pgspDsaContext) (k : pgspHashKey)
  : M (bool * pgspDsaContext) :=
  fun b =>
  (* First, allocate space to save a serialized version of the plan. *)
  let l := nodeToString_len stmt + 1 in
  let (p, area1) := dsa_allocate_extended (pgsp_area b) l (PlanBytes stmt) in
  let c1 := ctx_set_plan context p l in
  if negb (dsa_valid p) then Done (false, c1) b
  else
    let b1 := PGSP_USEDSMEM l (set_area b area1) in
    (* Compute base relations the plan is referencing. *)
    let oids := plan_relation_oids bc stmt in
    let n := Z.of_nat (length oids) in
    let c2 := ctx_set_rels c1 (ctx_rels c1) n in
    (* Save the list of relations in shared memory if any. *)
    let array_len := sizeof_Oid * n in
    let (r, area2) :=
      if n =? 0 then (ctx_rels c2, pgsp_area b1)
      else dsa_allocate_extended (pgsp_area b1) array_len (OidArray oids) in
    let c3 := ctx_set_rels c2 r n in
    if negb (n =? 0) && negb (dsa_valid r)
    then allocate_plan_free_plan false c3 b1
    else
      let b2 := if n =? 0 then b1
                else PGSP_USEDSMEM array_len (set_area b1 area2) in
      (LWLockAcquire LW_EXCLUSIVE ;;;
       b3 <- get ;;
       (* Save the list of relation dependencies *)
       let '(ok, i, t) :=
         register_rels (pgsp_rdepend_max g) db k oids 0 (pgsp_rdepend b3) in
       modify (fun b => set_rdepend b t) ;;;
       if negb ok then allocate_plan_free_rels db k false c3 oids i
       else
         (* Also save handled PlanInvalItem dependencies. *)
         let items := query_items ++ invalItems stmt in
         b4 <- get ;;
         let '(ok, tmp, t) :=
           register_invals (pgsp_rdepend_max g) db k items []
                           (pgsp_rdepend b4) in
         modify (fun b => set_rdepend b t) ;;;
         let nb := Z.of_nat (length tmp) in
         if negb ok
         then allocate_plan_free_invals db k false c3 oids i items nb
         else if 0 <? nb then
           b5 <- get ;;
           let (d, area3) :=
             dsa_allocate_extended (pgsp_area b5)
                                   (sizeof_pgspRdependKey * nb)
                                   (RdependKeyArray tmp) in
           let c4 := ctx_set_rdeps c3 d (ctx_num_rdeps c3) in
           if negb (dsa_valid d)
           then allocate_plan_free_invals db k false c4 oids i items nb
           else
             modify (fun b => PGSP_USEDSMEM (nb * sizeof_pgspRdependKey)
                                            (set_area b area3)) ;;;
             allocate_plan_free_invals db k true (ctx_set_rdeps c4 d nb)
                                       oids i items nb
         else
           allocate_plan_free_invals db k true
             (ctx_set_rdeps c3 (ctx_rdeps c3) nb) oids i items nb) b2.

(* ================================================================= *)
(** ** Creating or refreshing an entry: [pgsp_entry_alloc] *)

(** [while (hash_get_num_entries(pgsp_hash) >= pgsp_max) pgsp_entry_dealloc();]
    [None] when the loop has not ended within [fuel] passes. *)
Fixpoint make_space (fuel : nat) (g : gucs) (b : backend) : option backend :=
  if pgsp_max g <=? hash_get_num_entries (pgsp_hash b) then
    match fuel with
    | O => None
    | S fuel' => make_space fuel' g (pgsp_entry_dealloc b)
    end
  else Some b.

(** [PGSP_FREERELEASEDSMEM(context, plan, context->len, len)] *)
Definition release_ctx_plan (c : pgspDsaContext) (b : backend)
  : pgspDsaContext * backend :=
  (ctx_set_plan c InvalidDsaPointer 0, free_dsmem (ctx_plan c) (ctx_len c) b).

(** [PGSP_FREERELEASEDSMEM(context, rels,]
    [context->num_rels * sizeof(Oid), num_rels)] *)
Definition release_ctx_rels (c : pgspDsaContext) (b : backend)
  : pgspDsaContext * backend :=
  (ctx_set_rels c InvalidDsaPointer 0,
   free_dsmem (ctx_rels c) (ctx_num_rels c * sizeof_Oid) b).

(** [PGSP_FREERELEASEDSMEM(context, rdeps,]
    [context->num_rdeps * sizeof(pgspRdependKey), num_rdeps)] *)
Definition release_ctx_rdeps (c : pgspDsaContext) (b : backend)
  : pgspDsaContext * backend :=
  (ctx_set_rdeps c InvalidDsaPointer 0,
   free_dsmem (ctx_rdeps c) (ctx_num_rdeps c * sizeof_pgspRdependKey) b).

(** The branch taken when the entry exists, has no plan, and is locked. *)
Definition discard_locked_context (db : Oid) (k : pgspHashKey)
    (c : pgspDsaContext) (b : backend) : pgspDsaContext * backend :=
  (* Free the plan. *)
  let (c1, b1) := release_ctx_plan c b in
  (* Free all saved rdepend. *)
  let b2 :=
    if 0 <? ctx_num_rels c1 then
      set_rdepend b1
        (unregister_rels db k (ctx_num_rels c1)
                         (oid_array (pgsp_area b1) (ctx_rels c1))
                         (pgsp_rdepend b1))
    else b1 in
  let b3 :=
    if 0 <? ctx_num_rdeps c1 then
      set_rdepend b2
        (unregister_rdeps k (ctx_num_rdeps c1)
                          (rdepend_key_array (pgsp_area b2) (ctx_rdeps c1))
                          (pgsp_rdepend b2))
    else b2 in
  (* And free the rdepend arrays. *)
  let (c4, b4) := if 0 <? ctx_num_rels c1 then release_ctx_rels c1 b3
                  else (c1, b3) in
  if 0 <? ctx_num_rdeps c4 then release_ctx_rdeps c4 b4 else (c4, b4).

(** Remove rels that are no longer referenced. *)
Definition unregister_stale_rels (db : Oid) (k : pgspHashKey)
    (old : list Oid) (new : list Oid) (t : rdepend_table) : rdepend_table :=
  fold_left
    (fun t o =>
       if existsb (Z.eqb o) new then t
       else pgsp_entry_unregister_rdepend (mk_pgspRdependKey db RELOID o) k t)
    old t.

(** Remove rdeps that are no longer referenced. *)
Definition unregister_stale_rdeps (k : pgspHashKey)
    (old new : list pgspRdependKey) (t : rdepend_table) : rdepend_table :=
  fold_left
    (fun t rk =>
       if existsb (fun rk' => pgsp_rdepend_fn_compare rk rk' =? 0) new then t
       else pgsp_entry_unregister_rdepend rk k t)
    old t.

(** The block "Update reverse dependencies" for an entry that was found and
    holds a plan: the entry takes over the context's dependency arrays. *)
Definition reconcile_dependencies (db : Oid) (k : pgspHashKey)
    (e : pgspEntry) (c : pgspDsaContext) (b : backend)
  : pgspEntry * pgspDsaContext * backend :=
  let '(e1, b1) :=
    if dsa_valid (rels e) then
      let old := firstn (Z.to_nat (num_rels e))
                        (oid_array (pgsp_area b) (rels e)) in
      let new := if dsa_valid (ctx_rels c)
                 then firstn (Z.to_nat (ctx_num_rels c))
                             (oid_array (pgsp_area b) (ctx_rels c))
                 else [] in
      let t := unregister_stale_rels db k old new (pgsp_rdepend b) in
      (set_rels e InvalidDsaPointer 0,
       free_dsmem (rels e) (num_rels e * sizeof_Oid) (set_rdepend b t))
    else (e, b) in
  (* PGSP_TRANSFER(entry, context, rels, num_rels) *)
  let e2 := set_rels e1 (ctx_rels c) (ctx_num_rels c) in
  let c2 := ctx_set_rels c InvalidDsaPointer 0 in
  let '(e3, b3) :=
    if dsa_valid (rdeps e2) then
      let old := firstn (Z.to_nat (num_rdeps e2))
                        (rdepend_key_array (pgsp_area b1) (rdeps e2)) in
      let new := if dsa_valid (ctx_rdeps c2)
                 then firstn (Z.to_nat (ctx_num_rdeps c2))
                             (rdepend_key_array (pgsp_area b1) (ctx_rdeps c2))
                 else [] in
      let t := unregister_stale_rdeps k old new (pgsp_rdepend b1) in
      (set_rdeps e2 InvalidDsaPointer 0,
       free_dsmem (rdeps e2) (num_rdeps e2 * sizeof_pgspRdependKey)
                  (set_rdepend b1 t))
    else (e2, b1) in
  (* PGSP_TRANSFER(entry, context, rdeps, num_rdeps) *)
  let e4 := set_rdeps e3 (ctx_rdeps c2) (ctx_num_rdeps c2) in
  let c4 := ctx_set_rdeps c2 InvalidDsaPointer 0 in
  (e4, c4, b3).

(** The entry [hash_search(HASH_ENTER)] creates, once initialised from the
    context. *)
Definition new_entry (k : pgspHashKey) (c : pgspDsaContext) (plantime : float)
    (num_const : Z) (custom_cost generic_cost : float) : pgspEntry :=
  mk_pgspEntry k (ctx_len c) (ctx_plan c) (ctx_num_rels c) (ctx_rels c)
    (ctx_num_rdeps c) (ctx_rdeps c) num_const plantime generic_cost
    0 (* discard *) 0 (* lockers *) 0 (* bypass *)
    PGSP_USAGE_INIT custom_cost 1.

(** Allocate a new hashtable entry if no one did the job before, and associate
    it with the given dsa pointers.  Caller must hold an exclusive lock. *)
Definition pgsp_entry_alloc (g : gucs) (db : Oid) (k : pgspHashKey)
    (context : pgspDsaContext) (plantime : float) (num_const : Z)
    (custom_cost generic_cost : float) : M (pgspEntry * pgspDsaContext) :=
  fun b0 =>
  (* Make space if needed *)
  match make_space (S (length (pgsp_hash b0))) g b0 with
  | None => Raised OutOfFuel b0
  | Some b =>
    (* Find or create an entry with desired hash code *)
    match hash_find (pgsp_hash b) k with
    | None =>
        (* New entry, initialize it; the context's handles move to it. *)
        let e := new_entry k context plantime num_const custom_cost
                           generic_cost in
        Done (e, empty_context) (set_hash b (pgsp_hash b ++ [e]))
    | Some e =>
        let '(e1, c1, b1) :=
          if negb (dsa_valid (plan e)) then
            (* Plan was discarded, simply register the new one if the entry
               isn't locked. *)
            if negb (lockers e =? 0) then
              let (c', b') := discard_locked_context db k context b in
              (e, c', b')
            else
              (set_plan e (ctx_plan context) (ctx_len context),
               ctx_set_plan context InvalidDsaPointer 0, b)
          else (e, context, b) in
        (* Free the plan if it wasn't transferred *)
        let '(c2, b2) := if dsa_valid (ctx_plan c1) then release_ctx_plan c1 b1
                         else (c1, b1) in
        (* Update reverse dependencies *)
        let '(e3, c3, b3) :=
          if dsa_valid (plan e1) then reconcile_dependencies db k e1 c2 b2
          else (e1, c2, b2) in
        let '(c4, b4) := if dsa_valid (ctx_rels c3) then release_ctx_rels c3 b3
                         else (c3, b3) in
        let '(c5, b5) := if dsa_valid (ctx_rdeps c4)
                         then release_ctx_rdeps c4 b4 else (c4, b4) in
        Done (e3, c5)
             (set_hash b5 (hash_update (pgsp_hash b5) k (fun _ => e3)))
    end
  end.

(* ================================================================= *)
(** ** The host, as the cache sees it *)

Record Query := mk_query {
  queryId : Z;
  utilityStmt : bool;             (* parse->utilityStmt != NULL *)
  hasRowSecurity : bool;
  query_body : Z
}.

Definition ParamListInfo := Z.

Record host := mk_host {
  GetUserId : Oid;
  MyDatabaseId : Oid;
  prev_planner_hook : option (Query -> option ParamListInfo -> PlannedStmt);
  standard_planner : Query -> option ParamListInfo -> PlannedStmt;
  (** [INSTR_TIME_GET_DOUBLE(planduration) * 1000.0] of the custom planning *)
  measured_plantime : Query -> float;
  pgsp_cached_plan_cost : PlannedStmt -> bool -> float;
  (** result of [pgsp_query_walker]: non-cacheable?, constid, num_const *)
  pgsp_query_walker : Query -> bool * Z * Z;
  (** what the USE_ASSERT_CHECKING block folds into constid *)
  hash_tupdesc : Query -> Z -> Z;
  extract_query_dependencies : Query -> list PlanInvalItem;
  GetSysCacheHashValue1 : cache_id -> Oid -> Oid;
  GetCurrentTimestamp : Z
}.

(** Store a generic plan in shared memory, and allocate a new entry to
    associate the plan with. *)
Definition pgsp_cache_plan (bc : build_config) (g : gucs) (h : host)
    (parse : Query) (custom generic : PlannedStmt) (k : pgspHashKey)
    (plantime : float) (num_const : Z) : M unit :=
  r <- pgsp_allocate_plan bc g (MyDatabaseId h)
         (extract_query_dependencies h parse) generic empty_context k ;;
  let (ok, context) := r in
  if negb ok then ret tt
  else
    LWLockAcquire LW_EXCLUSIVE ;;;
    pgsp_entry_alloc g (MyDatabaseId h) k context plantime num_const
                     (pgsp_cached_plan_cost h custom true)
                     (pgsp_cached_plan_cost h generic false) ;;;
    LWLockRelease.

(* ================================================================= *)
(** ** Invalidation by object: [pgsp_evict_by_oid] *)

Definition uint32_wrap (n : Z) : Z := n mod 2 ^ 32.

(** The body of the loop over the fingerprints copied from the reverse
    dependency entry. *)
Definition evict_entry (kind : pgspEvictionKind) (k : pgspHashKey)
    (b : backend) : backend :=
  match hash_find (pgsp_hash b) k with
  | None => b
  | Some e =>
      let e1 :=
        match kind with
        | PGSP_UNLOCK => set_lockers e (uint32_wrap (lockers e - 1))
        | PGSP_DISCARD_AND_LOCK => set_lockers e (uint32_wrap (lockers e + 1))
        | _ => e
        end in
      let write e' b := set_hash b (hash_update (pgsp_hash b) k (fun _ => e')) in
      if kind_eqb kind PGSP_UNLOCK then write e1 b
      else
        (* We only report a discard of a plan that was previously valid. *)
        let '(e2, b2) :=
          if dsa_valid (plan e1) then
            let e' := set_plan e1 InvalidDsaPointer 0 in
            (if kind_eqb kind PGSP_EVICT then e'
             else set_discard e' (discard e' + 1),
             free_dsmem (plan e1) (len e1) b)
          else (e1, b) in
        if kind_eqb kind PGSP_EVICT then pgsp_entry_remove e2 (write e2 b2)
        else write e2 b2
  end.

Definition pgsp_evict_by_oid (h : host) (db : Oid) (classid : cache_id)
    (oid : Oid) (kind : pgspEvictionKind) : M unit :=
  modify (emit (EvEvictByOid classid oid kind)) ;;;
  (* For non-rel reverse dependencies, a hash was saved rather than the oid. *)
  o <- match classid with
       | RELOID => ret oid
       | TYPEOID => ret (GetSysCacheHashValue1 h TYPEOID oid)
       | PROCOID => ret (GetSysCacheHashValue1 h PROCOID oid)
       | OTHER_CACHE _ => raise RdependClassNotHandled
       end ;;
  b <- get ;;
  match rdepend_find (pgsp_rdepend b) (mk_pgspRdependKey db classid o) with
  | None => ret tt
  | Some rkeys =>
      modify (fun b => fold_left (fun b k => evict_entry kind k b) rkeys b)
  end.

(* ================================================================= *)
(** ** The planner hook *)

#[local] Set Warnings "-inexact-float".

(** The cost adjustment applied to a cached plan before it is returned
    (the block "Entry is still valid, keep going"). *)
Definition bias_cached_plan (g : gucs) (bypass : Z) (result : PlannedStmt)
  : PlannedStmt :=
  (* If our threshold is greater or equal than the plancache one, we won't be
     able to bypass it, so just return our plan as is. *)
  if PLANCACHE_THRESHOLD <=? pgsp_threshold g then result
  else
    let nb_rels := Z.of_nat (length (rtable result)) in
    (* Compute the total additional cost plancache will add. *)
    let total_diff :=
      PrimFloat.mul
        (PrimFloat.mul (PrimFloat.mul 1000%float (cpu_operator_cost g))
                       (Z2double (nb_rels + 1)))
        (Z2double PLANCACHE_THRESHOLD) in
    let diff0 :=
      PrimFloat.div total_diff
                    (Z2double (PLANCACHE_THRESHOLD - pgsp_threshold g)) in
    (* And add a safety margin, just in case. *)
    let diff1 := PrimFloat.add diff0 0.01%float in
    let diff :=
      if pgsp_disable_plancache g then
        if PLANCACHE_THRESHOLD - pgsp_threshold g <? bypass
        then PrimFloat.mul (total_cost result) 2%float
        else PrimFloat.add diff1
               (PrimFloat.mul (PrimFloat.mul (total_cost result) 2%float)
                              (Z2double (pgsp_threshold g)))
      else diff1 in
    let cost := PrimFloat.sub (total_cost result) diff in
    let cost' :=
      if negb (pgsp_disable_plancache g) then
        if PrimFloat.leb cost 0%float then 0.001%float else cost
      else cost in
    set_total_cost result cost'.

(** The host planner, as the hook calls it: the previous hook if any. *)
Definition host_planner (h : host) (parse : Query)
    (boundParams : option ParamListInfo) : PlannedStmt :=
  match prev_planner_hook h with
  | Some hook => hook parse boundParams
  | None => standard_planner h parse boundParams
  end.

Definition is_null {A} (o : option A) : bool :=
  match o with None => true | Some _ => false end.

(** The test that sends a request straight to [fallback]. *)
Definition hook_bypassed (bc : build_config) (g : gucs) (parse : Query)
    (boundParams : option ParamListInfo) : bool :=
  negb (pgsp_enabled g)
  || (queryId parse =? 0)
  || ((140000 <=? PG_VERSION_NUM bc) && compute_query_id_off g)
  || (if USE_ASSERT_CHECKING bc
      then negb (pgsp_cache_all g) && is_null boundParams
      else is_null boundParams).

(** From the [LWLockRelease] that follows the lookup to the end of the hook.
    [entry_null] tells whether [entry] is NULL at that point. *)
Definition plan_and_save (bc : build_config) (g : gucs) (h : host)
    (parse : Query) (boundParams : option ParamListInfo) (k : pgspHashKey)
    (num_const : Z) (entry_null accum_custom_stats : bool) : M PlannedStmt :=
  LWLockRelease ;;;
  let result := host_planner h parse boundParams in
  let plantime := measured_plantime h parse in
  (* Save the plan if no one did it yet *)
  if entry_null && double_ge plantime (Z2double (pgsp_min_plantime g)) then
    (* Generate a generic plan *)
    let generic := standard_planner h parse None in
    pgsp_cache_plan bc g h parse result generic k plantime num_const ;;;
    ret result
  else if accum_custom_stats then
    pgsp_accum_custom_plan k (pgsp_cached_plan_cost h result true) ;;;
    ret result
  else ret result.

(** The key the hook builds for the request; [constid0] is the walker's. *)
Definition request_key (bc : build_config) (g : gucs) (h : host)
    (parse : Query) (constid0 : Z) : pgspHashKey :=
  mk_pgspHashKey
    (* We need to create a per-user entry if there are RLS *)
    (if hasRowSecurity parse then GetUserId h else InvalidOid)
    (MyDatabaseId h) (queryId parse)
    (if USE_ASSERT_CHECKING bc && pgsp_cache_all g
     then hash_tupdesc h parse constid0 else constid0).

Definition pgsp_planner_hook (bc : build_config) (g : gucs) (h : host)
    (parse : Query) (boundParams : option ParamListInfo) : M PlannedStmt :=
  if hook_bypassed bc g parse boundParams
  then ret (host_planner h parse boundParams)
  else if utilityStmt parse then ret (host_planner h parse boundParams)
  else
    let '(noncacheable, constid0, num_const) := pgsp_query_walker h parse in
    (* Ignore if the plan is not cacheable *)
    if noncacheable then ret (host_planner h parse boundParams)
    else
      let k := request_key bc g h parse constid0 in
      let continue := plan_and_save bc g h parse boundParams k num_const in
      (* Lookup the hash table entry with shared lock. *)
      LWLockAcquire LW_SHARED ;;;
      b <- get ;;
      match hash_find (pgsp_hash b) k with
      | None => continue true false
      | Some e =>
          if negb (dsa_valid (plan e)) then
            (* Plan was discarded, clear entry pointer. *)
            continue true false
          else
            let '(use_cached, accum, e') :=
              pgsp_choose_cache_plan g e false in
            modify (fun b =>
              set_hash b (hash_update (pgsp_hash b) k (fun _ => e'))) ;;;
            if use_cached then
              match dsa_get_address (pgsp_area b) (plan e) with
              | Some (PlanBytes result) =>
                  LWLockRelease ;;;
                  (* pgsp_acquire_executor_locks(result, true) *)
                  LWLockAcquire LW_SHARED ;;;
                  b' <- get ;;
                  (* Check that the entry is still valid. *)
                  let still_valid :=
                    match hash_find (pgsp_hash b') k with
                    | None => None
                    | Some e2 =>
                        if negb (dsa_valid (plan e2))
                           || negb (discard e2 =? discard e)
                        then None else Some (bypass e2)
                    end in
                  LWLockRelease ;;;
                  match still_valid with
                  | Some bypass => ret (bias_cached_plan g bypass result)
                  | None => continue true accum
                  end
              | _ => raise BadPointer
              end
            else continue false accum
      end.

(* ================================================================= *)
(** ** Reset *)

(** The test of the filtered loop of [pg_shared_plans_reset_internal]. *)
Definition reset_matches (userid0 dbid0 : Oid) (queryid0 : Z) (e : pgspEntry)
  : bool :=
  ((userid0 =? 0) || (userid (key e) =? userid0))
  && ((dbid0 =? 0) || (dbid (key e) =? dbid0))
  && ((queryid0 =? 0) || (queryid (key e) =? queryid0)).

(** The entries the loops of [pg_shared_plans_reset_internal] remove. *)
Definition reset_targets (userid0 dbid0 : Oid) (queryid0 : Z)
    (h : list pgspEntry) : list pgspEntry :=
  if negb (userid0 =? 0) || negb (dbid0 =? 0) || negb (queryid0 =? 0)
  then filter (reset_matches userid0 dbid0 queryid0) h
  else h.

Definition pg_shared_plans_reset_internal (h : host) (userid0 dbid0 : Oid)
    (queryid0 : Z) : M unit :=
  LWLockAcquire LW_EXCLUSIVE ;;;
  modify (fun b =>
    let num_entries := hash_get_num_entries (pgsp_hash b) in
    let targets := reset_targets userid0 dbid0 queryid0 (pgsp_hash b) in
    let num_remove := Z.of_nat (length targets) in
    let b1 := fold_left (fun b e => pgsp_entry_remove e b) targets b in
    (* All entries are removed? *)
    if num_entries =? num_remove
    then set_pgsp b1 (set_dealloc (pgsp b1) 0 (GetCurrentTimestamp h))
    else b1) ;;;
  LWLockRelease.

(* ================================================================= *)
(** ** Utility statements ([pgsp_utility.c]) *)

Record pgspOidsEntry := mk_pgspOidsEntry {
  oe_kind : pgspEvictionKind;
  oe_classid : cache_id;
  oids : list Oid
}.

Record pgspUtilityContext := mk_util {
  oids_hash : list pgspOidsEntry;
  has_discard : bool;
  has_remove : bool;
  has_lock : bool;
  reset_current_db : bool
}.

(** [memset(&util, 0, sizeof(pgspUtilityContext))] *)
Definition empty_util : pgspUtilityContext := mk_util [] false false false false.

(** [list_concat_unique_oid] *)
Definition list_concat_unique_oid (l1 l2 : list Oid) : list Oid :=
  fold_left list_append_unique_oid l2 l1.

(** [get_oids_entry] followed by an update of the entry's list. *)
Definition update_oids_entry (kind : pgspEvictionKind) (classid : cache_id)
    (f : list Oid -> list Oid) (h : list pgspOidsEntry) : list pgspOidsEntry :=
  let same e := kind_eqb (oe_kind e) kind && cache_id_eqb (oe_classid e) classid in
  if existsb same h
  then map (fun e => if same e
                     then mk_pgspOidsEntry (oe_kind e) (oe_classid e) (f (oids e))
                     else e) h
  else h ++ [mk_pgspOidsEntry kind classid (f [])].

Definition discard_oid (classid : cache_id) (oid : Oid) (c : pgspUtilityContext)
  : pgspUtilityContext :=
  if negb (OidIsValid oid) then c
  else mk_util (update_oids_entry PGSP_DISCARD classid
                  (fun l => list_append_unique_oid l oid) (oids_hash c))
               true (has_remove c) (has_lock c) (reset_current_db c).

Definition discard_oids (classid : cache_id) (l : list Oid)
    (c : pgspUtilityContext) : pgspUtilityContext :=
  match l with
  | [] => c
  | _ => mk_util (update_oids_entry PGSP_DISCARD classid
                    (fun l0 => list_concat_unique_oid l0 l) (oids_hash c))
                 true (has_remove c) (has_lock c) (reset_current_db c)
  end.

Definition lock_oid (classid : cache_id) (oid : Oid) (c : pgspUtilityContext)
  : pgspUtilityContext :=
  if negb (OidIsValid oid) then c
  else mk_util (update_oids_entry PGSP_DISCARD_AND_LOCK classid
                  (fun l => list_append_unique_oid l oid) (oids_hash c))
               (has_discard c) (has_remove c) true (reset_current_db c).

Definition lock_oids (classid : cache_id) (l : list Oid)
    (c : pgspUtilityContext) : pgspUtilityContext :=
  match l with
  | [] => c
  | _ => mk_util (update_oids_entry PGSP_DISCARD_AND_LOCK classid
                    (fun l0 => list_concat_unique_oid l0 l) (oids_hash c))
                 (has_discard c) (has_remove c) true (reset_current_db c)
  end.

Definition remove_oid (classid : cache_id) (oid : Oid) (c : pgspUtilityContext)
  : pgspUtilityContext :=
  if negb (OidIsValid oid) then c
  else mk_util (update_oids_entry PGSP_EVICT classid
                  (fun l => list_append_unique_oid l oid) (oids_hash c))
               (has_discard c) true (has_lock c) (reset_current_db c).

(** A utility statement, with the catalog lookups of the pre- and post-exec
    passes already resolved (an oid that a lookup does not find is
    [InvalidOid]). *)
Inductive utility_stmt :=
(** DROP INDEX: per object, the table of the index; [in_xact] is
    [GetTopTransactionIdIfAny() != InvalidTransactionId || IsTransactionBlock()] *)
| DropIndex (concurrent in_xact : bool) (heapoids : list Oid)
(** DROP TABLE / VIEW / MATERIALIZED VIEW / FOREIGN TABLE *)
| DropRelations (reloids : list Oid)
(** DROP AGGREGATE / FUNCTION / PROCEDURE / ROUTINE *)
| DropRoutines (procoids : list Oid)
(** ALTER TABLE ... DETACH PARTITION ... CONCURRENTLY (pg14+) *)
| DetachPartitionConcurrently (in_xact_block : bool) (reloid : Oid)
                              (ancestors : list Oid)
(** REINDEX INDEX / TABLE on one relation *)
| ReindexRelation (concurrently in_xact : bool) (heapoid : Oid)
(** a statement whose plans are discarded after execution (ALTER TABLE,
    CREATE INDEX, CREATE TABLE ... INHERITS, ALTER DOMAIN, ALTER FUNCTION) *)
| DiscardAfter (classid : cache_id) (oid : Oid) (related : list Oid)
(** ALTER TEXT SEARCH DICTIONARY, outside a transaction block *)
| AlterTSDictionary
(** a statement the cache does not react to *)
| Unrelated.

(** The loop over [drop->objects] for OBJECT_INDEX. *)
Fixpoint drop_index_objects (concurrent : bool) (heapoids : list Oid)
    (c : pgspUtilityContext) : pgspUtilityContext :=
  match heapoids with
  | [] => c
  | heapoid :: rest =>
      if negb (OidIsValid heapoid) then c       (* break *)
      else drop_index_objects concurrent rest
             (if concurrent then lock_oid RELOID heapoid c
              else discard_oid RELOID heapoid c)
  end.

Definition pgsp_utility_pre_exec (s : utility_stmt) (c : pgspUtilityContext)
  : pgspUtilityContext :=
  match s with
  | DropIndex concurrent in_xact heapoids =>
      if concurrent && in_xact then c
      else drop_index_objects concurrent heapoids c
  | DropRelations reloids =>
      fold_left (fun c o => remove_oid RELOID o c) reloids c
  | DropRoutines procoids =>
      fold_left (fun c o => remove_oid PROCOID o c) procoids c
  | DetachPartitionConcurrently in_xact_block reloid ancestors =>
      if in_xact_block then c
      else if OidIsValid reloid
           then lock_oids RELOID ancestors (lock_oid RELOID reloid c)
           else c
  | ReindexRelation concurrently in_xact heapoid =>
      if concurrently && in_xact then c
      else if negb (OidIsValid heapoid) then c
      else if concurrently then lock_oid RELOID heapoid c
           else discard_oid RELOID heapoid c
  | AlterTSDictionary =>
      mk_util (oids_hash c) (has_discard c) (has_remove c) (has_lock c) true
  | DiscardAfter _ _ _ | Unrelated => c
  end.

Definition pgsp_utility_post_exec (s : utility_stmt) (c : pgspUtilityContext)
  : pgspUtilityContext :=
  match s with
  | DiscardAfter classid oid related =>
      if OidIsValid oid
      then discard_oids classid related (discard_oid classid oid c)
      else c
  | _ => c
  end.

Fixpoint for_each {A} (l : list A) (f : A -> M unit) : M unit :=
  match l with
  | [] => ret tt
  | x :: rest => f x ;;; for_each rest f
  end.

(** Process the populated lock requests, before the statement runs. *)
Definition pgsp_utility_do_lock (h : host) (c : pgspUtilityContext) : M unit :=
  if negb (has_lock c) then ret tt
  else
    for_each (oids_hash c) (fun entry =>
      (* Should not find other discard kind, but be safe. *)
      if negb (kind_eqb (oe_kind entry) PGSP_DISCARD_AND_LOCK) then ret tt
      else
        LWLockAcquire LW_EXCLUSIVE ;;;
        for_each (oids entry) (fun oid =>
          pgsp_evict_by_oid h (MyDatabaseId h) (oe_classid entry) oid
                            PGSP_DISCARD_AND_LOCK) ;;;
        (* Downgrade the lock. *)
        LWLockRelease ;;;
        LWLockAcquire LW_SHARED ;;;
        for_each (oids entry) (fun oid =>
          pgsp_evict_by_oid h (MyDatabaseId h) (oe_classid entry) oid
                            PGSP_UNLOCK)).

(** [pgsp_ProcessUtility] up to the execution of the statement: the pre-exec
    pass and the lock requests. *)
Definition utility_before_exec (h : host) (s : utility_stmt)
  : M pgspUtilityContext :=
  let util := pgsp_utility_pre_exec s empty_util in
  (* Process the populated util.oids_lock if any. *)
  pgsp_utility_do_lock h util ;;;
  ret util.

(** [pgsp_ProcessUtility] once the statement has been executed. *)
Definition utility_after_exec (h : host) (s : utility_stmt)
    (util : pgspUtilityContext) : M unit :=
  if reset_current_db util then
    pg_shared_plans_reset_internal h InvalidOid (MyDatabaseId h) 0
  else
    let util := pgsp_utility_post_exec s util in
    if has_discard util || has_remove util || has_lock util then
      (if has_lock util then ret tt else LWLockAcquire LW_EXCLUSIVE) ;;;
      for_each (oids_hash util) (fun entry =>
        if negb (kind_eqb (oe_kind entry) PGSP_DISCARD)
           && negb (kind_eqb (oe_kind entry) PGSP_EVICT)
        then ret tt
        else
          for_each (oids entry) (fun oid =>
            pgsp_evict_by_oid h (MyDatabaseId h) (oe_classid entry) oid
                              (oe_kind entry))) ;;;
      (* Also make sure that we don't cache a new plan. *)
      modify (fun b => emit EvSetReadOnly (set_ro b true)) ;;;
      LWLockRelease
    else ret tt.

(** Inspect the UTILITY command being run and discard cached plan as needed. *)
Definition pgsp_ProcessUtility (h : host) (s : utility_stmt) : M unit :=
  util <- utility_before_exec h s ;;
  (* Run the utility. *)
  modify (emit EvRunUtility) ;;;
  utility_after_exec h s util.

(* ================================================================= *)
(** ** Hashing a key: [pgsp_hash_fn] *)

Section HashFn.
(** The host's [hash_combine], on [uint32]. *)
Variable hash_combine : Z -> Z -> Z.

(** Calculate a hash value for a given key.  [queryid] is a [uint64] passed
    for a [uint32]: C keeps its low 32 bits. *)
Definition pgsp_hash_fn (k : pgspHashKey) : Z :=
  let h := hash_combine 0 (userid k) in
  let h := hash_combine h (dbid k) in
  let h := hash_combine h (uint32_wrap (queryid k)) in
  hash_combine h (constid k).
End HashFn.

(* ================================================================= *)
(** ** The tranche of [pgsp->lock]: the search of [pgsp_shmem_startup] *)

(** [for (trancheid = LWTRANCHE_FIRST_USER_DEFINED; ; trancheid++)], from
    [trancheid] on.  [name_matches t] is
    [strcmp(GetLWLockIdentifier(PG_WAIT_LWLOCK, t), PGSP_TRANCHE_NAME) == 0];
    [None] when the loop has not ended within [fuel] more turns. *)
Fixpoint guess_trancheid (name_matches : Z -> bool) (first : Z) (fuel : nat)
    (trancheid : Z) : option Z :=
  if name_matches trancheid then Some trancheid          (* Found it! *)
  else if 50 <? trancheid - first then Some first        (* just give up *)
  else match fuel with
       | O => None
       | S fuel' => guess_trancheid name_matches first fuel' (trancheid + 1)
       end.

(** The value [pgsp_shmem_startup] stores in [pgsp->LWTRANCHE_PGSP];
    [first] is [LWTRANCHE_FIRST_USER_DEFINED]. *)
Definition pgsp_guess_trancheid (name_matches : Z -> bool) (first : Z)
  : option Z :=
  guess_trancheid name_matches first 51 first.

(* ================================================================= *)
(** ** Locks for the execution of a cached plan *)

(** A call of the host's lock manager. *)
Inductive lock_call :=
| LockRelationOid (relid : Oid) (lockmode : Z)
| UnlockRelationOid (relid : Oid) (lockmode : Z).

(** Acquire locks needed for execution of a cached plan; or release them if
    [acquire] is false.  Returns the calls made, in order.  [rellockmode]
    is the field of that name of a range-table entry;
    [pgsp_ScanQueryForLocks] gives the calls made for the query a utility
    statement contains, none when it contains no query. *)
Definition pgsp_acquire_executor_locks
    (rellockmode : RangeTblEntry -> Z)
    (pgsp_ScanQueryForLocks : PlannedStmt -> bool -> list lock_call)
    (plannedstmt : PlannedStmt) (acquire : bool) : list lock_call :=
  match commandType plannedstmt with
  | CMD_UTILITY => pgsp_ScanQueryForLocks plannedstmt acquire
  | _ =>
      flat_map
        (fun rte =>
           match rtekind rte with
           | RTE_RELATION =>
               [if acquire then LockRelationOid (relid rte) (rellockmode rte)
                else UnlockRelationOid (relid rte) (rellockmode rte)]
           | _ => []
           end)
        (rtable plannedstmt)
  end.

(* ================================================================= *)
(** ** The query walker: [pgsp_query_walker]

    Walker function for [query_tree_walker] and [expression_tree_walker] to
    find anything incompatible with shared plans, and to compute the
    constid.  In the planner hook above its result for the request is a
    field of [host]. *)

Module QueryWalker.

Record pgspWalkerContext := mk_walker_context {
  wc_constid : Z;       (* uint32 *)
  wc_num_const : Z      (* int *)
}.

(** What the walker asks the host: the two hash functions, and per relation
    or function what the relcache and the ACL check answer. *)
Record walker_host := mk_walker_host {
  hash_combine : Z -> Z -> Z;
  hash_any : String.string -> Z;
  RelationUsesLocalBuffers : Oid -> bool;
  (** [rel->rd_rules]: [None] when NULL, else its [numLocks] *)
  rd_rules : Oid -> option Z;
  (** [get_rel_relkind(relid) == RELKIND_VIEW] *)
  relkind_is_view : Oid -> bool;
  (** the ACL check of EXECUTE on the function answers [ACLCHECK_OK] *)
  aclcheck_ok : Oid -> bool
}.

(** A range-table entry as the walker reads it; [rte_colnames] is
    [alias->colnames], empty when there is no alias. *)
Record WalkedRTE := mk_walked_rte {
  rte_entry : RangeTblEntry;
  rte_inh : bool;
  rte_colnames : list String.string
}.

(** The nodes the walker tells apart.  [parts] are the nodes the host's
    [query_tree_walker] or [expression_tree_walker] hands to the walker, in
    its order; it finds none under a Const or a Param. *)
#[local] Set Warnings "-register-all".
Inductive Node :=
| T_Null
| T_Query (rtable : list WalkedRTE) (limitOption : Z)
          (resnames : list (option String.string)) (parts : list Node)
| T_Const (text : String.string)           (* nodeToString(node) *)
| T_FuncExpr (funcid : Oid) (parts : list Node)
| T_GroupingFunc (agglevelsup : Z) (parts : list Node)
| T_XmlExpr (name : option String.string) (parts : list Node)
| T_Param (paramcollid : Oid)
| T_Other (parts : list Node).

Section Walk.
Variable bc : build_config.
Variable wh : walker_host.

(** [context->constid = hash_combine(context->constid, v)] *)
Definition combine (ctx : pgspWalkerContext) (v : Z) : pgspWalkerContext :=
  mk_walker_context (hash_combine wh (wc_constid ctx) v) (wc_num_const ctx).

Definition combine_name (ctx : pgspWalkerContext) (n : String.string)
  : pgspWalkerContext :=
  combine ctx (hash_any wh n).

(** The tests on a relation of the range table that end the walk. *)
Definition rte_rejected (r : WalkedRTE) : bool :=
  match rtekind (rte_entry r) with
  | RTE_RELATION =>
      let relid := relid (rte_entry r) in
      RelationUsesLocalBuffers wh relid
      || match rd_rules wh relid with
         | Some numLocks => negb (relkind_is_view wh relid) || (1 <? numLocks)
         | None => false
         end
  | _ => false
  end.

(** What one range-table entry that is not rejected adds to the constid. *)
Definition walk_rte (limitOption : Z) (r : WalkedRTE)
    (ctx : pgspWalkerContext) : pgspWalkerContext :=
  let ctx1 := if PG_VERSION_NUM bc <? 140000
              then combine ctx (if rte_inh r then 1 else 0) else ctx in
  let ctx2 := if (130000 <=? PG_VERSION_NUM bc) && (PG_VERSION_NUM bc <? 140000)
              then combine ctx1 limitOption else ctx1 in
  fold_left combine_name (rte_colnames r) ctx2.

(** [foreach(lc, query->rtable)] *)
Fixpoint walk_rtable (limitOption : Z) (rtable : list WalkedRTE)
    (ctx : pgspWalkerContext) : bool * pgspWalkerContext :=
  match rtable with
  | [] => (false, ctx)
  | r :: rest =>
      if rte_rejected r then (true, ctx)
      else walk_rtable limitOption rest (walk_rte limitOption r ctx)
  end.

(** [foreach(lc, query->targetList)] *)
Definition walk_resnames (resnames : list (option String.string))
    (ctx : pgspWalkerContext) : pgspWalkerContext :=
  fold_left (fun ctx resname =>
               match resname with
               | None => ctx
               | Some n => combine_name ctx n
               end) resnames ctx.

(** Returns whether something incompatible with shared plans was found, and
    the context as the walk leaves it. *)
Fixpoint pgsp_query_walker (node : Node) (ctx : pgspWalkerContext)
  : bool * pgspWalkerContext :=
  let tree_walker :=
    fix tree_walker (parts : list Node) (ctx : pgspWalkerContext)
      : bool * pgspWalkerContext :=
      match parts with
      | [] => (false, ctx)
      | n :: rest =>
          let (found, ctx') := pgsp_query_walker n ctx in
          if found then (true, ctx') else tree_walker rest ctx'
      end in
  match node with
  | T_Null => (false, ctx)
  | T_Query rtable limitOption resnames parts =>
      let (found, ctx1) := walk_rtable limitOption rtable ctx in
      if found then (true, ctx1)
      else tree_walker parts (walk_resnames resnames ctx1)
  | T_Const text =>
      (false, mk_walker_context
                (hash_combine wh (wc_constid ctx) (hash_any wh text))
                (wc_num_const ctx + 1))
  | T_FuncExpr funcid parts =>
      if negb (aclcheck_ok wh funcid) then (true, ctx)
      else tree_walker parts ctx
  | T_GroupingFunc agglevelsup parts =>
      tree_walker parts
        (if PG_VERSION_NUM bc <? 140000 then combine ctx agglevelsup else ctx)
  | T_XmlExpr name parts =>
      tree_walker parts
        (match name with Some n => combine_name ctx n | None => ctx end)
  | T_Param paramcollid => (false, combine ctx paramcollid)
  | T_Other parts => tree_walker parts ctx
  end.

(** The host's tree walker over [parts], with [pgsp_query_walker] as its
    walker. *)
Fixpoint tree_walker (parts : list Node) (ctx : pgspWalkerContext)
  : bool * pgspWalkerContext :=
  match parts with
  | [] => (false, ctx)
  | n :: rest =>
      let (found, ctx') := pgsp_query_walker n ctx in
      if found then (true, ctx') else tree_walker rest ctx'
  end.

End Walk.
End QueryWalker.

(* ================================================================= *)
(** ** REINDEX in [pgsp_utility_pre_exec] *)

(** The [ReindexStmt] branch, with the statement as the parser hands it
    over.  The branch is compiled for pg12 and later (the file does not build
    before: the [#if] takes the closing brace of the function with it). *)

Inductive ReindexObjectType :=
| REINDEX_OBJECT_INDEX | REINDEX_OBJECT_TABLE | REINDEX_OBJECT_SCHEMA
| REINDEX_OBJECT_SYSTEM | REINDEX_OBJECT_DATABASE.

Definition RangeVar := Z.

Record ReindexStmt := mk_reindex {
  rdx_kind : ReindexObjectType;
  rdx_relation : option RangeVar;         (* rdx->relation, NULL or not *)
  rdx_name : option String.string;        (* rdx->name, NULL or not *)
  (** [concurrently] among [rdx->params] (pg14+), [rdx->concurrent] before *)
  rdx_concurrently : bool
}.

(** How the branch ends. *)
Inductive pre_exec_outcome :=
(** it returns; [restarted] tells whether it has committed the transaction
    and started a fresh one *)
| PreExecReturn (c : pgspUtilityContext) (restarted : bool)
(** [elog(ERROR, "pg_shared_plans bug, unexpected reindex kind %d")] *)
| PreExecUnexpectedKind
(** an [Assert] fails (USE_ASSERT_CHECKING builds) *)
| PreExecAssertFailed
(** [RangeVarGetRelidExtended] is called on a NULL relation *)
| PreExecNullRelation.

Definition set_reset_current_db (c : pgspUtilityContext) : pgspUtilityContext :=
  mk_util (oids_hash c) (has_discard c) (has_remove c) (has_lock c) true.

Section Reindex.
Variable bc : build_config.
(** [RangeVarGetRelidExtended(rel, AccessExclusiveLock, RVR_MISSING_OK, ...)]
    and [IndexGetRelation(indoid, true)]: [InvalidOid] when nothing is
    found. *)
Variable RangeVarGetRelidExtended : RangeVar -> Oid.
Variable IndexGetRelation : Oid -> Oid.
(** [GetTopTransactionIdIfAny() != InvalidTransactionId || IsTransactionBlock()] *)
Variable in_xact : bool.

(** The end of the cases REINDEX_OBJECT_INDEX and REINDEX_OBJECT_TABLE, once
    the table is known. *)
Definition reindex_heap (concurrently : bool) (heapoid : Oid)
    (c : pgspUtilityContext) : pre_exec_outcome :=
  (* Got the table oid, directly add its oid to the discard list. *)
  let c' := if concurrently then lock_oid RELOID heapoid c
            else discard_oid RELOID heapoid c in
  (* RIC expects to be the first command in a transaction, so commit the
     transaction that we just started and start a fresh one. *)
  PreExecReturn c' concurrently.

Definition pgsp_utility_pre_exec_reindex (rdx : ReindexStmt)
    (c : pgspUtilityContext) : pre_exec_outcome :=
  let rel := rdx_relation rdx in
  let concurrently := rdx_concurrently rdx in
  (* Don't mess up with the transactions if the command is gonna fail. *)
  if concurrently && in_xact then PreExecReturn c false
  else
    (* For commands that reindex a lot of objects, just discard the whole
       cache, whether it's CONCURRENT or not. *)
    let named := negb (is_null (rdx_name rdx)) in
    if USE_ASSERT_CHECKING bc && named && negb (is_null rel)
    then PreExecAssertFailed                     (* Assert(rel == NULL) *)
    else
      let c1 := if named then set_reset_current_db c else c in
      if USE_ASSERT_CHECKING bc && is_null rel
      then PreExecAssertFailed                   (* Assert(rel != NULL) *)
      else
        match rdx_kind rdx with
        | REINDEX_OBJECT_INDEX =>
            match rel with
            | None => PreExecNullRelation
            | Some rv =>
                let indoid := RangeVarGetRelidExtended rv in
                if negb (OidIsValid indoid) then PreExecReturn c1 false
                else
                  let heapoid := IndexGetRelation indoid in
                  if negb (OidIsValid heapoid) then PreExecReturn c1 false
                  else reindex_heap concurrently heapoid c1
            end
        | REINDEX_OBJECT_TABLE =>
            match rel with
            | None => PreExecNullRelation
            | Some rv =>
                let heapoid := RangeVarGetRelidExtended rv in
                if negb (OidIsValid heapoid) then PreExecReturn c1 false
                else reindex_heap concurrently heapoid c1
            end
        | _ =>
            (* Should not happen. *)
            PreExecUnexpectedKind
        end.
End Reindex.

(* ================================================================= *)
(** ** Notions used in the statements *)



(** Ascending usage, as [entry_cmp] sees it: the left entry does not compare
    greater than the right one. *)
Definition usage_ascending (a b : pgspEntry) : Prop := entry_cmp a b <= 0.

(** The number of entries a pass removes according to section 4.G:
    [max(10, ceil(0.05 * N))]. *)
Definition specified_victims (N : Z) : Z := Z.max 10 ((5 * N + 99) / 100).

(** The capacity bound (invariant 5 of section 3). *)
Definition within_capacity (g : gucs) (b : backend) : Prop :=
  hash_get_num_entries (pgsp_hash b) <= pgsp_max g.

(** The entry points through which a backend reaches the cache. *)
Inductive operation :=
| PlanRequest (parse : Query) (boundParams : option ParamListInfo)
| UtilityRequest (s : utility_stmt)
| ResetRequest (userid0 dbid0 : Oid) (queryid0 : Z).

(** One operation; an error ends the transaction, which releases every
    lwlock the backend holds. *)
Definition run_operation (bc : build_config) (g : gucs) (h : host)
    (op : operation) (b : backend) : backend :=
  let settle {A} (o : outcome A) :=
    match o with
    | Done _ b' => b'
    | Raised _ b' => set_held b' []
    end in
  match op with
  | PlanRequest parse boundParams =>
      settle (pgsp_planner_hook bc g h parse boundParams b)
  | UtilityRequest s => settle (pgsp_ProcessUtility h s b)
  | ResetRequest u d q => settle (pg_shared_plans_reset_internal h u d q b)
  end.

Definition run (bc : build_config) (g : gucs) (h : host)
    (ops : list operation) (b : backend) : backend :=
  fold_left (fun b op => run_operation bc g h op b) ops b.

(** The arena hands out fresh handles: every live segment has a handle
    below [dsa_next]. *)
Definition dsa_wf (a : dsa_area) : Prop :=
  0 < dsa_next a
  /\ Forall (fun s => 0 < seg_ptr s < dsa_next a) (dsa_segments a).



(** A LOCK-class statement is one whose pre-exec pass asks for entries to be
    locked; what the pass leaves is then a single list of relations. *)
Definition lock_class (s : utility_stmt) : bool :=
  has_lock (pgsp_utility_pre_exec s empty_util).

Definition lock_requests (l : list Oid) : pgspUtilityContext :=
  mk_util [mk_pgspOidsEntry PGSP_DISCARD_AND_LOCK RELOID l]
          false false true false.


(** The two sides of the arena's accounting: the bytes the cache says it
    uses, and the room the arena has left. *)
Definition accounting (b : backend) : Z * Z :=
  (alloced_size (pgsp b), dsa_room (pgsp_area b)).

(** The fingerprint [k] is registered under [rk] in the reverse index. *)
Definition registered (k : pgspHashKey) (rk : pgspRdependKey)
    (t : rdepend_table) : Prop :=
  exists ks, rdepend_find t rk = Some ks /\ existsb (key_eqb k) ks = true.

(** The reverse-index key of an invalidation item, and those of the items
    the extension handles, in the order of the list. *)
Definition inval_key (db : Oid) (item : PlanInvalItem) : pgspRdependKey :=
  mk_pgspRdependKey db (cacheId item) (hashValue item).

Definition handled_keys (db : Oid) (items : list PlanInvalItem)
  : list pgspRdependKey :=
  map (inval_key db) (filter (fun i => negb (PGSP_ITEM_NOT_HANDLED i)) items).

(** The parts of the state [pgsp_entry_remove] does not write. *)
Record same_session (b b' : backend) : Prop := mk_same_session {
  same_held : held_lwlocks b' = held_lwlocks b;
  same_ro : pgsp_ro b' = pgsp_ro b;
  same_events : events b' = events b;
  same_dealloc : dealloc (pgsp b') = dealloc (pgsp b);
  same_stats_reset : stats_reset (pgsp b') = stats_reset (pgsp b);
  same_median : cur_median_usage (pgsp b') = cur_median_usage (pgsp b)
}.

(** [keeps P m]: whatever state [m] ends in, normally or not, satisfies [P]
    if the state it starts from does. *)
Definition keeps {A} (P : backend -> Prop) (m : M A) : Prop :=
  forall b, P b -> P (final_state (m b)).

(** Eviction by object. *)

(** The fingerprints [pgsp_evict_by_oid] finds for an object: what the
    reverse index lists under the key it builds. *)
Definition evicted_keys (h : host) (db : Oid) (classid : cache_id) (oid : Oid)
    (b : backend) : list pgspHashKey :=
  let o := match classid with
           | RELOID => oid
           | _ => GetSysCacheHashValue1 h classid oid
           end in
  match rdepend_find (pgsp_rdepend b) (mk_pgspRdependKey db classid o) with
  | Some rkeys => rkeys
  | None => []
  end.

(** The classes of object [pgsp_evict_by_oid] handles. *)
Definition handled_class (classid : cache_id) : bool :=
  match classid with OTHER_CACHE _ => false | _ => true end.

(** What one call of [evict_entry] does to the lockers, entry by entry. *)
Definition lockers_step (kind : pgspEvictionKind) (l : Z) : Z :=
  match kind with
  | PGSP_UNLOCK => uint32_wrap (l - 1)
  | PGSP_DISCARD_AND_LOCK => uint32_wrap (l + 1)
  | _ => l
  end.

(** A key with its lockers. *)
Definition key_lockers (e : pgspEntry) : pgspHashKey * Z := (key e, lockers e).

(** [lockers_step] on the lockers of the key [k]. *)
Definition bump (kind : pgspEvictionKind) (k : pgspHashKey)
    (p : pgspHashKey * Z) : pgspHashKey * Z :=
  (fst p, if key_eqb (fst p) k then lockers_step kind (snd p) else snd p).

(** The requests of a utility statement. *)

(** The key of a bucket of [oids_hash]. *)
Definition bucket_key (e : pgspOidsEntry) : pgspEvictionKind * cache_id :=
  (oe_kind e, oe_classid e).

(** There is a bucket of that kind. *)
Definition has_kind (kind : pgspEvictionKind) (c : pgspUtilityContext) : bool :=
  existsb (fun e => kind_eqb (oe_kind e) kind) (oids_hash c).

(** What the loops over [oids_hash] rely on: one bucket per kind and class,
    no bucket empty, no oid twice in a bucket, and the three flags telling
    which kinds of bucket there are. *)
Definition util_wf (c : pgspUtilityContext) : Prop :=
  NoDup (map bucket_key (oids_hash c))
  /\ Forall (fun e => oids e <> [] /\ NoDup (oids e)) (oids_hash c)
  /\ has_discard c = has_kind PGSP_DISCARD c
  /\ has_remove c = has_kind PGSP_EVICT c
  /\ has_lock c = has_kind PGSP_DISCARD_AND_LOCK c
  /\ has_kind PGSP_UNLOCK c = false.

(** Executor locks and dependencies. *)

(** The relation a call locks or unlocks. *)
Definition locked_relation (c : lock_call) : Oid :=
  match c with LockRelationOid o _ | UnlockRelationOid o _ => o end.

(** The relations a plan is registered under. *)
Definition plan_dependency (bc : build_config) (rte : RangeTblEntry) : bool :=
  match rtekind rte with
  | RTE_RELATION => true
  | RTE_SUBQUERY => (160000 <=? PG_VERSION_NUM bc) && OidIsValid (relid rte)
  | RTE_OTHER => false
  end.

(** REINDEX. *)

(** REINDEX SCHEMA, SYSTEM and DATABASE. *)
Definition reindexes_many (rdx : ReindexStmt) : bool :=
  match rdx_kind rdx with
  | REINDEX_OBJECT_INDEX | REINDEX_OBJECT_TABLE => false
  | _ => true
  end.

(** What the grammar builds: REINDEX INDEX and REINDEX TABLE come with a
    relation and without a name. *)
Definition reindex_from_grammar (rdx : ReindexStmt) : Prop :=
  reindexes_many rdx = false ->
  rdx_name rdx = None /\ rdx_relation rdx <> None.

(** The table behind the relation of a REINDEX INDEX or REINDEX TABLE, as the
    lookups of the branch find it. *)
Definition reindex_heapoid (RangeVarGetRelidExtended : RangeVar -> Oid)
    (IndexGetRelation : Oid -> Oid) (rdx : ReindexStmt) : Oid :=
  match rdx_relation rdx, rdx_kind rdx with
  | Some rv, REINDEX_OBJECT_TABLE => RangeVarGetRelidExtended rv
  | Some rv, REINDEX_OBJECT_INDEX =>
      let indoid := RangeVarGetRelidExtended rv in
      if OidIsValid indoid then IndexGetRelation indoid else InvalidOid
  | _, _ => InvalidOid
  end.

(** Memory accounting. *)

(** The segment behind a handle, with the size its owner records for it:
    nothing for [InvalidDsaPointer]. *)
Definition seg_if (p : dsa_pointer) (size : Z) : list (dsa_pointer * Z) :=
  if dsa_valid p then [(p, size)] else [].

(** The segments an entry holds, with the sizes [pgsp_entry_remove] and
    [pgsp_entry_alloc] give back for them. *)
Definition entry_segments (e : pgspEntry) : list (dsa_pointer * Z) :=
  seg_if (plan e) (len e)
  ++ seg_if (rels e) (num_rels e * sizeof_Oid)
  ++ seg_if (rdeps e) (num_rdeps e * sizeof_pgspRdependKey).


(** The live segments of the arena, with their real sizes. *)
Definition area_segments (a : dsa_area) : list (dsa_pointer * Z) :=
  map (fun s => (seg_ptr s, seg_size s)) (dsa_segments a).

Definition total_size (l : list (dsa_pointer * Z)) : Z :=
  fold_right Z.add 0 (map snd l).

(** The arena and [alloced_size] agree with the list [own] of the segments
    that are accounted for: the live segments are those of [own], with the
    recorded sizes; [alloced_size] is their total; [alloced_size] and the room
    left in the arena add up to [cap]. *)
Record accounted (cap : Z) (own : list (dsa_pointer * Z)) (b : backend)
  : Prop := mk_accounted {
  acc_wf : dsa_wf (pgsp_area b);
  acc_handles : NoDup (map seg_ptr (dsa_segments (pgsp_area b)));
  acc_live : Permutation own (area_segments (pgsp_area b));
  acc_size : alloced_size (pgsp b) = total_size own;
  acc_room : alloced_size (pgsp b) + dsa_room (pgsp_area b) = cap
}.

(** The counts of an entry (or of a context) tell whether it holds the
    arrays. *)
Definition counts_match (n_rels : Z) (p_rels : dsa_pointer)
    (n_rdeps : Z) (p_rdeps : dsa_pointer) : Prop :=
  (0 <? n_rels) = dsa_valid p_rels /\ (0 <? n_rdeps) = dsa_valid p_rdeps.


Definition context_counts (c : pgspDsaContext) : Prop :=
  counts_match (ctx_num_rels c) (ctx_rels c) (ctx_num_rdeps c) (ctx_rdeps c).




(** What [pgsp_entry_alloc] leaves untouched in an entry that exists. *)
Definition same_statistics (e e0 : pgspEntry) : Prop :=
  key e = key e0 /\ num_const e = num_const e0 /\ plantime e = plantime e0
  /\ generic_cost e = generic_cost e0 /\ discard e = discard e0
  /\ lockers e = lockers e0 /\ bypass e = bypass e0 /\ usage e = usage e0
  /\ total_custom_cost e = total_custom_cost e0
  /\ num_custom_plans e = num_custom_plans e0.

(** The entry holds the dependency arrays of the context. *)
Definition holds_arrays_of (e : pgspEntry) (c : pgspDsaContext) : Prop :=
  rels e = ctx_rels c /\ num_rels e = ctx_num_rels c
  /\ rdeps e = ctx_rdeps c /\ num_rdeps e = ctx_num_rdeps c.

(** The context holds nothing. *)
Definition context_released (c : pgspDsaContext) : Prop :=
  dsa_valid (ctx_plan c) = false /\ dsa_valid (ctx_rels c) = false
  /\ dsa_valid (ctx_rdeps c) = false.

(** The keys a list of relations leads to, in the order of the calls. *)
Definition evicted_keys_of (h : host) (db : Oid) (l : list Oid) (b : backend)
  : list pgspHashKey :=
  flat_map (fun oid => evicted_keys h db RELOID oid b) l.

(** The lock is free once the operation has returned. *)
Definition returns_with_lock_free {A} (o : outcome A) : Prop :=
  match o with
  | Done _ b' => held_lwlocks b' = []
  | Raised _ _ => True
  end.

(** The query walker. *)

Section WalkerNotions.
Import QueryWalker.
Variable bc : build_config.
Variable wh : walker_host.

(** A tree the walker has nothing against: no relation of any range table
    is rejected, and every function it calls may be executed. *)
Fixpoint cacheable (node : Node) : bool :=
  match node with
  | T_Null | T_Const _ | T_Param _ => true
  | T_Query rtable _ _ parts =>
      forallb (fun r => negb (rte_rejected wh r)) rtable
      && forallb cacheable parts
  | T_FuncExpr funcid parts => aclcheck_ok wh funcid && forallb cacheable parts
  | T_GroupingFunc _ parts | T_XmlExpr _ parts | T_Other parts =>
      forallb cacheable parts
  end.

(** The words a walk that goes to its end folds into the constid, in the
    order of the walk. *)
Definition rte_words (limitOption : Z) (r : WalkedRTE) : list Z :=
  (if PG_VERSION_NUM bc <? 140000
   then [if rte_inh r then 1 else 0] else [])
  ++ (if (130000 <=? PG_VERSION_NUM bc) && (PG_VERSION_NUM bc <? 140000)
      then [limitOption] else [])
  ++ map (hash_any wh) (rte_colnames r).

Definition resname_words (resnames : list (option String.string)) : list Z :=
  flat_map (fun n => match n with Some n => [hash_any wh n] | None => [] end)
           resnames.

Fixpoint hashed_words (node : Node) : list Z :=
  match node with
  | T_Null => []
  | T_Query rtable limitOption resnames parts =>
      flat_map (rte_words limitOption) rtable
      ++ resname_words resnames
      ++ flat_map hashed_words parts
  | T_Const text => [hash_any wh text]
  | T_FuncExpr _ parts | T_Other parts => flat_map hashed_words parts
  | T_GroupingFunc agglevelsup parts =>
      (if PG_VERSION_NUM bc <? 140000 then [agglevelsup] else [])
      ++ flat_map hashed_words parts
  | T_XmlExpr name parts =>
      match name with Some n => [hash_any wh n] | None => [] end
      ++ flat_map hashed_words parts
  | T_Param paramcollid => [paramcollid]
  end.

(** The number of Const nodes of a tree. *)
Fixpoint count_const (node : Node) : Z :=
  match node with
  | T_Const _ => 1
  | T_Null | T_Param _ => 0
  | T_Query _ _ _ parts | T_FuncExpr _ parts | T_GroupingFunc _ parts
  | T_XmlExpr _ parts | T_Other parts =>
      fold_right (fun n acc => count_const n + acc) 0 parts
  end.

(** The context after a walk that goes to its end over words [ws] and
    [n] constants. *)
Definition walked (ctx : pgspWalkerContext) (ws : list Z) (n : Z)
  : pgspWalkerContext :=
  mk_walker_context (fold_left (hash_combine wh) ws (wc_constid ctx))
                    (wc_num_const ctx + n).

End WalkerNotions.

(** Induction on a tree and on the parts of its nodes. *)
Section NodeInduction.
Import QueryWalker.
Variable P : Node -> Prop.
Hypothesis P_null : P T_Null.
Hypothesis P_query : forall rt lo rn parts,
  Forall P parts -> P (T_Query rt lo rn parts).
Hypothesis P_const : forall t, P (T_Const t).
Hypothesis P_func : forall f parts, Forall P parts -> P (T_FuncExpr f parts).
Hypothesis P_grouping : forall a parts,
  Forall P parts -> P (T_GroupingFunc a parts).
Hypothesis P_xml : forall n parts, Forall P parts -> P (T_XmlExpr n parts).
Hypothesis P_param : forall c, P (T_Param c).
Hypothesis P_other : forall parts, Forall P parts -> P (T_Other parts).

Fixpoint Node_nested_ind (node : Node) : P node :=
  let parts_ind :=
    fix parts_ind (parts : list Node) : Forall P parts :=
      match parts with
      | [] => Forall_nil P
      | n :: rest => Forall_cons n (Node_nested_ind n) (parts_ind rest)
      end in
  match node with
  | T_Null => P_null
  | T_Query rt lo rn parts => P_query rt lo rn parts (parts_ind parts)
  | T_Const t => P_const t
  | T_FuncExpr f parts => P_func f parts (parts_ind parts)
  | T_GroupingFunc a parts => P_grouping a parts (parts_ind parts)
  | T_XmlExpr n parts => P_xml n parts (parts_ind parts)
  | T_Param c => P_param c
  | T_Other parts => P_other parts (parts_ind parts)
  end.
End NodeInduction.


(* ================================================================= *)
(** ** Sample data for the examples *)

(** An entry that has seen two custom plans, of total cost 30, whose generic
    plan costs 10. *)
Definition sample_key : pgspHashKey := mk_pgspHashKey 0 1 42 7.

Definition sample_entry : pgspEntry :=
  mk_pgspEntry sample_key 21 1 0 0 0 0 0 12%float 10%float 0 0 0 1%float
               30%float 2.

Definition guc_defaults : gucs :=
  mk_gucs false false true 100 10 50 4 0x1.47ae147ae147bp-9%float false.

Definition guc_threshold (g : gucs) (t : Z) : gucs :=
  mk_gucs (pgsp_cache_all g) (pgsp_disable_plancache g) (pgsp_enabled g)
          (pgsp_max g) (pgsp_min_plantime g) (pgsp_rdepend_max g) t
          (cpu_operator_cost g) (compute_query_id_off g).

(** A plan over relation 100, of total cost 100, whose text takes 20 bytes. *)
Definition sample_stmt : PlannedStmt :=
  mk_stmt CMD_SELECT [mk_rte RTE_RELATION 100] [] 100%float 20 1.

(** A host on database 1 whose planner answers [sample_stmt] in exactly
    10 ms, and whose walker accepts every query with constid 7. *)
Definition sample_host : host :=
  mk_host 10 1 None (fun _ _ => sample_stmt) (fun _ => 10%float)
          (fun s _ => total_cost s) (fun _ => (false, 7, 0)) (fun _ c => c)
          (fun _ => []) (fun _ o => o) 1000.

Definition sample_query : Query := mk_query 42 false false 0.

Definition production_build : build_config := mk_build false 160000.
Definition assert_build : build_config := mk_build true 160000.

(** [pg_shared_plans.cache_regular_statements = on] *)
Definition guc_cache_all (g : gucs) : gucs :=
  mk_gucs true (pgsp_disable_plancache g) (pgsp_enabled g)
          (pgsp_max g) (pgsp_min_plantime g) (pgsp_rdepend_max g)
          (pgsp_threshold g) (cpu_operator_cost g) (compute_query_id_off g).

(** A backend attached to an empty cache, with [room] bytes of dsa memory. *)
Definition fresh_backend (room : Z) : backend :=
  mk_backend (pgsp_shmem_startup 0) [] (mk_area [] 1 room) [] [] false [].


(** A backend whose cache holds one entry for [sample_query]: the plan
    [stored] (21 bytes at handle 1), depending on relation 100 (array at
    handle 2), of generic cost 10, after [n] custom plans of total cost
    [25 * n]. *)
Definition cached_entry (n : Z) : pgspEntry :=
  mk_pgspEntry sample_key 21 1 1 2 0 0 0 12%float 10%float 0 0 0 1%float
               (PrimFloat.mul 25%float (Z2double n)) n.

Definition cached_backend (stored : PlannedStmt) (n : Z) : backend :=
  mk_backend
    (mk_pgspSharedState ASSUMED_MEDIAN_INIT 0 25 0 0)
    [cached_entry n]
    (mk_area [mk_segment 2 4 (OidArray [100]);
              mk_segment 1 21 (PlanBytes stored)] 3 975)
    [(mk_pgspRdependKey 1 RELOID 100, [sample_key])]
    [] false [].

(** A plan that references no relation. *)
Definition norel_stmt : PlannedStmt := mk_stmt CMD_SELECT [] [] 100%float 20 2.

(** A table of [n] entries of usage [u], for the queries 1 .. n, each with a
    stored plan of 21 bytes at the handle of its number. *)
Definition nth_entry (u : float) (i : Z) : pgspEntry :=
  mk_pgspEntry (mk_pgspHashKey 0 1 i 0) 21 i 0 0 0 0 0 12%float 10%float
               0 0 0 u 25%float 1.

Definition full_backend (n : nat) (u : float) : backend :=
  let ids := map Z.of_nat (seq 1 n) in
  mk_backend
    (mk_pgspSharedState ASSUMED_MEDIAN_INIT 0 (21 * Z.of_nat n) 0 0)
    (map (nth_entry u) ids)
    (mk_area (map (fun i => mk_segment i 21 (PlanBytes norel_stmt)) ids)
             (Z.of_nat n + 1) 10000)
    [] [] false [].

Definition guc_max (g : gucs) (m : Z) : gucs :=
  mk_gucs (pgsp_cache_all g) (pgsp_disable_plancache g) (pgsp_enabled g)
          m (pgsp_min_plantime g) (pgsp_rdepend_max g) (pgsp_threshold g)
          (cpu_operator_cost g) (compute_query_id_off g).

(** A host for the query walker: relation 900 is temporary, relation 901
    carries two rules, function 666 may not be executed; a string hashes to
    its length. *)
Definition sample_walker_host : QueryWalker.walker_host :=
  QueryWalker.mk_walker_host
    (fun a b => (31 * a + b) mod 2 ^ 32)
    (fun s => Z.of_nat (String.length s))
    (fun o => o =? 900)
    (fun o => if o =? 901 then Some 2 else None)
    (fun _ => false)
    (fun f => negb (f =? 666)).

(** [SELECT f(1) AS x, $1 FROM t AS a(c) WHERE ... IN (SELECT 22 ...)], as
    the walker sees it: relation 100 under an alias, a result name, two
    constants, a parameter and a sub-query. *)
Definition sample_tree : QueryWalker.Node :=
  QueryWalker.T_Query
    [QueryWalker.mk_walked_rte (mk_rte RTE_RELATION 100) true ["c"%string]]
    0 [Some "x"%string; None]
    [QueryWalker.T_Other
       [QueryWalker.T_FuncExpr 7 [QueryWalker.T_Const "1"%string];
        QueryWalker.T_Param 0];
     QueryWalker.T_Query [] 0 [] [QueryWalker.T_Const "22"%string];
     QueryWalker.T_Null].




(* ================================================================= *)
(** * Properties *)

(* ----------------------------------------------------------------- *)
(** ** Arbitration (section 4.E) *)

(** Below a threshold of 4 the sample entry's plan is not used and the caller
    is told to accumulate; at a threshold of 2 it is used. *)
Example choose_below_threshold :
  pgsp_choose_cache_plan guc_defaults sample_entry false
  = (false, true, set_usage sample_entry 13%float).
Proof. reflexivity. Qed.

Example choose_at_threshold :
  pgsp_choose_cache_plan (guc_threshold guc_defaults 2) sample_entry false
  = (true, false,
     set_counters sample_entry 1 13%float 30%float 2).
Proof. reflexivity. Qed.

(** C1: on a hit, below the threshold the cached plan is not used and the
    caller is told to accumulate the custom plan's cost; from the threshold
    on, the cached plan is used exactly when
    [generic_cost < total_custom_cost / num_custom_plans]. *)
Theorem choose_cache_plan_arbitration (g : gucs) (e : pgspEntry) (accum : bool) :
  let r := pgsp_choose_cache_plan g e accum in
  let use_cached := fst (fst r) in
  let accum_custom_stats := snd (fst r) in
  (num_custom_plans e < pgsp_threshold g ->
     use_cached = false /\ accum_custom_stats = true)
  /\ (pgsp_threshold g <= num_custom_plans e ->
        (use_cached = true <->
         PrimFloat.ltb (generic_cost e)
                       (PrimFloat.div (total_custom_cost e)
                                      (Z2double (num_custom_plans e))) = true)
        /\ accum_custom_stats = accum).
Proof.
  cbv zeta. unfold pgsp_choose_cache_plan. split; intros H.
  - apply Z.leb_gt in H. rewrite H. simpl. auto.
  - apply Z.leb_le in H. rewrite H.
    destruct (PrimFloat.ltb _ _); simpl; split; auto; split; congruence.
Qed.

(* ----------------------------------------------------------------- *)
(** ** Keys and the hash table *)

Lemma key_eqb_eq (k1 k2 : pgspHashKey) : key_eqb k1 k2 = true <-> k1 = k2.
Proof.
  unfold key_eqb, pgsp_match_fn. destruct k1, k2; simpl. split.
  - destruct (_ && _) eqn:E; [|discriminate]. intros _.
    repeat (apply andb_prop in E; destruct E as [E ?]).
    repeat match goal with H : (_ =? _) = true |- _ => apply Z.eqb_eq in H end.
    congruence.
  - intros H; injection H as -> -> -> ->. now rewrite !Z.eqb_refl.
Qed.

Lemma key_eqb_refl (k : pgspHashKey) : key_eqb k k = true.
Proof. now apply key_eqb_eq. Qed.

Lemma key_eqb_neq (k1 k2 : pgspHashKey) : key_eqb k1 k2 = false <-> k1 <> k2.
Proof.
  rewrite <- key_eqb_eq. destruct (key_eqb k1 k2); split; congruence.
Qed.

Lemma hash_find_key h k e : hash_find h k = Some e -> key e = k.
Proof.
  unfold hash_find. intros H. apply find_some in H. now apply key_eqb_eq.
Qed.

Lemma hash_find_In h k e : hash_find h k = Some e -> In e h.
Proof. unfold hash_find. intros H. now apply find_some in H. Qed.

Lemma hash_update_length h k f : length (hash_update h k f) = length h.
Proof. apply length_map. Qed.

Lemma hash_update_keys h k e' :
  key e' = k -> map key (hash_update h k (fun _ => e')) = map key h.
Proof.
  intros <-. unfold hash_update. rewrite map_map. apply map_ext_in.
  intros a _. destruct (key_eqb (key a) (key e')) eqn:E; [|reflexivity].
  symmetry. now apply key_eqb_eq.
Qed.

Lemma hash_find_update h k e e' :
  hash_find h k = Some e -> key e' = k ->
  hash_find (hash_update h k (fun _ => e')) k = Some e'.
Proof.
  unfold hash_find, hash_update. intros H <-.
  induction h as [|a h IH]; simpl in *; [discriminate|].
  destruct (key_eqb (key a) (key e')) eqn:E.
  - now rewrite key_eqb_refl.
  - rewrite E. auto.
Qed.

Lemma hash_remove_length_le h k : (length (hash_remove h k) <= length h)%nat.
Proof. apply filter_length_le. Qed.

(* ----------------------------------------------------------------- *)
(** ** Requests the hook does not handle *)

(** C10, as the code has it: a request with a zero queryid, or that carries
    a utility statement, or with no bound parameters unless the build checks
    assertions and [cache_regular_statements] is on, goes straight to the
    host planner; the plan returned is the host's and the backend state
    (table, reverse dependencies, counters, lock) is unchanged. *)
Theorem planner_hook_falls_through (bc : build_config) (g : gucs) (h : host)
    (parse : Query) (boundParams : option ParamListInfo) (b : backend) :
  (is_null boundParams && negb (USE_ASSERT_CHECKING bc && pgsp_cache_all g))
  || (queryId parse =? 0) || utilityStmt parse = true ->
  pgsp_planner_hook bc g h parse boundParams b
  = Done (host_planner h parse boundParams) b.
Proof.
  intros H. unfold pgsp_planner_hook.
  destruct (hook_bypassed bc g parse boundParams) eqn:Hb; [reflexivity|].
  destruct (utilityStmt parse); [reflexivity|].
  exfalso. unfold hook_bypassed in Hb.
  rewrite orb_false_r in H.
  destruct (queryId parse =? 0); [now rewrite !orb_true_r in Hb|].
  rewrite orb_false_r in H. apply andb_prop in H as [Hn Hc].
  rewrite Hn in Hb.
  destruct (USE_ASSERT_CHECKING bc), (pgsp_cache_all g); simpl in *;
    try discriminate; now rewrite !orb_true_r in Hb.
Qed.

Lemma planner_hook_falls_through_witness :
  pgsp_planner_hook production_build guc_defaults sample_host sample_query
                    None (fresh_backend 1000)
  = Done sample_stmt (fresh_backend 1000).
Proof.
  apply (planner_hook_falls_through production_build guc_defaults sample_host
           sample_query None (fresh_backend 1000)).
  reflexivity.
Defined.

(** C10 as stated fails in a build that checks assertions, with
    [cache_regular_statements] on: a request without bound parameters is
    looked up, planned, and its plan saved (the assertions on that path
    hold). *)
Lemma no_bound_params_can_reach_the_cache :
  is_null (@None ParamListInfo) = true
  /\ pgsp_hash (fresh_backend 1000) = []
  /\ map key
       (pgsp_hash
          (final_state
             (pgsp_planner_hook assert_build (guc_cache_all guc_defaults)
                sample_host sample_query None (fresh_backend 1000))))
     = [mk_pgspHashKey 0 1 42 7]
  /\ alloced_size
       (pgsp
          (final_state
             (pgsp_planner_hook assert_build (guc_cache_all guc_defaults)
                sample_host sample_query None (fresh_backend 1000))))
     = 25.
Proof. repeat split; vm_compute; reflexivity. Qed.

(* ----------------------------------------------------------------- *)
(** ** The hook on a miss and on a hit *)






(* ----------------------------------------------------------------- *)
(** ** The cost of a returned cached plan (section 4.E) *)





(* ----------------------------------------------------------------- *)
(** ** When a plan is saved (section 3, lifecycle) *)






(* ----------------------------------------------------------------- *)
(** ** What removing entries does to the table and to the counters *)

Lemma free_dsmem_frame p size b :
  pgsp_hash (free_dsmem p size b) = pgsp_hash b
  /\ pgsp_rdepend (free_dsmem p size b) = pgsp_rdepend b
  /\ held_lwlocks (free_dsmem p size b) = held_lwlocks b
  /\ pgsp_ro (free_dsmem p size b) = pgsp_ro b
  /\ events (free_dsmem p size b) = events b
  /\ dealloc (pgsp (free_dsmem p size b)) = dealloc (pgsp b)
  /\ stats_reset (pgsp (free_dsmem p size b)) = stats_reset (pgsp b)
  /\ cur_median_usage (pgsp (free_dsmem p size b)) = cur_median_usage (pgsp b).
Proof. repeat split. Qed.

Lemma same_session_refl b : same_session b b.
Proof. now constructor. Qed.

Lemma same_session_trans b1 b2 b3 :
  same_session b1 b2 -> same_session b2 b3 -> same_session b1 b3.
Proof. intros [] []. constructor; congruence. Qed.

Lemma entry_remove_hash e b :
  pgsp_hash (pgsp_entry_remove e b) = hash_remove (pgsp_hash b) (key e).
Proof.
  unfold pgsp_entry_remove.
  destruct (dsa_valid (plan e)), (0 <? num_rels e), (0 <? num_rdeps e);
    reflexivity.
Qed.

Lemma entry_remove_session e b : same_session b (pgsp_entry_remove e b).
Proof.
  unfold pgsp_entry_remove.
  destruct (dsa_valid (plan e)), (0 <? num_rels e), (0 <? num_rdeps e);
    now constructor.
Qed.

Lemma fold_entry_remove_hash l b :
  pgsp_hash (fold_left (fun b e => pgsp_entry_remove e b) l b)
  = fold_left (fun h e => hash_remove h (key e)) l (pgsp_hash b).
Proof.
  revert b. induction l as [|e l IH]; intros b; simpl; [reflexivity|].
  now rewrite IH, entry_remove_hash.
Qed.

Lemma fold_entry_remove_session l b :
  same_session b (fold_left (fun b e => pgsp_entry_remove e b) l b).
Proof.
  revert b. induction l as [|e l IH]; intros b; simpl.
  - apply same_session_refl.
  - eapply same_session_trans; [apply entry_remove_session|apply IH].
Qed.

Lemma In_hash_remove e h k :
  In e (hash_remove h k) <-> In e h /\ key e <> k.
Proof.
  unfold hash_remove. rewrite filter_In, negb_true_iff, key_eqb_neq. tauto.
Qed.

Lemma In_fold_hash_remove l h e :
  In e (fold_left (fun h t => hash_remove h (key t)) l h)
  <-> In e h /\ Forall (fun t => key t <> key e) l.
Proof.
  revert h. induction l as [|t l IH]; intros h; simpl.
  - split; [intros H; split; [exact H|constructor]|tauto].
  - rewrite IH, In_hash_remove. split.
    + intros [[Hi Hn] Hf]. split; [exact Hi|]. constructor; congruence.
    + intros [Hi Hf]. inversion Hf; subst. repeat split; congruence.
Qed.

Lemma fold_hash_remove_length_le l h :
  (length (fold_left (fun h t => hash_remove h (key t)) l h) <= length h)%nat.
Proof.
  revert h. induction l as [|t l IH]; intros h; simpl; [lia|].
  etransitivity; [apply IH|apply hash_remove_length_le].
Qed.

(* ----------------------------------------------------------------- *)
(** ** Reset *)

Lemma reset_matches_spec u d q e :
  reset_matches u d q e = true
  <-> ((u <> 0 -> userid (key e) = u)
       /\ (d <> 0 -> dbid (key e) = d)
       /\ (q <> 0 -> queryid (key e) = q)).
Proof.
  unfold reset_matches. rewrite !andb_true_iff, !orb_true_iff, !Z.eqb_eq.
  split.
  - intros [[Hu Hd] Hq]. repeat split; intros; intuition congruence.
  - intros (Hu & Hd & Hq).
    destruct (Z.eq_dec u 0), (Z.eq_dec d 0), (Z.eq_dec q 0); intuition.
Qed.

Lemma reset_targets_In u d q h e :
  In e (reset_targets u d q h) <-> In e h /\ reset_matches u d q e = true.
Proof.
  unfold reset_targets.
  destruct (negb (u =? 0) || negb (d =? 0) || negb (q =? 0)) eqn:E.
  - apply filter_In.
  - apply orb_false_elim in E as [E Hq]. apply orb_false_elim in E as [Hu Hd].
    apply negb_false_iff in Hu, Hd, Hq. unfold reset_matches.
    rewrite Hu, Hd, Hq. simpl. tauto.
Qed.

(** C8: [reset(0,0,0)] removes every entry, sets [dealloc] to 0 and
    [stats_reset] to the current time; in general a reset removes exactly the
    entries whose key matches every non-zero argument. *)
Theorem reset_removes_matching_entries (h : host) (u d : Oid) (q : Z)
    (b : backend) :
  held_lwlocks b = [] ->
  exists b',
    pg_shared_plans_reset_internal h u d q b = Done tt b'
    /\ (forall e,
         In e (pgsp_hash b') <->
         In e (pgsp_hash b)
         /\ ~ ((u <> 0 -> userid (key e) = u)
               /\ (d <> 0 -> dbid (key e) = d)
               /\ (q <> 0 -> queryid (key e) = q)))
    /\ (u = 0 -> d = 0 -> q = 0 ->
        pgsp_hash b' = []
        /\ dealloc (pgsp b') = 0
        /\ stats_reset (pgsp b') = GetCurrentTimestamp h).
Proof.
  intros Hl. unfold pg_shared_plans_reset_internal.
  unfold bind, modify, LWLockAcquire, LWLockRelease. rewrite Hl.
  cbn [held_lwlocks emit set_held pgsp_hash].
  set (b1 := emit (EvAcquire LW_EXCLUSIVE) (set_held b [LW_EXCLUSIVE])).
  set (targets := reset_targets u d q (pgsp_hash b)).
  set (b2 := fold_left (fun b e => pgsp_entry_remove e b) targets b1).
  assert (Hh : forall e, In e (pgsp_hash b2) <->
                 In e (pgsp_hash b) /\ reset_matches u d q e <> true).
  { intros e. unfold b2. rewrite fold_entry_remove_hash, In_fold_hash_remove.
    cbn [b1 pgsp_hash emit set_held]. split.
    - intros [Hi Hf]. split; [exact Hi|]. intros Hm.
      rewrite Forall_forall in Hf. apply (Hf e); [|reflexivity].
      apply reset_targets_In. auto.
    - intros [Hi Hn]. split; [exact Hi|]. apply Forall_forall.
      intros t Ht Hk. apply reset_targets_In in Ht as [_ Ht].
      apply Hn. unfold reset_matches in *. now rewrite <- Hk. }
  assert (Hall : u = 0 -> d = 0 -> q = 0 -> pgsp_hash b2 = []).
  { intros -> -> ->. destruct (pgsp_hash b2) as [|e l] eqn:E; [reflexivity|].
    exfalso. destruct (Hh e) as [Hx _].
    destruct (Hx (or_introl eq_refl)) as [_ Hn]. now apply Hn. }
  match goal with |- context [if ?c then ?x else ?y] =>
    set (b3 := if c then x else y) end.
  assert (Hb3 : pgsp_hash b3 = pgsp_hash b2)
    by (unfold b3; match goal with |- context [if ?c then _ else _] =>
          destruct c end; reflexivity).
  assert (Hheld : held_lwlocks b3 = [LW_EXCLUSIVE]).
  { pose proof (same_held _ _ (fold_entry_remove_session targets b1)) as Hs.
    fold b2 in Hs. unfold b3.
    match goal with |- context [if ?c then _ else _] => destruct c end;
      cbn [held_lwlocks set_pgsp]; rewrite Hs; reflexivity. }
  rewrite Hheld.
  eexists. split; [reflexivity|]. cbn [pgsp_hash emit set_held]. split.
  - intros e. rewrite Hb3, Hh, <- reset_matches_spec. tauto.
  - intros Hu Hd Hq. rewrite Hb3. split; [auto|].
    unfold b3, targets. subst u d q. unfold reset_targets. simpl.
    unfold hash_get_num_entries. rewrite Z.eqb_refl. auto.
Qed.

Lemma reset_removes_matching_entries_witness :
  exists b',
    pg_shared_plans_reset_internal sample_host 0 0 0
      (cached_backend sample_stmt 4) = Done tt b'
    /\ (forall e,
         In e (pgsp_hash b') <->
         In e (pgsp_hash (cached_backend sample_stmt 4))
         /\ ~ ((0 <> 0 -> userid (key e) = 0)
               /\ (0 <> 0 -> dbid (key e) = 0)
               /\ (0 <> 0 -> queryid (key e) = 0)))
    /\ (0 = 0 -> 0 = 0 -> 0 = 0 ->
        pgsp_hash b' = []
        /\ dealloc (pgsp b') = 0
        /\ stats_reset (pgsp b') = GetCurrentTimestamp sample_host).
Proof.
  apply (reset_removes_matching_entries sample_host 0 0 0
           (cached_backend sample_stmt 4)).
  reflexivity.
Defined.

(* ----------------------------------------------------------------- *)
(** ** Sorting by usage *)

Lemma qsort_insert_perm e l : Permutation (qsort_insert e l) (e :: l).
Proof.
  induction l as [|x l IH]; simpl; [reflexivity|].
  destruct (entry_cmp e x <=? 0); [reflexivity|].
  rewrite IH. apply perm_swap.
Qed.

Lemma qsort_perm l : Permutation (qsort l) l.
Proof.
  induction l as [|e l IH]; simpl; [reflexivity|].
  rewrite qsort_insert_perm. now constructor.
Qed.

Lemma qsort_length l : length (qsort l) = length l.
Proof. apply Permutation_length, qsort_perm. Qed.

(** Where [entry_cmp] answers "greater", it answers "less" the other way
    round. *)
Lemma entry_cmp_gt_flip a b : 0 < entry_cmp a b -> entry_cmp b a <= 0.
Proof.
  unfold entry_cmp, double_gt.
  destruct (PrimFloat.ltb (usage a) (usage b)); [lia|].
  destruct (PrimFloat.ltb (usage b) (usage a)); lia.
Qed.

Lemma qsort_insert_hd e x l :
  usage_ascending x e -> HdRel usage_ascending x l ->
  HdRel usage_ascending x (qsort_insert e l).
Proof.
  intros Hx Hl. destruct l as [|y l]; simpl; [now constructor|].
  destruct (entry_cmp e y <=? 0); constructor; [exact Hx|].
  now apply HdRel_inv in Hl.
Qed.

Lemma qsort_insert_sorted e l :
  Sorted usage_ascending l -> Sorted usage_ascending (qsort_insert e l).
Proof.
  induction 1 as [|x l Hs IH Hh]; simpl.
  - repeat constructor.
  - destruct (entry_cmp e x <=? 0) eqn:E.
    + constructor; [now constructor|]. constructor. now apply Z.leb_le.
    + constructor; [exact IH|]. apply qsort_insert_hd; [|exact Hh].
      apply entry_cmp_gt_flip. now apply Z.leb_gt in E.
Qed.

Lemma qsort_sorted l : Sorted usage_ascending (qsort l).
Proof.
  induction l as [|e l IH]; simpl; [constructor|].
  now apply qsort_insert_sorted.
Qed.

(* ----------------------------------------------------------------- *)
(** ** One eviction pass *)

Lemma decay_key e : key (decay e) = key e.
Proof. reflexivity. Qed.

Lemma map_decay_keys h : map key (map decay h) = map key h.
Proof. rewrite map_map. now apply map_ext. Qed.

Lemma nvictims_spec i :
  0 <= i -> nvictims i = Z.min i (Z.max 10 (i * 5 / 100)).
Proof.
  intros Hi. unfold nvictims, USAGE_DEALLOC_PERCENT.
  rewrite Z.quot_div_nonneg by lia. lia.
Qed.

Lemma nvictims_bounds i : 0 <= i -> 0 <= nvictims i <= i.
Proof.
  intros Hi. rewrite nvictims_spec by lia.
  assert (0 <= i * 5 / 100) by (apply Z.div_pos; lia). lia.
Qed.

Lemma nvictims_pos i : 1 <= i -> 1 <= nvictims i.
Proof. intros Hi. rewrite nvictims_spec by lia. lia. Qed.

Lemma In_firstn {A} (n : nat) (l : list A) x : In x (firstn n l) -> In x l.
Proof.
  intros H. rewrite <- (firstn_skipn n l). apply in_or_app. now left.
Qed.

Lemma victims_incl d : incl (victims d) d.
Proof.
  unfold victims. intros e He. apply In_firstn in He.
  eapply Permutation_in; [apply qsort_perm|exact He].
Qed.

Lemma victims_length d :
  Z.of_nat (length (victims d)) = nvictims (Z.of_nat (length d)).
Proof.
  unfold victims. pose proof (nvictims_bounds (Z.of_nat (length d))).
  rewrite length_firstn, qsort_length. lia.
Qed.

Lemma NoDup_firstn_keys {A} (n : nat) (l : list A) :
  NoDup l -> NoDup (firstn n l).
Proof.
  intros H. rewrite <- (firstn_skipn n l) in H.
  now apply NoDup_app_remove_r in H.
Qed.

Lemma victims_keys_NoDup d : NoDup (map key d) -> NoDup (map key (victims d)).
Proof.
  intros H. unfold victims. rewrite <- firstn_map. apply NoDup_firstn_keys.
  eapply Permutation_NoDup; [|exact H].
  apply Permutation_map, Permutation_sym, qsort_perm.
Qed.

Lemma key_injective_on h a b :
  NoDup (map key h) -> In a h -> In b h -> key a = key b -> a = b.
Proof.
  induction h as [|x h IH]; simpl; [tauto|]. intros Hn Ha Hb Hk.
  inversion Hn as [|? ? Hx Hn']; subst.
  destruct Ha as [->|Ha], Hb as [->|Hb]; auto.
  - exfalso. apply Hx. rewrite Hk. now apply in_map.
  - exfalso. apply Hx. rewrite <- Hk. now apply in_map.
Qed.

Lemma hash_remove_In_lt h e :
  In e h -> (length (hash_remove h (key e)) < length h)%nat.
Proof.
  unfold hash_remove. induction h as [|x h IH]; simpl; [tauto|].
  intros [->|Hi].
  - rewrite key_eqb_refl. simpl.
    pose proof (filter_length_le (fun e0 => negb (key_eqb (key e0) (key e))) h).
    lia.
  - specialize (IH Hi). destruct (negb _); simpl; lia.
Qed.

Lemma hash_remove_keys_NoDup h k :
  NoDup (map key h) -> NoDup (map key (hash_remove h k)).
Proof.
  unfold hash_remove. induction h as [|x h IH]; simpl; [auto|].
  intros Hn. inversion Hn as [|? ? Hx Hn']; subst.
  destruct (negb _); simpl; auto. constructor; auto.
  intros Hi. apply Hx. apply in_map_iff in Hi as (y & Hy & Hi).
  apply filter_In in Hi as [Hi _]. apply in_map_iff. eauto.
Qed.

Lemma hash_remove_length_NoDup h e :
  NoDup (map key h) -> In e h ->
  length (hash_remove h (key e)) = (length h - 1)%nat.
Proof.
  unfold hash_remove. induction h as [|x h IH]; simpl; [tauto|].
  intros Hn Hi. inversion Hn as [|? ? Hx Hn']; subst.
  destruct (key_eqb (key x) (key e)) eqn:E; simpl.
  - apply key_eqb_eq in E.
    rewrite forallb_filter_id; [lia|].
    apply forallb_forall. intros y Hy. apply negb_true_iff, key_eqb_neq.
    intros Hk. apply Hx. rewrite E, <- Hk. now apply in_map.
  - destruct Hi as [->|Hi]; [now rewrite key_eqb_refl in E|].
    rewrite IH by auto. destruct h; [destruct Hi|simpl; lia].
Qed.

Lemma fold_hash_remove_length_NoDup l h :
  NoDup (map key h) -> NoDup (map key l) -> incl l h ->
  length (fold_left (fun h t => hash_remove h (key t)) l h)
  = (length h - length l)%nat.
Proof.
  revert h. induction l as [|t l IH]; intros h Hh Hl Hi; simpl; [lia|].
  inversion Hl as [|? ? Ht Hl']; subst.
  rewrite IH; auto.
  - rewrite hash_remove_length_NoDup; auto; [lia|]. apply Hi. now left.
  - now apply hash_remove_keys_NoDup.
  - intros x Hx. apply In_hash_remove. split; [apply Hi; now right|].
    intros Hk. apply Ht. rewrite <- Hk. now apply in_map.
Qed.

Lemma entry_dealloc_victims b :
  firstn (Z.to_nat (nvictims (Z.of_nat (length (qsort (map decay (pgsp_hash b)))))))
         (qsort (map decay (pgsp_hash b)))
  = victims (map decay (pgsp_hash b)).
Proof. unfold victims. now rewrite qsort_length. Qed.

(** The state in which an eviction pass starts zapping entries: the table
    decayed, the median recorded. *)
Lemma entry_dealloc_unfold b :
  exists b2,
    pgsp_hash b2 = map decay (pgsp_hash b)
    /\ pgsp_area b2 = pgsp_area b
    /\ pgsp_rdepend b2 = pgsp_rdepend b
    /\ alloced_size (pgsp b2) = alloced_size (pgsp b)
    /\ dealloc (pgsp b2) = dealloc (pgsp b)
    /\ stats_reset (pgsp b2) = stats_reset (pgsp b)
    /\ held_lwlocks b2 = held_lwlocks b
    /\ pgsp_ro b2 = pgsp_ro b
    /\ events b2 = events b
    /\ pgsp_entry_dealloc b
       = (let b3 := fold_left (fun b e => pgsp_entry_remove e b)
                              (victims (map decay (pgsp_hash b))) b2 in
          set_pgsp b3 (set_dealloc (pgsp b3) (dealloc (pgsp b3) + 1)
                                   (stats_reset (pgsp b3)))).
Proof.
  unfold pgsp_entry_dealloc. rewrite entry_dealloc_victims.
  match goal with
  | |- context [fold_left _ (victims _) ?s] => exists s
  end.
  repeat split;
    destruct (0 <? Z.of_nat (length (qsort (map decay (pgsp_hash b)))));
    try destruct (nth_error _ _); reflexivity.
Qed.

Lemma entry_dealloc_hash b :
  pgsp_hash (pgsp_entry_dealloc b)
  = fold_left (fun h t => hash_remove h (key t))
              (victims (map decay (pgsp_hash b))) (map decay (pgsp_hash b)).
Proof.
  destruct (entry_dealloc_unfold b)
    as (b2 & Hh & _ & _ & _ & _ & _ & _ & _ & _ & ->).
  cbv zeta. cbn [pgsp_hash set_pgsp]. now rewrite fold_entry_remove_hash, Hh.
Qed.

Lemma entry_dealloc_session b :
  held_lwlocks (pgsp_entry_dealloc b) = held_lwlocks b
  /\ pgsp_ro (pgsp_entry_dealloc b) = pgsp_ro b
  /\ events (pgsp_entry_dealloc b) = events b
  /\ dealloc (pgsp (pgsp_entry_dealloc b)) = dealloc (pgsp b) + 1.
Proof.
  destruct (entry_dealloc_unfold b)
    as (b2 & _ & _ & _ & _ & Hd & _ & Hl & Hr & He & ->).
  cbv zeta.
  destruct (fold_entry_remove_session (victims (map decay (pgsp_hash b))) b2)
    as [Hl' Hr' He' Hd' _ _].
  cbn [held_lwlocks pgsp_ro events pgsp dealloc set_pgsp set_dealloc].
  repeat split; congruence.
Qed.

(** C5, as the code has it: a pass over a table of N entries multiplies every
    usage by 0.99, sorts the entries by ascending usage, removes through
    [pgsp_entry_remove] the first [min(N, max(10, floor(5 * N / 100)))] of
    them and no other, and adds one to [dealloc]. *)
Theorem entry_dealloc_pass (b : backend) :
  NoDup (map key (pgsp_hash b)) ->
  let N := Z.of_nat (length (pgsp_hash b)) in
  let decayed :=
    map (fun e => set_usage e (PrimFloat.mul (usage e) USAGE_DECREASE_FACTOR))
        (pgsp_hash b) in
  let sorted := qsort decayed in
  let zapped := firstn (Z.to_nat (Z.min N (Z.max 10 (N * 5 / 100)))) sorted in
  Permutation sorted decayed
  /\ Sorted usage_ascending sorted
  /\ Z.of_nat (length zapped) = Z.min N (Z.max 10 (N * 5 / 100))
  /\ (forall e, In e (pgsp_hash (pgsp_entry_dealloc b))
                <-> In e decayed /\ ~ In e zapped)
  /\ Z.of_nat (length (pgsp_hash (pgsp_entry_dealloc b)))
     = N - Z.min N (Z.max 10 (N * 5 / 100))
  /\ (exists b2,
        pgsp_hash b2 = decayed /\ pgsp_area b2 = pgsp_area b
        /\ pgsp_rdepend b2 = pgsp_rdepend b
        /\ alloced_size (pgsp b2) = alloced_size (pgsp b)
        /\ let b3 := fold_left (fun b e => pgsp_entry_remove e b) zapped b2 in
           pgsp_area (pgsp_entry_dealloc b) = pgsp_area b3
           /\ pgsp_rdepend (pgsp_entry_dealloc b) = pgsp_rdepend b3
           /\ alloced_size (pgsp (pgsp_entry_dealloc b)) = alloced_size (pgsp b3))
  /\ dealloc (pgsp (pgsp_entry_dealloc b)) = dealloc (pgsp b) + 1.
Proof.
  intros Hn. cbv zeta. fold decay.
  set (d := map decay (pgsp_hash b)).
  assert (Hlen : length d = length (pgsp_hash b)) by apply length_map.
  assert (Hz : firstn (Z.to_nat (Z.min (Z.of_nat (length (pgsp_hash b)))
                  (Z.max 10 (Z.of_nat (length (pgsp_hash b)) * 5 / 100))))
                 (qsort d) = victims d).
  { unfold victims. rewrite Hlen, nvictims_spec by lia. reflexivity. }
  rewrite Hz.
  assert (Hd : NoDup (map key d)) by (unfold d; now rewrite map_decay_keys).
  assert (Hvl : Z.of_nat (length (victims d))
                = Z.min (Z.of_nat (length (pgsp_hash b)))
                    (Z.max 10 (Z.of_nat (length (pgsp_hash b)) * 5 / 100))).
  { rewrite victims_length, Hlen, nvictims_spec by lia. reflexivity. }
  split; [apply qsort_perm|]. split; [apply qsort_sorted|].
  split; [exact Hvl|]. split; [|split; [|split]].
  - intros e. rewrite entry_dealloc_hash. fold d.
    rewrite In_fold_hash_remove. split; intros [Hi Hf]; split; auto.
    + intros Hv. rewrite Forall_forall in Hf. now apply (Hf e).
    + apply Forall_forall. intros t Ht Hk. apply Hf.
      rewrite <- (key_injective_on d t e Hd); auto. now apply victims_incl.
  - rewrite entry_dealloc_hash. fold d.
    rewrite fold_hash_remove_length_NoDup;
      auto using victims_keys_NoDup, victims_incl.
    pose proof (nvictims_bounds (Z.of_nat (length d))).
    rewrite victims_length in Hvl. rewrite <- Hvl, <- Hlen.
    rewrite Nat2Z.inj_sub, victims_length; [reflexivity|].
    apply Nat2Z.inj_le. rewrite victims_length. lia.
  - destruct (entry_dealloc_unfold b)
      as (b2 & Hh & Ha & Hr & Hs & _ & _ & _ & _ & _ & ->).
    exists b2. fold d in Hh |- *. cbv zeta. repeat split; auto.
  - apply entry_dealloc_session.
Qed.

Lemma entry_dealloc_pass_witness :
  let b := full_backend 5 1%float in
  let N := Z.of_nat (length (pgsp_hash b)) in
  let decayed :=
    map (fun e => set_usage e (PrimFloat.mul (usage e) USAGE_DECREASE_FACTOR))
        (pgsp_hash b) in
  let sorted := qsort decayed in
  let zapped := firstn (Z.to_nat (Z.min N (Z.max 10 (N * 5 / 100)))) sorted in
  Permutation sorted decayed
  /\ Sorted usage_ascending sorted
  /\ Z.of_nat (length zapped) = Z.min N (Z.max 10 (N * 5 / 100))
  /\ (forall e, In e (pgsp_hash (pgsp_entry_dealloc b))
                <-> In e decayed /\ ~ In e zapped)
  /\ Z.of_nat (length (pgsp_hash (pgsp_entry_dealloc b)))
     = N - Z.min N (Z.max 10 (N * 5 / 100))
  /\ (exists b2,
        pgsp_hash b2 = decayed /\ pgsp_area b2 = pgsp_area b
        /\ pgsp_rdepend b2 = pgsp_rdepend b
        /\ alloced_size (pgsp b2) = alloced_size (pgsp b)
        /\ let b3 := fold_left (fun b e => pgsp_entry_remove e b) zapped b2 in
           pgsp_area (pgsp_entry_dealloc b) = pgsp_area b3
           /\ pgsp_rdepend (pgsp_entry_dealloc b) = pgsp_rdepend b3
           /\ alloced_size (pgsp (pgsp_entry_dealloc b)) = alloced_size (pgsp b3))
  /\ dealloc (pgsp (pgsp_entry_dealloc b)) = dealloc (pgsp b) + 1.
Proof.
  apply (entry_dealloc_pass (full_backend 5 1%float)).
  vm_compute. repeat constructor; simpl; intuition discriminate.
Defined.

(** C5 as stated fails on the count: of 201 entries a pass removes 10
    (the integer quotient of 1005 by 100), not [max(10, ceil(10.05)) = 11];
    and of 5 entries it removes the 5 there are, not 10. *)
Lemma eviction_count_is_not_the_ceiling :
  specified_victims 201 = 11
  /\ length (pgsp_hash (full_backend 201 1%float)) = 201%nat
  /\ length (pgsp_hash (pgsp_entry_dealloc (full_backend 201 1%float))) = 191%nat
  /\ specified_victims 5 = 10
  /\ length (pgsp_hash (full_backend 5 1%float)) = 5%nat
  /\ pgsp_hash (pgsp_entry_dealloc (full_backend 5 1%float)) = [].
Proof. repeat split; vm_compute; reflexivity. Qed.

(* ----------------------------------------------------------------- *)
(** ** Making room, and the usage of a new entry *)

Lemma entry_dealloc_shrinks b :
  pgsp_hash b <> [] ->
  (length (pgsp_hash (pgsp_entry_dealloc b)) < length (pgsp_hash b))%nat.
Proof.
  intros Hne. rewrite entry_dealloc_hash.
  set (d := map decay (pgsp_hash b)).
  assert (Hlen : length d = length (pgsp_hash b)) by apply length_map.
  pose proof (victims_length d) as Hv. pose proof (victims_incl d) as Hi.
  assert (1 <= Z.of_nat (length d)).
  { rewrite Hlen. destruct (pgsp_hash b); [congruence|simpl; lia]. }
  pose proof (nvictims_pos (Z.of_nat (length d)) ltac:(lia)).
  destruct (victims d) as [|v vs]; [simpl in Hv; lia|]. simpl.
  eapply Nat.le_lt_trans; [apply fold_hash_remove_length_le|].
  rewrite <- Hlen. apply hash_remove_In_lt, Hi. now left.
Qed.

Lemma entry_dealloc_length_le b :
  (length (pgsp_hash (pgsp_entry_dealloc b)) <= length (pgsp_hash b))%nat.
Proof.
  rewrite entry_dealloc_hash.
  etransitivity; [apply fold_hash_remove_length_le|]. now rewrite length_map.
Qed.

(** The loop that makes room ends, with room. *)
Lemma make_space_total (g : gucs) (fuel : nat) (b : backend) :
  0 < pgsp_max g ->
  (length (pgsp_hash b) < fuel)%nat ->
  exists b1,
    make_space fuel g b = Some b1
    /\ hash_get_num_entries (pgsp_hash b1) < pgsp_max g
    /\ held_lwlocks b1 = held_lwlocks b
    /\ pgsp_ro b1 = pgsp_ro b
    /\ events b1 = events b.
Proof.
  intros Hmax. revert b. induction fuel as [|fuel IH]; intros b Hf; [lia|].
  simpl. destruct (pgsp_max g <=? hash_get_num_entries (pgsp_hash b)) eqn:E.
  - apply Z.leb_le in E. unfold hash_get_num_entries in E.
    assert (Hne : pgsp_hash b <> [])
      by (destruct (pgsp_hash b); [simpl in E; lia|discriminate]).
    pose proof (entry_dealloc_shrinks b Hne).
    destruct (IH (pgsp_entry_dealloc b) ltac:(lia))
      as (b1 & -> & Hc & Hl & Hr & He).
    destruct (entry_dealloc_session b) as (Hl' & Hr' & He' & _).
    exists b1. repeat split; congruence.
  - apply Z.leb_gt in E. exists b. auto.
Qed.

Lemma entry_dealloc_median b :
  pgsp_hash b <> [] ->
  exists m,
    nth_error (qsort (map decay (pgsp_hash b)))
              (Z.to_nat (Z.of_nat (length (pgsp_hash b)) / 2)) = Some m
    /\ cur_median_usage (pgsp (pgsp_entry_dealloc b)) = usage m.
Proof.
  intros Hne. unfold pgsp_entry_dealloc.
  set (entries := qsort (map decay (pgsp_hash b))).
  assert (Hlen : length entries = length (pgsp_hash b))
    by (unfold entries; now rewrite qsort_length, length_map).
  assert (Hpos : 0 < Z.of_nat (length entries))
    by (rewrite Hlen; destruct (pgsp_hash b); [congruence|simpl; lia]).
  rewrite (proj2 (Z.ltb_lt _ _) Hpos), Hlen.
  rewrite Z.quot_div_nonneg by lia.
  destruct (nth_error entries
              (Z.to_nat (Z.of_nat (length (pgsp_hash b)) / 2))) as [m|] eqn:E.
  - exists m. split; [reflexivity|].
    match goal with |- context [fold_left ?f ?l ?s] =>
      destruct (fold_entry_remove_session l s) as [_ _ _ _ _ Hm] end.
    cbn [pgsp set_pgsp cur_median_usage set_dealloc]. rewrite Hm. reflexivity.
  - exfalso. apply nth_error_None in E. rewrite Hlen in *.
    assert (Z.of_nat (length (pgsp_hash b)) / 2 < Z.of_nat (length (pgsp_hash b)))
      by (apply Z.div_lt; lia).
    assert (0 <= Z.of_nat (length (pgsp_hash b)) / 2) by (apply Z.div_pos; lia).
    lia.
Qed.

(** C6, as the code has it: a pass over a non-empty table records as
    [cur_median_usage] the usage of the entry in the middle of the decayed,
    sorted entries; an entry created afterwards (as any entry) starts with a
    usage of [PGSP_USAGE_INIT = 1.0], whatever [cur_median_usage] is. *)
Theorem median_is_recorded_new_entries_start_at_usage_init :
  (forall b, pgsp_hash b <> [] ->
     exists m,
       nth_error (qsort (map decay (pgsp_hash b)))
                 (Z.to_nat (Z.of_nat (length (pgsp_hash b)) / 2)) = Some m
       /\ cur_median_usage (pgsp (pgsp_entry_dealloc b)) = usage m)
  /\ (forall g db k context plantime nc custom_cost generic_cost b,
        0 < pgsp_max g ->
        exists b1,
          make_space (S (length (pgsp_hash b))) g b = Some b1
          /\ (hash_find (pgsp_hash b1) k = None ->
              exists e,
                pgsp_entry_alloc g db k context plantime nc custom_cost
                                 generic_cost b
                = Done (e, empty_context) (set_hash b1 (pgsp_hash b1 ++ [e]))
                /\ key e = k
                /\ usage e = PGSP_USAGE_INIT
                /\ PGSP_USAGE_INIT = 1%float)).
Proof.
  split; [exact entry_dealloc_median|].
  intros g db k context plantime nc cc gc b Hmax.
  destruct (make_space_total g (S (length (pgsp_hash b))) b Hmax ltac:(lia))
    as (b1 & Hms & _).
  exists b1. split; [exact Hms|]. intros Hf.
  exists (new_entry k context plantime nc cc gc).
  unfold pgsp_entry_alloc. rewrite Hms, Hf. repeat split.
Qed.

(** C6 as stated fails on the initial usage: with [max = 5] and five entries
    of usage 100, saving a sixth plan runs a pass that records a median of
    99, and the entry then created starts at 1, not at 99. *)
Lemma new_entry_does_not_start_at_the_median :
  exists r b',
    pgsp_planner_hook production_build (guc_max guc_defaults 5) sample_host
                      sample_query (Some 0) (full_backend 5 100%float)
    = Done r b'
    /\ dealloc (pgsp b') = 1
    /\ cur_median_usage (pgsp b') = 99%float
    /\ map key (pgsp_hash b') = [sample_key]
    /\ map usage (pgsp_hash b') = [1%float].
Proof. do 2 eexists. vm_compute. repeat split. Qed.

Lemma median_is_recorded_new_entries_start_at_usage_init_witness :
  (exists m,
     nth_error (qsort (map decay (pgsp_hash (full_backend 5 100%float))))
               (Z.to_nat (Z.of_nat (length (pgsp_hash (full_backend 5 100%float))) / 2))
     = Some m
     /\ cur_median_usage (pgsp (pgsp_entry_dealloc (full_backend 5 100%float)))
        = usage m)
  /\ (exists b1,
        make_space (S (length (pgsp_hash (full_backend 5 100%float))))
                   (guc_max guc_defaults 5) (full_backend 5 100%float) = Some b1
        /\ (hash_find (pgsp_hash b1) sample_key = None ->
            exists e,
              pgsp_entry_alloc (guc_max guc_defaults 5) 1 sample_key
                               empty_context 12%float 0 25%float 10%float
                               (full_backend 5 100%float)
              = Done (e, empty_context) (set_hash b1 (pgsp_hash b1 ++ [e]))
              /\ key e = sample_key
              /\ usage e = PGSP_USAGE_INIT
              /\ PGSP_USAGE_INIT = 1%float)).
Proof.
  split.
  - apply (proj1 median_is_recorded_new_entries_start_at_usage_init
                 (full_backend 5 100%float)). discriminate.
  - apply (proj2 median_is_recorded_new_entries_start_at_usage_init
                 (guc_max guc_defaults 5) 1 sample_key empty_context 12%float 0
                 25%float 10%float (full_backend 5 100%float)). reflexivity.
Defined.

(* ----------------------------------------------------------------- *)
(** ** The capacity bound *)

Section Keeps.
Variable P : backend -> Prop.
(** [P] looks at the hash table only. *)
Hypothesis P_hash : forall b b', pgsp_hash b' = pgsp_hash b -> P b -> P b'.

Lemma keeps_ret {A} (a : A) : keeps P (ret a).
Proof. intros b Hb. exact Hb. Qed.

Lemma keeps_raise {A} f : keeps P (@raise A f).
Proof. intros b Hb. exact Hb. Qed.

Lemma keeps_get : keeps P get.
Proof. intros b Hb. exact Hb. Qed.

Lemma keeps_bind {A B} (m : M A) (k : A -> M B) :
  keeps P m -> (forall a, keeps P (k a)) -> keeps P (bind m k).
Proof.
  intros Hm Hk b Hb. unfold bind. specialize (Hm b Hb).
  destruct (m b) as [a b'|f b']; simpl in *; [now apply Hk|exact Hm].
Qed.

Lemma keeps_modify f :
  (forall b, P b -> P (f b)) -> keeps P (modify f).
Proof. intros Hf b Hb. now apply Hf. Qed.

Lemma keeps_modify_hash f :
  (forall b, pgsp_hash (f b) = pgsp_hash b) -> keeps P (modify f).
Proof. intros Hf. apply keeps_modify. intros b. now apply P_hash. Qed.

Lemma keeps_LWLockAcquire m : keeps P (LWLockAcquire m).
Proof.
  intros b Hb. unfold LWLockAcquire.
  destruct m, (held_lwlocks b) as [|[|] ?]; simpl; auto;
    (apply (P_hash b); [reflexivity|exact Hb]).
Qed.

Lemma keeps_LWLockRelease : keeps P LWLockRelease.
Proof.
  intros b Hb. unfold LWLockRelease.
  destruct (held_lwlocks b); simpl; auto.
  apply (P_hash b); [reflexivity|exact Hb].
Qed.

Lemma keeps_for_each {A} (l : list A) (f : A -> M unit) :
  (forall x, keeps P (f x)) -> keeps P (for_each l f).
Proof.
  intros Hf. induction l as [|x l IH]; simpl.
  - apply keeps_ret.
  - apply keeps_bind; auto.
Qed.
End Keeps.

Lemma within_capacity_hash g b b' :
  pgsp_hash b' = pgsp_hash b -> within_capacity g b -> within_capacity g b'.
Proof. unfold within_capacity. now intros ->. Qed.

Lemma within_capacity_le g b b' :
  (length (pgsp_hash b') <= length (pgsp_hash b))%nat ->
  within_capacity g b -> within_capacity g b'.
Proof. unfold within_capacity, hash_get_num_entries. lia. Qed.

Lemma entry_remove_capacity g e b :
  within_capacity g b -> within_capacity g (pgsp_entry_remove e b).
Proof.
  apply within_capacity_le. rewrite entry_remove_hash.
  apply hash_remove_length_le.
Qed.

Lemma evict_entry_capacity g kind k b :
  within_capacity g b -> within_capacity g (evict_entry kind k b).
Proof.
  unfold evict_entry. destruct (hash_find (pgsp_hash b) k) as [e|]; [|auto].
  destruct (kind_eqb kind PGSP_UNLOCK).
  - apply within_capacity_le. cbn [pgsp_hash set_hash].
    now rewrite hash_update_length.
  - destruct (dsa_valid (plan _)); destruct (kind_eqb kind PGSP_EVICT);
      intros H; try apply entry_remove_capacity;
      (eapply within_capacity_le; [|exact H]);
      cbn [pgsp_hash set_hash free_dsmem PGSP_FREEDSMEM set_pgsp set_area];
      now rewrite hash_update_length.
Qed.

Lemma fold_capacity {A} g (f : backend -> A -> backend) l b :
  (forall b x, within_capacity g b -> within_capacity g (f b x)) ->
  within_capacity g b -> within_capacity g (fold_left f l b).
Proof.
  intros Hf. revert b. induction l as [|x l IH]; simpl; auto.
Qed.

Lemma evict_by_oid_capacity g h db c o kind :
  keeps (within_capacity g) (pgsp_evict_by_oid h db c o kind).
Proof.
  unfold pgsp_evict_by_oid.
  apply keeps_bind;
    [apply keeps_modify_hash; [apply within_capacity_hash|reflexivity]|].
  intros _. apply keeps_bind.
  - destruct c; (apply keeps_ret || apply keeps_raise).
  - intros o'. apply keeps_bind; [apply keeps_get|]. intros b0.
    destruct (rdepend_find _ _); [|apply keeps_ret].
    apply keeps_modify. intros b. apply fold_capacity.
    intros; now apply evict_entry_capacity.
Qed.

Lemma accum_custom_plan_capacity g k c :
  keeps (within_capacity g) (pgsp_accum_custom_plan k c).
Proof.
  unfold pgsp_accum_custom_plan.
  apply keeps_bind; [apply keeps_LWLockAcquire, within_capacity_hash|].
  intros _.
  apply keeps_bind;
    [|intros _; apply keeps_LWLockRelease, within_capacity_hash].
  apply keeps_modify. intros b. apply within_capacity_le.
  cbn [pgsp_hash set_hash]. now rewrite hash_update_length.
Qed.

Section StoringAPlanKeepsTheTable.
Variable P : backend -> Prop.
Hypothesis P_hash : forall b b', pgsp_hash b' = pgsp_hash b -> P b -> P b'.

Lemma keeps_allocate_plan_free_plan ok c :
  keeps P (allocate_plan_free_plan ok c).
Proof.
  unfold allocate_plan_free_plan.
  apply keeps_bind; [apply keeps_modify_hash; auto; intros; now destruct ok|].
  intros _. apply keeps_bind; [now apply keeps_LWLockRelease|].
  intros _. apply keeps_ret.
Qed.

Lemma keeps_allocate_plan_free_rels db k ok c oids n :
  keeps P (allocate_plan_free_rels db k ok c oids n).
Proof.
  unfold allocate_plan_free_rels.
  apply keeps_bind; [|intros _; apply keeps_allocate_plan_free_plan].
  apply keeps_modify_hash; auto. intros b.
  now destruct (negb ok && (0 <? ctx_num_rels c)).
Qed.

Lemma keeps_allocate_plan_free_invals db k ok c oids n items nb :
  keeps P (allocate_plan_free_invals db k ok c oids n items nb).
Proof.
  unfold allocate_plan_free_invals.
  apply keeps_bind; [|intros _; apply keeps_allocate_plan_free_rels].
  apply keeps_modify_hash; auto. intros b.
  now destruct (negb ok && (0 <? nb)).
Qed.

Lemma keeps_allocate_plan bc g db items stmt context k :
  keeps P (pgsp_allocate_plan bc g db items stmt context k).
Proof.
  intros b Hb. unfold pgsp_allocate_plan.
  destruct (dsa_allocate_extended (pgsp_area b) _ _) as [p area1].
  destruct (negb (dsa_valid p)); [exact Hb|].
  match goal with
  | |- context [if ?c then (ctx_rels _, _) else _] => destruct c eqn:En
  end.
  - cbn [negb andb].
    match goal with |- P (final_state (?m ?s)) =>
      assert (Hk : keeps P m); [|apply Hk; now apply (P_hash b)] end.
    apply keeps_bind; [now apply keeps_LWLockAcquire|]. intros _.
    apply keeps_bind; [apply keeps_get|]. intros b3.
    destruct (register_rels _ _ _ _ _ _) as [[ok i] t].
    apply keeps_bind; [now apply keeps_modify_hash|]. intros _.
    destruct (negb ok); [apply keeps_allocate_plan_free_rels|].
    apply keeps_bind; [apply keeps_get|]. intros b4.
    destruct (register_invals _ _ _ _ _ _) as [[ok' tmp] t'].
    apply keeps_bind; [now apply keeps_modify_hash|]. intros _.
    destruct (negb ok'); [apply keeps_allocate_plan_free_invals|].
    destruct (0 <? _); [|apply keeps_allocate_plan_free_invals].
    apply keeps_bind; [apply keeps_get|]. intros b5.
    destruct (dsa_allocate_extended _ _ _) as [d area3].
    destruct (negb (dsa_valid d)); [apply keeps_allocate_plan_free_invals|].
    apply keeps_bind; [now apply keeps_modify_hash|]. intros _.
    apply keeps_allocate_plan_free_invals.
  - destruct (dsa_allocate_extended _ _ _) as [r area2].
    cbn [negb andb]. destruct (negb (dsa_valid r)).
    + apply keeps_allocate_plan_free_plan. now apply (P_hash b).
    + match goal with |- P (final_state (?m ?s)) =>
        assert (Hk : keeps P m); [|apply Hk; now apply (P_hash b)] end.
      apply keeps_bind; [now apply keeps_LWLockAcquire|]. intros _.
      apply keeps_bind; [apply keeps_get|]. intros b3.
      destruct (register_rels _ _ _ _ _ _) as [[ok i] t].
      apply keeps_bind; [now apply keeps_modify_hash|]. intros _.
      destruct (negb ok); [apply keeps_allocate_plan_free_rels|].
      apply keeps_bind; [apply keeps_get|]. intros b4.
      destruct (register_invals _ _ _ _ _ _) as [[ok' tmp] t'].
      apply keeps_bind; [now apply keeps_modify_hash|]. intros _.
      destruct (negb ok'); [apply keeps_allocate_plan_free_invals|].
      destruct (0 <? _); [|apply keeps_allocate_plan_free_invals].
      apply keeps_bind; [apply keeps_get|]. intros b5.
      destruct (dsa_allocate_extended _ _ _) as [d area3].
      destruct (negb (dsa_valid d)); [apply keeps_allocate_plan_free_invals|].
      apply keeps_bind; [now apply keeps_modify_hash|]. intros _.
      apply keeps_allocate_plan_free_invals.
Qed.
End StoringAPlanKeepsTheTable.

(** Case analysis on every test in the goal. *)
Ltac split_tests :=
  repeat match goal with
         | |- context [if ?c then _ else _] => destruct c
         end.

Lemma discard_locked_context_frame db k c b :
  pgsp_hash (snd (discard_locked_context db k c b)) = pgsp_hash b
  /\ held_lwlocks (snd (discard_locked_context db k c b)) = held_lwlocks b.
Proof.
  unfold discard_locked_context, release_ctx_plan, release_ctx_rels,
    release_ctx_rdeps.
  destruct c; cbn. split_tests; cbn; auto.
Qed.

Lemma reconcile_dependencies_frame db k e c b :
  pgsp_hash (snd (reconcile_dependencies db k e c b)) = pgsp_hash b
  /\ held_lwlocks (snd (reconcile_dependencies db k e c b)) = held_lwlocks b.
Proof.
  unfold reconcile_dependencies. destruct c, e; cbn. split_tests; cbn; auto.
Qed.

(** [pgsp_entry_alloc] returns, and leaves the table within capacity. *)
Lemma entry_alloc_capacity g db k context plantime nc cc gc b :
  0 < pgsp_max g ->
  exists e c b',
    pgsp_entry_alloc g db k context plantime nc cc gc b = Done (e, c) b'
    /\ within_capacity g b'
    /\ held_lwlocks b' = held_lwlocks b.
Proof.
  intros Hmax.
  destruct (make_space_total g (S (length (pgsp_hash b))) b Hmax ltac:(lia))
    as (b1 & Hms & Hroom & Hheld & _).
  unfold pgsp_entry_alloc. rewrite Hms. rewrite <- Hheld.
  assert (Hcap : forall b', length (pgsp_hash b') = length (pgsp_hash b1) ->
                            within_capacity g b').
  { intros b' Hl. unfold within_capacity, hash_get_num_entries in *. lia. }
  clear Hms Hheld b.
  destruct (hash_find (pgsp_hash b1) k) as [e|].
  - unfold discard_locked_context, reconcile_dependencies, release_ctx_plan,
      release_ctx_rels, release_ctx_rdeps.
    destruct context, e; cbn -[hash_update Z.mul].
    split_tests; cbn -[hash_update Z.mul]; do 3 eexists;
      (split; [reflexivity|]); (split; [|reflexivity]);
      apply Hcap; cbn -[hash_update Z.mul]; apply hash_update_length.
  - do 3 eexists. split; [reflexivity|]. split; [|reflexivity].
    unfold within_capacity, hash_get_num_entries in *. cbn [pgsp_hash set_hash].
    rewrite length_app. simpl. lia.
Qed.

Section Capacity.
Variable bc : build_config.
Variable g : gucs.
Variable h : host.
Hypothesis max_positive : 0 < pgsp_max g.

Lemma keeps_entry_alloc db k context plantime nc cc gc :
  keeps (within_capacity g) (pgsp_entry_alloc g db k context plantime nc cc gc).
Proof.
  intros b _.
  destruct (entry_alloc_capacity g db k context plantime nc cc gc b
              max_positive) as (e & c & b' & -> & Hc & _).
  exact Hc.
Qed.

Lemma keeps_cache_plan parse custom generic k plantime nc :
  keeps (within_capacity g)
        (pgsp_cache_plan bc g h parse custom generic k plantime nc).
Proof.
  unfold pgsp_cache_plan.
  apply keeps_bind; [apply keeps_allocate_plan, within_capacity_hash|].
  intros [ok context].
  destruct (negb ok); [apply keeps_ret|].
  apply keeps_bind; [apply keeps_LWLockAcquire, within_capacity_hash|].
  intros _.
  apply keeps_bind; [apply keeps_entry_alloc|]. intros _.
  apply keeps_LWLockRelease, within_capacity_hash.
Qed.

Lemma keeps_plan_and_save parse bp k nc entry_null accum :
  keeps (within_capacity g)
        (plan_and_save bc g h parse bp k nc entry_null accum).
Proof.
  unfold plan_and_save.
  apply keeps_bind; [apply keeps_LWLockRelease, within_capacity_hash|].
  intros _.
  cbv zeta. destruct (entry_null && _).
  - apply keeps_bind; [apply keeps_cache_plan|]. intros _. apply keeps_ret.
  - destruct accum; [|apply keeps_ret].
    apply keeps_bind; [apply accum_custom_plan_capacity|]. intros _.
    apply keeps_ret.
Qed.

Lemma keeps_update_entry k e' :
  keeps (within_capacity g) (modify (fun b =>
    set_hash b (hash_update (pgsp_hash b) k (fun _ => e')))).
Proof.
  apply keeps_modify. intros b. apply within_capacity_le.
  cbn [pgsp_hash set_hash]. now rewrite hash_update_length.
Qed.

Lemma keeps_planner_hook parse bp :
  keeps (within_capacity g) (pgsp_planner_hook bc g h parse bp).
Proof.
  unfold pgsp_planner_hook.
  destruct (hook_bypassed bc g parse bp); [apply keeps_ret|].
  destruct (utilityStmt parse); [apply keeps_ret|].
  destruct (pgsp_query_walker h parse) as [[noncacheable cid] nc].
  destruct noncacheable; [apply keeps_ret|]. cbv zeta.
  apply keeps_bind; [apply keeps_LWLockAcquire, within_capacity_hash|].
  intros _.
  apply keeps_bind; [apply keeps_get|]. intros b0.
  destruct (hash_find (pgsp_hash b0) _) as [e|];
    [|apply keeps_plan_and_save].
  destruct (negb (dsa_valid (plan e))); [apply keeps_plan_and_save|].
  destruct (pgsp_choose_cache_plan g e false) as [[use accum] e'].
  apply keeps_bind; [apply keeps_update_entry|]. intros _.
  destruct use; [|apply keeps_plan_and_save].
  destruct (dsa_get_address _ _) as [[result| |]|]; try apply keeps_raise.
  apply keeps_bind; [apply keeps_LWLockRelease, within_capacity_hash|].
  intros _.
  apply keeps_bind; [apply keeps_LWLockAcquire, within_capacity_hash|].
  intros _.
  apply keeps_bind; [apply keeps_get|]. intros b1.
  apply keeps_bind; [apply keeps_LWLockRelease, within_capacity_hash|].
  intros _.
  destruct (match hash_find (pgsp_hash b1) _ with Some _ => _ | None => _ end);
    [apply keeps_ret|apply keeps_plan_and_save].
Qed.

Lemma keeps_reset u d q :
  keeps (within_capacity g) (pg_shared_plans_reset_internal h u d q).
Proof.
  unfold pg_shared_plans_reset_internal.
  apply keeps_bind; [apply keeps_LWLockAcquire, within_capacity_hash|].
  intros _.
  apply keeps_bind;
    [|intros _; apply keeps_LWLockRelease, within_capacity_hash].
  apply keeps_modify. intros b Hb.
  assert (Hf : within_capacity g (fold_left (fun b e => pgsp_entry_remove e b)
                            (reset_targets u d q (pgsp_hash b)) b)).
  { apply fold_capacity; auto. intros. now apply entry_remove_capacity. }
  destruct (_ =? _); [|exact Hf].
  eapply (within_capacity_hash g); [|exact Hf]. reflexivity.
Qed.

Lemma keeps_evictions (l : list Oid) c kind :
  keeps (within_capacity g) (for_each l (fun oid =>
             pgsp_evict_by_oid h (MyDatabaseId h) c oid kind)).
Proof. apply keeps_for_each. intros. apply evict_by_oid_capacity. Qed.

Lemma keeps_do_lock util :
  keeps (within_capacity g) (pgsp_utility_do_lock h util).
Proof.
  unfold pgsp_utility_do_lock. destruct (negb (has_lock util));
    [apply keeps_ret|].
  apply keeps_for_each. intros entry.
  destruct (negb (kind_eqb _ _)); [apply keeps_ret|].
  apply keeps_bind; [apply keeps_LWLockAcquire, within_capacity_hash|].
  intros _.
  apply keeps_bind; [apply keeps_evictions|]. intros _.
  apply keeps_bind; [apply keeps_LWLockRelease, within_capacity_hash|].
  intros _.
  apply keeps_bind; [apply keeps_LWLockAcquire, within_capacity_hash|].
  intros _.
  apply keeps_evictions.
Qed.

Lemma keeps_ProcessUtility s :
  keeps (within_capacity g) (pgsp_ProcessUtility h s).
Proof.
  unfold pgsp_ProcessUtility, utility_before_exec, utility_after_exec.
  apply keeps_bind.
  { apply keeps_bind; [apply keeps_do_lock|]. intros _. apply keeps_ret. }
  intros util.
  apply keeps_bind;
    [apply keeps_modify_hash; [apply within_capacity_hash|reflexivity]|].
  intros _.
  destruct (reset_current_db util); [apply keeps_reset|]. cbv zeta.
  destruct (_ || _); [|apply keeps_ret].
  apply keeps_bind.
  { destruct (has_lock _);
      [apply keeps_ret|apply keeps_LWLockAcquire, within_capacity_hash]. }
  intros _. apply keeps_bind.
  { apply keeps_for_each. intros entry.
    destruct (_ && _); [apply keeps_ret|apply keeps_evictions]. }
  intros _.
  apply keeps_bind;
    [apply keeps_modify_hash; [apply within_capacity_hash|reflexivity]|].
  intros _.
  apply keeps_LWLockRelease, within_capacity_hash.
Qed.

Lemma run_operation_capacity op b :
  within_capacity g b -> within_capacity g (run_operation bc g h op b).
Proof.
  intros Hb. unfold run_operation. destruct op as [parse bp|s|u d q].
  - pose proof (keeps_planner_hook parse bp b Hb) as H.
    destruct (pgsp_planner_hook bc g h parse bp b); simpl in *;
      [exact H|eapply (within_capacity_hash g); [|exact H]; reflexivity].
  - pose proof (keeps_ProcessUtility s b Hb) as H.
    destruct (pgsp_ProcessUtility h s b); simpl in *;
      [exact H|eapply (within_capacity_hash g); [|exact H]; reflexivity].
  - pose proof (keeps_reset u d q b Hb) as H.
    destruct (pg_shared_plans_reset_internal h u d q b); simpl in *;
      [exact H|eapply (within_capacity_hash g); [|exact H]; reflexivity].
Qed.

Lemma run_capacity ops b :
  within_capacity g b -> within_capacity g (run bc g h ops b).
Proof.
  unfold run. revert b. induction ops as [|op ops IH]; intros b Hb; simpl.
  - exact Hb.
  - apply IH. now apply run_operation_capacity.
Qed.
End Capacity.

(** C2: with [max] in its range, whatever the operations a backend runs on a
    table of at most [max] entries, the table has at most [max] entries after
    each of them; and [pgsp_entry_alloc], the one place where an entry is
    added, first evicts until there is room, always returns, and leaves at
    most [max] entries. *)
Theorem capacity_is_never_exceeded (bc : build_config) (g : gucs) (h : host) :
  5 <= pgsp_max g ->
  (forall b ops,
     hash_get_num_entries (pgsp_hash b) <= pgsp_max g ->
     hash_get_num_entries (pgsp_hash (run bc g h ops b)) <= pgsp_max g)
  /\ (forall db k context plantime nc custom_cost generic_cost b,
        exists b1 e c b',
          make_space (S (length (pgsp_hash b))) g b = Some b1
          /\ hash_get_num_entries (pgsp_hash b1) < pgsp_max g
          /\ pgsp_entry_alloc g db k context plantime nc custom_cost
                              generic_cost b = Done (e, c) b'
          /\ hash_get_num_entries (pgsp_hash b') <= pgsp_max g).
Proof.
  intros Hmax. split.
  - intros b ops Hb. apply (run_capacity bc g h ltac:(lia) ops b Hb).
  - intros db k context plantime nc cc gc b.
    destruct (make_space_total g (S (length (pgsp_hash b))) b ltac:(lia)
                ltac:(lia)) as (b1 & Hms & Hroom & _).
    destruct (entry_alloc_capacity g db k context plantime nc cc gc b
                ltac:(lia)) as (e & c & b' & Hrun & Hc & _).
    exists b1, e, c, b'. auto.
Qed.

Lemma capacity_is_never_exceeded_witness :
  (forall b ops,
     hash_get_num_entries (pgsp_hash b) <= pgsp_max (guc_max guc_defaults 5) ->
     hash_get_num_entries
       (pgsp_hash (run production_build (guc_max guc_defaults 5) sample_host
                       ops b))
     <= pgsp_max (guc_max guc_defaults 5))
  /\ (forall db k context plantime nc custom_cost generic_cost b,
        exists b1 e c b',
          make_space (S (length (pgsp_hash b))) (guc_max guc_defaults 5) b
          = Some b1
          /\ hash_get_num_entries (pgsp_hash b1)
             < pgsp_max (guc_max guc_defaults 5)
          /\ pgsp_entry_alloc (guc_max guc_defaults 5) db k context plantime
                              nc custom_cost generic_cost b = Done (e, c) b'
          /\ hash_get_num_entries (pgsp_hash b')
             <= pgsp_max (guc_max guc_defaults 5)).
Proof.
  apply (capacity_is_never_exceeded production_build (guc_max guc_defaults 5)
           sample_host).
  simpl. lia.
Defined.

(** A full table of five entries, [max = 5]: a sixth plan is saved after a
    pass has made room. *)
Example sixth_plan_fits :
  hash_get_num_entries
    (pgsp_hash (run production_build (guc_max guc_defaults 5) sample_host
                    [PlanRequest sample_query (Some 0)]
                    (full_backend 5 1%float))) = 1.
Proof. vm_compute. reflexivity. Qed.

(* ----------------------------------------------------------------- *)
(** ** LOCK-class statements (section 4.H) *)

Lemma lock_oid_first o :
  OidIsValid o = true -> lock_oid RELOID o empty_util = lock_requests [o].
Proof. intros H. unfold lock_oid. now rewrite H. Qed.

Lemma lock_oid_next o l :
  OidIsValid o = true ->
  lock_oid RELOID o (lock_requests l)
  = lock_requests (list_append_unique_oid l o).
Proof. intros H. unfold lock_oid. now rewrite H. Qed.

Lemma lock_oids_next l0 l :
  l0 <> [] ->
  lock_oids RELOID l0 (lock_requests l)
  = lock_requests (list_concat_unique_oid l l0).
Proof. intros H. destruct l0; [congruence|reflexivity]. Qed.

Lemma list_append_unique_oid_nonempty l o : list_append_unique_oid l o <> [].
Proof.
  unfold list_append_unique_oid. destruct (existsb _ _) eqn:E.
  - destruct l; [discriminate|discriminate].
  - destruct l; discriminate.
Qed.

Lemma drop_index_objects_locks hs l :
  l <> [] ->
  exists l', l' <> []
    /\ drop_index_objects true hs (lock_requests l) = lock_requests l'.
Proof.
  revert l. induction hs as [|o hs IH]; intros l Hl; simpl; [eauto|].
  destruct (OidIsValid o) eqn:E; simpl; [|eauto].
  rewrite lock_oid_next by exact E. apply IH, list_append_unique_oid_nonempty.
Qed.

Lemma discard_oid_has_lock c o u :
  has_lock (discard_oid c o u) = has_lock u.
Proof. unfold discard_oid. now destruct (negb (OidIsValid o)). Qed.

Lemma remove_oid_has_lock c o u :
  has_lock (remove_oid c o u) = has_lock u.
Proof. unfold remove_oid. now destruct (negb (OidIsValid o)). Qed.

Lemma drop_index_objects_has_lock hs u :
  has_lock (drop_index_objects false hs u) = has_lock u.
Proof.
  revert u. induction hs as [|o hs IH]; intros u; simpl; [reflexivity|].
  destruct (negb (OidIsValid o)); [reflexivity|].
  now rewrite IH, discard_oid_has_lock.
Qed.

Lemma fold_remove_oid_has_lock c l u :
  has_lock (fold_left (fun u o => remove_oid c o u) l u) = has_lock u.
Proof.
  revert u. induction l as [|o l IH]; intros u; simpl; [reflexivity|].
  now rewrite IH, remove_oid_has_lock.
Qed.

(** What the pre-exec pass leaves for a LOCK-class statement, and that the
    post-exec pass adds nothing to it. *)
Lemma lock_class_requests s :
  lock_class s = true ->
  exists l, l <> []
    /\ pgsp_utility_pre_exec s empty_util = lock_requests l
    /\ pgsp_utility_post_exec s (lock_requests l) = lock_requests l.
Proof.
  unfold lock_class.
  destruct s as [conc xact hs|rs|ps|xact o anc|conc xact o|c o rel| |];
    cbn [pgsp_utility_pre_exec pgsp_utility_post_exec].
  - destruct conc; cbn [andb].
    + destruct xact; [discriminate|].
      destruct hs as [|o hs]; cbn [drop_index_objects]; [discriminate|].
      destruct (OidIsValid o) eqn:E; cbn [negb]; [|discriminate]. intros _.
      rewrite lock_oid_first by exact E.
      destruct (drop_index_objects_locks hs [o] ltac:(discriminate))
        as (l' & Hl' & ->). eauto.
    + now rewrite drop_index_objects_has_lock.
  - now rewrite fold_remove_oid_has_lock.
  - now rewrite fold_remove_oid_has_lock.
  - destruct xact; [discriminate|].
    destruct (OidIsValid o) eqn:E; [|discriminate]. intros _.
    rewrite lock_oid_first by exact E.
    destruct anc as [|a anc]; [exists [o]; now repeat split|].
    rewrite lock_oids_next by discriminate.
    eexists. split; [|split; reflexivity].
    unfold list_concat_unique_oid. cbn [fold_left].
    generalize (list_append_unique_oid [o] a)
               (list_append_unique_oid_nonempty [o] a).
    induction anc as [|x anc IH]; intros l Hl; cbn [fold_left]; [exact Hl|].
    apply IH, list_append_unique_oid_nonempty.
  - destruct conc; cbn [andb].
    + destruct xact; [discriminate|].
      destruct (OidIsValid o) eqn:E; cbn [negb]; [|discriminate]. intros _.
      rewrite lock_oid_first by exact E. exists [o]. now repeat split.
    + destruct (negb (OidIsValid o)); [discriminate|].
      now rewrite discard_oid_has_lock.
  - discriminate.
  - discriminate.
  - discriminate.
Qed.

Lemma bind_done {A B} (m : M A) (k : A -> M B) b a b1 :
  m b = Done a b1 -> bind m k b = k a b1.
Proof. unfold bind. now intros ->. Qed.

Lemma evict_entry_session kind k b : same_session b (evict_entry kind k b).
Proof.
  unfold evict_entry. destruct (hash_find (pgsp_hash b) k) as [e|];
    [|apply same_session_refl].
  destruct (kind_eqb kind PGSP_UNLOCK); [now constructor|].
  destruct (dsa_valid (plan _)), (kind_eqb kind PGSP_EVICT);
    try (eapply same_session_trans; [|apply entry_remove_session]);
    now constructor.
Qed.

Lemma fold_evict_entry_session kind l b :
  same_session b (fold_left (fun b k => evict_entry kind k b) l b).
Proof.
  revert b. induction l as [|k l IH]; intros b; simpl.
  - apply same_session_refl.
  - eapply same_session_trans; [apply evict_entry_session|apply IH].
Qed.

(** Invalidation by relation never fails; it is seen as one event and leaves
    the lock and the session settings alone. *)
Lemma evict_by_oid_rel h db o kind b :
  exists b',
    pgsp_evict_by_oid h db RELOID o kind b = Done tt b'
    /\ events b' = events b ++ [EvEvictByOid RELOID o kind]
    /\ held_lwlocks b' = held_lwlocks b
    /\ pgsp_ro b' = pgsp_ro b.
Proof.
  unfold pgsp_evict_by_oid, bind, modify, ret, get.
  cbn [pgsp_rdepend emit].
  destruct (rdepend_find (pgsp_rdepend b) _) as [rkeys|].
  - eexists. split; [reflexivity|].
    match goal with |- context [fold_left ?f ?l ?s] =>
      destruct (fold_evict_entry_session kind l s) as [Hl Hr He _ _ _] end.
    rewrite Hl, Hr, He. now repeat split.
  - eexists. split; [reflexivity|]. now repeat split.
Qed.

Lemma evictions_rel h db kind l b :
  exists b',
    for_each l (fun oid => pgsp_evict_by_oid h db RELOID oid kind) b
    = Done tt b'
    /\ events b' = events b ++ map (fun o => EvEvictByOid RELOID o kind) l
    /\ held_lwlocks b' = held_lwlocks b
    /\ pgsp_ro b' = pgsp_ro b.
Proof.
  revert b. induction l as [|o l IH]; intros b; cbn [for_each map].
  - exists b. rewrite app_nil_r. now repeat split.
  - destruct (evict_by_oid_rel h db o kind b) as (b1 & H1 & He1 & Hl1 & Hr1).
    destruct (IH b1) as (b2 & H2 & He2 & Hl2 & Hr2).
    exists b2. rewrite (bind_done _ _ _ _ _ H1). split; [exact H2|].
    rewrite He2, He1, <- app_assoc. repeat split; congruence.
Qed.

(** The events of a LOCK-class statement on the relations [l], as the code
    produces them. *)
Lemma lock_class_trace h s l b :
  pgsp_utility_pre_exec s empty_util = lock_requests l ->
  pgsp_utility_post_exec s (lock_requests l) = lock_requests l ->
  held_lwlocks b = [] ->
  exists b',
    pgsp_ProcessUtility h s b = Done tt b'
    /\ events b'
       = events b
         ++ EvAcquire LW_EXCLUSIVE
            :: map (fun o => EvEvictByOid RELOID o PGSP_DISCARD_AND_LOCK) l
         ++ EvRelease :: EvAcquire LW_SHARED
            :: map (fun o => EvEvictByOid RELOID o PGSP_UNLOCK) l
         ++ [EvRunUtility; EvSetReadOnly; EvRelease]
    /\ held_lwlocks b' = []
    /\ pgsp_ro b' = true.
Proof.
  intros Hpre Hpost Hheld.
  (* acquire exclusive *)
  set (b1 := emit (EvAcquire LW_EXCLUSIVE) (set_held b [LW_EXCLUSIVE])).
  assert (H1 : LWLockAcquire LW_EXCLUSIVE b = Done tt b1)
    by (unfold LWLockAcquire; now rewrite Hheld).
  (* discard and lock *)
  destruct (evictions_rel h (MyDatabaseId h) PGSP_DISCARD_AND_LOCK l b1)
    as (b2 & H2 & He2 & Hl2 & Hr2).
  (* downgrade *)
  set (b3 := emit EvRelease (set_held b2 [])).
  assert (H3 : LWLockRelease b2 = Done tt b3)
    by (unfold LWLockRelease; rewrite Hl2; reflexivity).
  set (b4 := emit (EvAcquire LW_SHARED) (set_held b3 [LW_SHARED])).
  assert (H4 : LWLockAcquire LW_SHARED b3 = Done tt b4) by reflexivity.
  (* unlock *)
  destruct (evictions_rel h (MyDatabaseId h) PGSP_UNLOCK l b4)
    as (b5 & H5 & He5 & Hl5 & Hr5).
  assert (Hbefore : utility_before_exec h s b = Done (lock_requests l) b5).
  { unfold utility_before_exec. rewrite Hpre. unfold pgsp_utility_do_lock.
    cbn [lock_requests has_lock oids_hash negb for_each oe_kind oe_classid
         oids kind_eqb].
    unfold bind. rewrite H1. cbv beta iota. rewrite H2. cbv beta iota.
    rewrite H3. cbv beta iota. rewrite H4. cbv beta iota. rewrite H5.
    reflexivity. }
  set (b6 := emit EvRunUtility b5).
  set (b7 := emit EvSetReadOnly (set_ro b6 true)).
  exists (emit EvRelease (set_held b7 [])).
  split.
  - unfold pgsp_ProcessUtility. rewrite (bind_done _ _ _ _ _ Hbefore).
    unfold utility_after_exec. cbn [reset_current_db lock_requests].
    fold (lock_requests l). rewrite Hpost.
    cbn [lock_requests has_lock has_discard has_remove oids_hash negb orb
         for_each oe_kind oe_classid oids kind_eqb andb].
    unfold bind, modify, ret, LWLockRelease. cbn [held_lwlocks emit set_ro].
    rewrite Hl5. reflexivity.
  - split; [|now split].
    cbn [events emit set_held set_ro b7 b6]. rewrite He5.
    cbn [events emit set_held b4 b3]. rewrite He2.
    cbn [events emit set_held b1].
    repeat (rewrite <- app_assoc; cbn [app]). reflexivity.
Qed.








(* ----------------------------------------------------------------- *)
(** ** Failure while storing a plan (section 4.F) *)

Lemma dsa_wf_fresh a :
  dsa_wf a ->
  filter (fun s => negb (seg_ptr s =? dsa_next a)) (dsa_segments a)
  = dsa_segments a.
Proof.
  intros [_ H]. apply forallb_filter_id, forallb_forall. intros s Hs.
  rewrite Forall_forall in H. specialize (H s Hs).
  apply negb_true_iff, Z.eqb_neq. lia.
Qed.

(** C4, where the code departs from it: when the plan fits in the arena but
    the array of its relations does not, [pgsp_allocate_plan] frees the plan
    and restores [alloced_size], and then releases [pgsp->lock], which it has
    not acquired on that path: the host raises "lock is not held". *)
Theorem allocate_plan_rels_oom_releases_unheld_lock
    (bc : build_config) (g : gucs) (db : Oid) (items : list PlanInvalItem)
    (stmt : PlannedStmt) (k : pgspHashKey) (b : backend) :
  held_lwlocks b = [] ->
  0 < dsa_next (pgsp_area b) ->
  nodeToString_len stmt + 1 <= dsa_room (pgsp_area b) ->
  plan_relation_oids bc stmt <> [] ->
  dsa_room (pgsp_area b) - (nodeToString_len stmt + 1)
  < sizeof_Oid * Z.of_nat (length (plan_relation_oids bc stmt)) ->
  exists b',
    pgsp_allocate_plan bc g db items stmt empty_context k b
    = Raised LockNotHeld b'
    /\ alloced_size (pgsp b') = alloced_size (pgsp b)
    /\ dsa_room (pgsp_area b') = dsa_room (pgsp_area b)
    /\ (dsa_wf (pgsp_area b) ->
        dsa_segments (pgsp_area b') = dsa_segments (pgsp_area b))
    /\ pgsp_rdepend b' = pgsp_rdepend b
    /\ pgsp_hash b' = pgsp_hash b.
Proof.
  intros Hheld Hnext Hfit Hoids Hoom.
  unfold pgsp_allocate_plan, dsa_allocate_extended.
  rewrite (proj2 (Z.leb_le _ _) Hfit).
  assert (Hv : dsa_valid (dsa_next (pgsp_area b)) = true)
    by (apply negb_true_iff, Z.eqb_neq; unfold InvalidDsaPointer; lia).
  rewrite Hv. cbn [negb].
  assert (Hn : (Z.of_nat (length (plan_relation_oids bc stmt)) =? 0) = false).
  { apply Z.eqb_neq. destruct (plan_relation_oids bc stmt);
      [congruence|simpl; lia]. }
  rewrite Hn.
  cbn [pgsp_area set_area PGSP_USEDSMEM set_pgsp dsa_room].
  rewrite (proj2 (Z.leb_gt _ _) Hoom). cbn [negb andb dsa_valid].
  unfold InvalidDsaPointer at 1. cbn [Z.eqb negb].
  unfold allocate_plan_free_plan, bind, modify, LWLockRelease, free_dsmem,
    dsa_free, dsa_find.
  cbn [ctx_plan ctx_len ctx_set_rels ctx_set_plan pgsp_area set_area
       PGSP_USEDSMEM PGSP_FREEDSMEM set_pgsp dsa_segments find seg_ptr
       held_lwlocks].
  rewrite Z.eqb_refl, Hheld.
  eexists. split; [reflexivity|].
  unfold PGSP_FREEDSMEM, PGSP_USEDSMEM.
  cbn [pgsp alloced_size set_alloced_size pgsp_area dsa_room seg_size
       dsa_segments pgsp_rdepend pgsp_hash filter seg_ptr dsa_next
       set_area set_pgsp].
  rewrite Z.eqb_refl. cbn [negb].
  split; [lia|]. split; [lia|]. split; [apply dsa_wf_fresh|]. now split.
Qed.

Lemma allocate_plan_rels_oom_releases_unheld_lock_witness :
  exists b',
    pgsp_allocate_plan production_build guc_defaults 1 [] sample_stmt
                       empty_context sample_key (fresh_backend 23)
    = Raised LockNotHeld b'
    /\ alloced_size (pgsp b') = alloced_size (pgsp (fresh_backend 23))
    /\ dsa_room (pgsp_area b') = dsa_room (pgsp_area (fresh_backend 23))
    /\ (dsa_wf (pgsp_area (fresh_backend 23)) ->
        dsa_segments (pgsp_area b')
        = dsa_segments (pgsp_area (fresh_backend 23)))
    /\ pgsp_rdepend b' = pgsp_rdepend (fresh_backend 23)
    /\ pgsp_hash b' = pgsp_hash (fresh_backend 23).
Proof.
  apply (allocate_plan_rels_oom_releases_unheld_lock production_build
           guc_defaults 1 [] sample_stmt sample_key (fresh_backend 23));
    vm_compute; congruence.
Defined.

(** The same failure seen from a plan request: with 23 bytes left in the
    arena, caching the 21-byte plan of a query over one relation ends the
    request with the error of the host instead of the planner's result. *)
Example plan_request_fails_when_rels_do_not_fit :
  exists b',
    pgsp_planner_hook production_build guc_defaults sample_host sample_query
                      (Some 0) (fresh_backend 23)
    = Raised LockNotHeld b'
    /\ pgsp_hash b' = [] /\ alloced_size (pgsp b') = 0.
Proof. eexists. vm_compute. repeat split. Qed.

(* ----------------------------------------------------------------- *)
(** ** The other failures of [pgsp_allocate_plan] *)

Lemma free_plan_tail ok c s m rest :
  held_lwlocks s = m :: rest ->
  exists s', allocate_plan_free_plan ok c s = Done (ok, c) s'
   /\ held_lwlocks s' = rest
   /\ pgsp_hash s' = pgsp_hash s
   /\ pgsp_rdepend s' = pgsp_rdepend s
   /\ pgsp s'
      = (if ok then pgsp s
         else pgsp (free_dsmem (ctx_plan c) (ctx_len c) s))
   /\ pgsp_area s'
      = (if ok then pgsp_area s
         else pgsp_area (free_dsmem (ctx_plan c) (ctx_len c) s)).
Proof.
  intros H. unfold allocate_plan_free_plan, bind, modify, LWLockRelease, ret.
  destruct ok;
    cbn [held_lwlocks free_dsmem PGSP_FREEDSMEM set_pgsp set_area];
    rewrite H; eexists; (split; [reflexivity|]); repeat split.
Qed.

Lemma free_rels_tail db k ok c oids nb s m rest :
  held_lwlocks s = m :: rest ->
  exists s', allocate_plan_free_rels db k ok c oids nb s = Done (ok, c) s'
   /\ held_lwlocks s' = rest
   /\ pgsp_hash s' = pgsp_hash s
   /\ accounting s'
      = accounting
          (if ok then s
           else free_dsmem (ctx_plan c) (ctx_len c)
                  (if 0 <? ctx_num_rels c
                   then free_dsmem (ctx_rels c)
                          (Z.of_nat (length oids) * sizeof_Oid) s
                   else s))
   /\ pgsp_rdepend s'
      = (if negb ok && (0 <? ctx_num_rels c)
         then unregister_rels db k nb oids (pgsp_rdepend s)
         else pgsp_rdepend s).
Proof.
  intros H. unfold allocate_plan_free_rels. unfold bind at 1. unfold modify.
  match goal with |- context [allocate_plan_free_plan ok c ?s1] =>
    destruct (free_plan_tail ok c s1 m rest)
      as (s' & Hrun & Hh & Hha & Hr & Hp & Ha)
  end.
  { destruct (negb ok && (0 <? ctx_num_rels c)); cbn; exact H. }
  exists s'. split; [exact Hrun|]. split; [exact Hh|].
  split.
  { rewrite Hha. destruct (negb ok && (0 <? ctx_num_rels c)); reflexivity. }
  split.
  - unfold accounting. rewrite Hp, Ha.
    destruct ok; cbn [negb andb]; [reflexivity|].
    destruct (0 <? ctx_num_rels c); reflexivity.
  - rewrite Hr. destruct (negb ok && (0 <? ctx_num_rels c)); reflexivity.
Qed.

Lemma free_invals_tail db k ok c oids nb items nbi s m rest :
  held_lwlocks s = m :: rest ->
  exists s',
    allocate_plan_free_invals db k ok c oids nb items nbi s = Done (ok, c) s'
   /\ held_lwlocks s' = rest
   /\ pgsp_hash s' = pgsp_hash s
   /\ accounting s'
      = accounting
          (if ok then s
           else free_dsmem (ctx_plan c) (ctx_len c)
                  (if 0 <? ctx_num_rels c
                   then free_dsmem (ctx_rels c)
                          (Z.of_nat (length oids) * sizeof_Oid) s
                   else s))
   /\ pgsp_rdepend s'
      = (let t := if negb ok && (0 <? nbi)
                  then unregister_invals db k nbi items 0 (pgsp_rdepend s)
                  else pgsp_rdepend s in
         if negb ok && (0 <? ctx_num_rels c)
         then unregister_rels db k nb oids t
         else t).
Proof.
  intros H. unfold allocate_plan_free_invals. unfold bind at 1. unfold modify.
  match goal with |- context [allocate_plan_free_rels db k ok c oids nb ?s1] =>
    destruct (free_rels_tail db k ok c oids nb s1 m rest)
      as (s' & Hrun & Hh & Hha & Ha & Hr)
  end.
  { destruct (negb ok && (0 <? nbi)); cbn; exact H. }
  exists s'. split; [exact Hrun|]. split; [exact Hh|].
  split. { rewrite Hha. destruct (negb ok && (0 <? nbi)); reflexivity. }
  split.
  - rewrite Ha. destruct ok; cbn [negb andb].
    + destruct (negb true && _); reflexivity.
    + destruct (0 <? nbi); cbn [negb andb]; destruct (0 <? ctx_num_rels c);
        reflexivity.
  - rewrite Hr. cbv zeta. destruct (negb ok && (0 <? nbi)); reflexivity.
Qed.

(** At a leaf of [pgsp_allocate_plan]: run the unwinding and read its result. *)
Ltac use_tail :=
  lazymatch goal with
  | |- allocate_plan_free_invals ?db ?k ?ok ?c ?oids ?nb ?items ?nbi ?s = _
       -> _ =>
      let s' := fresh "s'" in
      destruct (free_invals_tail db k ok c oids nb items nbi s LW_EXCLUSIVE [])
        as (s' & Hrun & Hh & Hha & Ha & Hrd);
      [reflexivity|rewrite Hrun; intros Heq; inversion Heq; subst; clear Heq]
  | |- allocate_plan_free_rels ?db ?k ?ok ?c ?oids ?nb ?s = _ -> _ =>
      let s' := fresh "s'" in
      destruct (free_rels_tail db k ok c oids nb s LW_EXCLUSIVE [])
        as (s' & Hrun & Hh & Hha & Ha & Hrd);
      [reflexivity|rewrite Hrun; intros Heq; inversion Heq; subst; clear Heq]
  end.

(** The part of [pgsp_allocate_plan] that runs under the lock, down to each
    of its leaves. *)
Ltac allocate_plan_leaves :=
  unfold bind at 1, get;
  destruct (register_rels _ _ _ _ _ _) as [[ok i] t] eqn:Erels;
  unfold bind at 1, modify;
  destruct ok; cbn [negb];
    [unfold bind at 1, get;
     destruct (register_invals _ _ _ _ _ _) as [[ok' tmp] t'] eqn:Einv;
     unfold bind at 1, modify;
     destruct ok'; cbn [negb];
     [destruct (0 <? Z.of_nat (length tmp)) eqn:Etmp;
      [unfold bind at 1, get;
       destruct (dsa_allocate_extended _ _ _) as [d area3];
       destruct (negb (dsa_valid d)); [|unfold bind at 1]|]|]|];
  use_tail.


(** X11: with the lock free at entry, [pgsp_allocate_plan] raises an error
    on one path only: the plan fits, the array of relations does not. *)
Lemma allocate_plan_raises_only_when_rels_do_not_fit
    bc g db items stmt k b f b' :
  held_lwlocks b = [] ->
  0 < dsa_next (pgsp_area b) ->
  pgsp_allocate_plan bc g db items stmt empty_context k b = Raised f b' ->
  f = LockNotHeld
  /\ nodeToString_len stmt + 1 <= dsa_room (pgsp_area b)
  /\ plan_relation_oids bc stmt <> []
  /\ dsa_room (pgsp_area b) - (nodeToString_len stmt + 1)
     < sizeof_Oid * Z.of_nat (length (plan_relation_oids bc stmt)).
Proof.
  intros Hheld Hnext. unfold pgsp_allocate_plan.
  unfold dsa_allocate_extended at 1.
  destruct (nodeToString_len stmt + 1 <=? dsa_room (pgsp_area b)) eqn:Efit.
  2:{ cbn. discriminate. }
  assert (Hv : dsa_valid (dsa_next (pgsp_area b)) = true)
    by (apply negb_true_iff, Z.eqb_neq; unfold InvalidDsaPointer; lia).
  assert (Hv1 : dsa_valid (dsa_next (pgsp_area b) + 1) = true)
    by (apply negb_true_iff, Z.eqb_neq; unfold InvalidDsaPointer; lia).
  rewrite Hv. cbn [negb].
  set (l := nodeToString_len stmt + 1) in *.
  set (oids := plan_relation_oids bc stmt).
  destruct (Z.of_nat (length oids) =? 0) eqn:En.
  - cbn [negb andb].
    unfold bind at 1. unfold LWLockAcquire at 1.
    cbn [held_lwlocks PGSP_USEDSMEM set_pgsp set_area]. rewrite Hheld.
    allocate_plan_leaves.
  - unfold dsa_allocate_extended at 1.
    cbn [pgsp_area PGSP_USEDSMEM set_pgsp set_area dsa_room dsa_next
         dsa_segments].
    destruct (sizeof_Oid * Z.of_nat (length oids)
              <=? dsa_room (pgsp_area b) - l) eqn:Efit2.
    2:{ cbn [negb andb dsa_valid]. unfold InvalidDsaPointer at 1.
        cbn [Z.eqb negb andb].
        unfold allocate_plan_free_plan, bind, modify, LWLockRelease.
        cbn [held_lwlocks free_dsmem PGSP_FREEDSMEM PGSP_USEDSMEM set_pgsp
             set_area].
        rewrite Hheld. intros [= <- _].
        apply Z.leb_le in Efit. apply Z.leb_gt in Efit2. apply Z.eqb_neq in En.
        repeat split; auto. intros E. apply En. fold oids in E. now rewrite E. }
    rewrite Hv1. cbn [negb andb].
    unfold bind at 1. unfold LWLockAcquire at 1.
    cbn [held_lwlocks PGSP_USEDSMEM set_pgsp set_area]. rewrite Hheld.
    allocate_plan_leaves.
Qed.

(* ----------------------------------------------------------------- *)
(** ** A failed insertion and the reverse index *)

Lemma cache_id_eqb_eq a b : cache_id_eqb a b = true <-> a = b.
Proof.
  destruct a, b; simpl; split; try congruence; try discriminate.
  - intros H. apply Z.eqb_eq in H. congruence.
  - intros [= ->]. apply Z.eqb_refl.
Qed.

Lemma rkey_eqb_eq a b : rkey_eqb a b = true <-> a = b.
Proof.
  unfold rkey_eqb, pgsp_rdepend_fn_compare. destruct a, b; simpl. split.
  - destruct (_ && _) eqn:E; [|discriminate]. intros _.
    apply andb_prop in E as [E E3]. apply andb_prop in E as [E1 E2].
    apply Z.eqb_eq in E1, E3. apply cache_id_eqb_eq in E2. congruence.
  - intros [= -> -> ->]. rewrite !Z.eqb_refl.
    rewrite (proj2 (cache_id_eqb_eq _ _) eq_refl). reflexivity.
Qed.

Lemma rkey_eqb_refl a : rkey_eqb a a = true.
Proof. now apply rkey_eqb_eq. Qed.

Lemma rdepend_find_put t rk ks rk' :
  rdepend_find (rdepend_put t rk ks) rk'
  = if rkey_eqb rk rk' then match ks with [] => None | _ => Some ks end
    else rdepend_find t rk'.
Proof.
  assert (H : forall t,
             rdepend_find (filter (fun p => negb (rkey_eqb (fst p) rk)) t) rk'
             = if rkey_eqb rk rk' then None else rdepend_find t rk').
  { clear t. induction t as [|[r l] t IH]; simpl.
    - now destruct (rkey_eqb rk rk').
    - unfold rdepend_find in *. simpl.
      destruct (rkey_eqb r rk) eqn:E1; simpl.
      + apply rkey_eqb_eq in E1. subst r. rewrite IH.
        destruct (rkey_eqb rk rk'); reflexivity.
      + destruct (rkey_eqb r rk') eqn:E2; simpl.
        * apply rkey_eqb_eq in E2. subst r.
          destruct (rkey_eqb rk rk') eqn:E3; [|reflexivity].
          apply rkey_eqb_eq in E3. subst rk'.
          rewrite (proj2 (rkey_eqb_eq rk rk) eq_refl) in E1. discriminate.
        * exact IH. }
  unfold rdepend_put. destruct ks as [|k0 ks].
  - rewrite H. reflexivity.
  - unfold rdepend_find at 1. cbn [find fst]. specialize (H t).
    unfold rdepend_find at 1 in H.
    destruct (rkey_eqb rk rk'); [reflexivity|exact H].
Qed.

Lemma register_registered rmax rk k t ok t' rk' :
  pgsp_entry_register_rdepend rmax rk k t = (ok, t') ->
  registered k rk' t' -> registered k rk' t \/ (ok = true /\ rk' = rk).
Proof.
  unfold pgsp_entry_register_rdepend.
  destruct (existsb _ _) eqn:E; [intros [= <- <-]; auto|].
  destruct (rmax <=? _); [intros [= <- <-]; auto|].
  intros [= <- <-]. intros (ks & Hf & Hk). rewrite rdepend_find_put in Hf.
  destruct (rkey_eqb rk rk') eqn:Er.
  - right. split; [reflexivity|]. symmetry. now apply rkey_eqb_eq.
  - left. exists ks. auto.
Qed.

Lemma unregister_registered rk k t rk' :
  registered k rk' (pgsp_entry_unregister_rdepend rk k t) ->
  registered k rk' t /\ rk' <> rk.
Proof.
  unfold pgsp_entry_unregister_rdepend.
  destruct (rdepend_find t rk) as [ks|] eqn:Ef.
  - intros (ks' & Hf & Hk). rewrite rdepend_find_put in Hf.
    destruct (rkey_eqb rk rk') eqn:Er.
    + exfalso. destruct (filter _ ks) eqn:Efl; [discriminate|].
      injection Hf as <-. rewrite <- Efl in Hk.
      apply existsb_exists in Hk as (x & Hx & Hkx).
      apply filter_In in Hx as [_ Hx]. now rewrite Hkx in Hx.
    + split; [exists ks'; auto|]. intros ->.
      rewrite (proj2 (rkey_eqb_eq rk rk) eq_refl) in Er. discriminate.
  - intros H. split; [exact H|]. intros ->.
    destruct H as (ks & Hf & _). congruence.
Qed.

Lemma register_rels_index rmax db k array : forall i t ok j t',
  register_rels rmax db k array i t = (ok, j, t') -> i <= j.
Proof.
  induction array as [|o rest IH]; intros i t ok j t'; cbn [register_rels].
  - intros [= _ <- _]. lia.
  - destruct (pgsp_entry_register_rdepend _ _ _ _) as [[] t1].
    + intros H. apply IH in H. lia.
    + intros [= _ <- _]. lia.
Qed.

Lemma register_rels_registered rmax db k array : forall i t ok j t' rk',
  register_rels rmax db k array i t = (ok, j, t') ->
  registered k rk' t' ->
  registered k rk' t
  \/ exists o, In o (firstn (Z.to_nat (j - i)) array)
               /\ rk' = mk_pgspRdependKey db RELOID o.
Proof.
  induction array as [|o rest IH]; intros i t ok j t' rk'; cbn [register_rels].
  - intros [= <- <- <-]. auto.
  - destruct (pgsp_entry_register_rdepend _ _ _ _) as [ok1 t1] eqn:E1.
    destruct ok1.
    + intros Hrec Hreg.
      assert (Hj := register_rels_index _ _ _ _ _ _ _ _ _ Hrec).
      destruct (IH _ _ _ _ _ _ Hrec Hreg) as [H|(o' & Hin & ->)].
      * destruct (register_registered _ _ _ _ _ _ _ E1 H) as [H'|[_ ->]];
          [now left|right].
        exists o. split; [|reflexivity].
        replace (Z.to_nat (j - i)) with (S (Z.to_nat (j - (i + 1)))) by lia.
        now left.
      * right. exists o'. split; [|reflexivity].
        replace (Z.to_nat (j - i)) with (S (Z.to_nat (j - (i + 1)))) by lia.
        now right.
    + intros [= <- <- <-] Hreg.
      destruct (register_registered _ _ _ _ _ _ _ E1 Hreg) as [H|[H _]];
        [now left|discriminate].
Qed.

Lemma unregister_rels_registered db k n array t rk' :
  registered k rk' (unregister_rels db k n array t) ->
  registered k rk' t
  /\ forall o, In o (firstn (Z.to_nat n) array) ->
               rk' <> mk_pgspRdependKey db RELOID o.
Proof.
  unfold unregister_rels. generalize (firstn (Z.to_nat n) array) as l.
  intros l. revert t. induction l as [|o l IH]; intros t; cbn [fold_left].
  - intros H. split; [exact H|]. intros o [].
  - intros H. apply IH in H as [H Hl].
    apply unregister_registered in H as [H Ho]. split; [exact H|].
    intros o' [<-|Hin]; auto.
Qed.

Lemma register_invals_registered rmax db k items : forall tmp t ok tmp' t' rk',
  register_invals rmax db k items tmp t = (ok, tmp', t') ->
  exists new,
    tmp' = tmp ++ new
    /\ new = firstn (length new) (handled_keys db items)
    /\ (registered k rk' t' -> registered k rk' t \/ In rk' new).
Proof.
  induction items as [|item rest IH]; intros tmp t ok tmp' t' rk';
    cbn [register_invals].
  - intros [= <- <- <-]. exists []. rewrite app_nil_r. auto.
  - unfold handled_keys. cbn [filter].
    destruct (PGSP_ITEM_NOT_HANDLED item); cbn [negb map].
    + apply IH.
    + fold (inval_key db item).
      destruct (pgsp_entry_register_rdepend _ _ _ _) as [ok1 t1] eqn:E1.
      destruct ok1.
      * intros Hrec.
        destruct (IH _ _ _ _ _ rk' Hrec) as (new & -> & Hnew & Hreg).
        exists (inval_key db item :: new). rewrite <- app_assoc.
        split; [reflexivity|]. split.
        { cbn [length firstn]. f_equal. exact Hnew. }
        intros H. destruct (Hreg H) as [H'|H']; [|right; now right].
        destruct (register_registered _ _ _ _ _ _ _ E1 H') as [H''|[_ ->]];
          [now left|right; now left].
      * intros [= <- <- <-]. exists []. rewrite app_nil_r.
        split; [reflexivity|]. split; [reflexivity|].
        intros H.
        destruct (register_registered _ _ _ _ _ _ _ E1 H) as [H'|[H' _]];
          [now left|discriminate].
Qed.

Lemma unregister_invals_registered db k nb items : forall i t rk',
  registered k rk' (unregister_invals db k nb items i t) ->
  registered k rk' t
  /\ forall rk, In rk (firstn (Z.to_nat (nb - i)) (handled_keys db items)) ->
                rk' <> rk.
Proof.
  induction items as [|item rest IH]; intros i t rk';
    cbn [unregister_invals].
  - intros H. split; [exact H|]. intros rk. rewrite firstn_nil. intros [].
  - unfold handled_keys. cbn [filter].
    destruct (PGSP_ITEM_NOT_HANDLED item); cbn [negb map].
    + apply IH.
    + fold (inval_key db item).
      destruct (nb <? i + 1) eqn:E.
      * intros H. apply unregister_registered in H as [H _].
        split; [exact H|]. apply Z.ltb_lt in E.
        replace (Z.to_nat (nb - i)) with O by lia. intros rk [].
      * intros H. apply IH in H as [H Hl].
        apply unregister_registered in H as [H Hne]. split; [exact H|].
        apply Z.ltb_ge in E.
        replace (Z.to_nat (nb - i)) with (S (Z.to_nat (nb - (i + 1)))) by lia.
        intros rk [<-|Hin]; auto.
Qed.

Lemma rels_unwinding rmax db k oids t0 ok i t1 t2 rk :
  register_rels rmax db k oids 0 t0 = (ok, i, t1) ->
  (registered k rk t2 -> registered k rk t1) ->
  registered k rk
    (if 0 <? Z.of_nat (length oids) then unregister_rels db k i oids t2
     else t2) ->
  registered k rk t0.
Proof.
  intros Hreg H21 H.
  assert (H2 : registered k rk t2
               /\ (0 < Z.of_nat (length oids) ->
                   forall o, In o (firstn (Z.to_nat i) oids) ->
                             rk <> mk_pgspRdependKey db RELOID o)).
  { destruct (0 <? Z.of_nat (length oids)) eqn:E.
    - apply unregister_rels_registered in H as [H Hl]. auto.
    - split; [exact H|]. apply Z.ltb_ge in E. lia. }
  destruct H2 as [H2 Hl].
  destruct (register_rels_registered _ _ _ _ _ _ _ _ _ rk Hreg (H21 H2))
    as [H0|(o & Hin & ->)]; [exact H0|].
  rewrite Z.sub_0_r in Hin. exfalso.
  apply (Hl ltac:(destruct oids; [now rewrite firstn_nil in Hin|simpl; lia])
            o Hin eq_refl).
Qed.

Lemma invals_unwinding rmax db k items t1 ok tmp t2 rk :
  register_invals rmax db k items [] t1 = (ok, tmp, t2) ->
  registered k rk
    (if 0 <? Z.of_nat (length tmp)
     then unregister_invals db k (Z.of_nat (length tmp)) items 0 t2
     else t2) ->
  registered k rk t1.
Proof.
  intros Hreg H.
  destruct (register_invals_registered _ _ _ _ _ _ _ _ _ rk Hreg)
    as (new & Htmp & Hnew & Hin).
  cbn [app] in Htmp. subst tmp.
  destruct (0 <? Z.of_nat (length new)) eqn:E.
  - apply unregister_invals_registered in H as [H Hl].
    destruct (Hin H) as [H1|H1]; [exact H1|]. exfalso.
    apply (Hl rk); [|reflexivity].
    rewrite Z.sub_0_r, Nat2Z.id, <- Hnew. exact H1.
  - destruct (Hin H) as [H1|H1]; [exact H1|].
    apply Z.ltb_ge in E. destruct new; [destruct H1|simpl in E; lia].
Qed.

Ltac finish_unwinding :=
  cbn [pgsp_rdepend set_rdepend emit set_held PGSP_USEDSMEM set_pgsp set_area
       negb andb ctx_num_rels ctx_set_rdeps ctx_set_rels ctx_set_plan]
    in *;
  cbv zeta;
  let H := fresh "H" in
  intros H;
  eapply rels_unwinding; [eassumption| |exact H];
  first [ exact (fun x => x)
        | let H2 := fresh "H" in
          intros H2; eapply invals_unwinding; [eassumption|exact H2] ].

(** A failed [pgsp_allocate_plan] leaves no registration of its own in the
    reverse index: whatever is still registered for the fingerprint was
    registered before the call. *)
Lemma allocate_plan_failure_unregisters bc g db items stmt k b c b' rk :
  held_lwlocks b = [] ->
  0 < dsa_next (pgsp_area b) ->
  pgsp_allocate_plan bc g db items stmt empty_context k b
  = Done (false, c) b' ->
  registered k rk (pgsp_rdepend b') -> registered k rk (pgsp_rdepend b).
Proof.
  intros Hheld Hnext. unfold pgsp_allocate_plan.
  unfold dsa_allocate_extended at 1.
  destruct (nodeToString_len stmt + 1 <=? dsa_room (pgsp_area b)) eqn:Efit.
  2:{ cbn. intros [= <- <-]. auto. }
  assert (Hv : dsa_valid (dsa_next (pgsp_area b)) = true)
    by (apply negb_true_iff, Z.eqb_neq; unfold InvalidDsaPointer; lia).
  assert (Hv1 : dsa_valid (dsa_next (pgsp_area b) + 1) = true)
    by (apply negb_true_iff, Z.eqb_neq; unfold InvalidDsaPointer; lia).
  rewrite Hv. cbn [negb].
  set (l := nodeToString_len stmt + 1) in *.
  set (oids := plan_relation_oids bc stmt).
  destruct (Z.of_nat (length oids) =? 0) eqn:En.
  - cbn [negb andb].
    unfold bind at 1. unfold LWLockAcquire at 1.
    cbn [held_lwlocks PGSP_USEDSMEM set_pgsp set_area]. rewrite Hheld.
    allocate_plan_leaves; rewrite Hrd; finish_unwinding.
  - unfold dsa_allocate_extended at 1.
    cbn [pgsp_area PGSP_USEDSMEM set_pgsp set_area dsa_room dsa_next
         dsa_segments].
    destruct (sizeof_Oid * Z.of_nat (length oids)
              <=? dsa_room (pgsp_area b) - l) eqn:Efit2.
    2:{ cbn [negb andb dsa_valid]. unfold InvalidDsaPointer at 1.
        cbn [Z.eqb negb andb].
        unfold allocate_plan_free_plan, bind, modify, LWLockRelease.
        cbn [held_lwlocks free_dsmem PGSP_FREEDSMEM PGSP_USEDSMEM set_pgsp
             set_area].
        rewrite Hheld. discriminate. }
    rewrite Hv1. cbn [negb andb].
    unfold bind at 1. unfold LWLockAcquire at 1.
    cbn [held_lwlocks PGSP_USEDSMEM set_pgsp set_area]. rewrite Hheld.
    allocate_plan_leaves; rewrite Hrd; finish_unwinding.
Qed.

(** A reverse-dependency entry that is full makes the insertion fail
    silently: with [rdepend_max = 1] and relation 100 already taken by
    another query, the plan is not cached, nothing is left allocated, and
    the request returns the planner's result. *)
Example saturated_rdepend_is_silent :
  exists b',
    pgsp_planner_hook production_build
      (mk_gucs false false true 100 10 1 4 0x1.47ae147ae147bp-9%float false)
      sample_host (mk_query 43 false false 0) (Some 0)
      (cached_backend sample_stmt 4)
    = Done sample_stmt b'
    /\ map key (pgsp_hash b') = [sample_key]
    /\ accounting b' = accounting (cached_backend sample_stmt 4)
    /\ pgsp_rdepend b' = pgsp_rdepend (cached_backend sample_stmt 4).
Proof. eexists. vm_compute. repeat split. Qed.

(* ================================================================= *)
(** * Further properties of the code *)

(* ----------------------------------------------------------------- *)
(** ** The hash of a key *)

(** X1: [pgsp_match_fn] answers 0 for equal keys only, and keys it matches
    have the same [pgsp_hash_fn], as dynahash requires, whatever the host's
    [hash_combine].  The hash sees the low 32 bits of [queryid] only: two
    keys that differ by a multiple of [2^32] in [queryid] hash alike, although
    they do not match. *)
Theorem pgsp_hash_fn_respects_match (hc : Z -> Z -> Z) (k1 k2 : pgspHashKey) :
  (pgsp_match_fn k1 k2 = 0 <-> k1 = k2)
  /\ (pgsp_match_fn k1 k2 = 0 -> pgsp_hash_fn hc k1 = pgsp_hash_fn hc k2)
  /\ (userid k1 = userid k2 -> dbid k1 = dbid k2 -> constid k1 = constid k2 ->
      queryid k1 mod 2 ^ 32 = queryid k2 mod 2 ^ 32 ->
      pgsp_hash_fn hc k1 = pgsp_hash_fn hc k2).
Proof.
  assert (Hm : pgsp_match_fn k1 k2 = 0 <-> k1 = k2).
  { rewrite <- key_eqb_eq. unfold key_eqb. apply iff_sym, Z.eqb_eq. }
  split; [exact Hm|]. split.
  - intros H. apply Hm in H. now subst.
  - intros Hu Hd Hc Hq. unfold pgsp_hash_fn, uint32_wrap.
    now rewrite Hu, Hd, Hc, Hq.
Qed.

(* ----------------------------------------------------------------- *)
(** ** The tranche search of [pgsp_shmem_startup] *)

Lemma guess_trancheid_spec nm first : forall fuel t,
  first <= t <= first + 51 ->
  (51 - (t - first) <= Z.of_nat fuel) ->
  (forall u, first <= u < t -> nm u = false) ->
  exists r, guess_trancheid nm first fuel t = Some r
    /\ first <= r <= first + 51
    /\ (r <> first -> nm r = true)
    /\ (forall u, first <= u <= first + 51 -> nm u = true ->
        r <= u /\ nm r = true).
Proof.
  induction fuel as [|fuel IH]; intros t Ht Hf Hlo; cbn [guess_trancheid].
  - destruct (nm t) eqn:E.
    + exists t. split; [reflexivity|]. split; [lia|]. split; [auto|].
      intros u Hu Hn. split; [|exact E].
      destruct (Z_lt_le_dec u t) as [Hlt|]; [|lia].
      rewrite Hlo in Hn by lia. discriminate.
    + assert (Hgt : (50 <? t - first) = true) by (apply Z.ltb_lt; lia).
      rewrite Hgt. exists first. split; [reflexivity|]. split; [lia|].
      split; [congruence|]. intros u Hu Hn. exfalso.
      destruct (Z.eq_dec u t) as [->|]; [congruence|].
      rewrite Hlo in Hn by lia. discriminate.
  - destruct (nm t) eqn:E.
    + exists t. split; [reflexivity|]. split; [lia|]. split; [auto|].
      intros u Hu Hn. split; [|exact E].
      destruct (Z_lt_le_dec u t) as [Hlt|]; [|lia].
      rewrite Hlo in Hn by lia. discriminate.
    + destruct (50 <? t - first) eqn:Hgt.
      * apply Z.ltb_lt in Hgt.
        exists first. split; [reflexivity|]. split; [lia|].
        split; [congruence|]. intros u Hu Hn. exfalso.
        destruct (Z.eq_dec u t) as [->|]; [congruence|].
        destruct (Z_lt_le_dec u t); [rewrite Hlo in Hn by lia; discriminate|].
        lia.
      * apply Z.ltb_ge in Hgt.
        apply IH; [lia|lia|].
        intros u Hu. destruct (Z.eq_dec u t) as [->|]; [exact E|].
        apply Hlo. lia.
Qed.

(** X2: the search ends, on an id between [LWTRANCHE_FIRST_USER_DEFINED]
    and 51 above it (the [Assert] that follows the loop); an id other than
    the first has the name of the tranche; and when one of these 52 ids has
    the name, the least of them is the answer. *)
Theorem guess_trancheid_least_match nm first :
  exists r, pgsp_guess_trancheid nm first = Some r
    /\ first <= r <= first + 51
    /\ (r <> first -> nm r = true)
    /\ (forall u, first <= u <= first + 51 -> nm u = true ->
        r <= u /\ nm r = true).
Proof.
  apply guess_trancheid_spec; [lia|lia|]. intros u Hu. lia.
Qed.

(* ----------------------------------------------------------------- *)
(** ** Eviction passes on a small table *)

(** X3: a pass over a table of at most ten entries removes them all. *)
Theorem entry_dealloc_empties_small_table (b : backend) :
  (length (pgsp_hash b) <= 10)%nat ->
  pgsp_hash (pgsp_entry_dealloc b) = []
  /\ dealloc (pgsp (pgsp_entry_dealloc b)) = dealloc (pgsp b) + 1.
Proof.
  intros Hn. split; [|apply entry_dealloc_session].
  rewrite entry_dealloc_hash.
  set (d := map decay (pgsp_hash b)).
  assert (Hv : victims d = qsort d).
  { unfold victims.
    replace (Z.to_nat (nvictims (Z.of_nat (length d)))) with (length (qsort d)).
    - apply firstn_all.
    - rewrite qsort_length. rewrite nvictims_spec by lia.
      assert (length d <= 10)%nat by (unfold d; now rewrite length_map).
      lia. }
  rewrite Hv.
  destruct (fold_left _ (qsort d) d) as [|e rest] eqn:E; [reflexivity|].
  exfalso.
  assert (Hin : In e (fold_left (fun h t => hash_remove h (key t)) (qsort d) d))
    by (rewrite E; now left).
  apply In_fold_hash_remove in Hin as [Hin Hall].
  rewrite Forall_forall in Hall.
  apply (Hall e); [|reflexivity].
  apply (Permutation_in e (Permutation_sym (qsort_perm d))). exact Hin.
Qed.

Lemma entry_dealloc_empties_small_table_witness :
  pgsp_hash (pgsp_entry_dealloc (full_backend 5 1%float)) = []
  /\ dealloc (pgsp (pgsp_entry_dealloc (full_backend 5 1%float)))
     = dealloc (pgsp (full_backend 5 1%float)) + 1.
Proof.
  apply (entry_dealloc_empties_small_table (full_backend 5 1%float)).
  vm_compute. lia.
Defined.

(* ----------------------------------------------------------------- *)
(** ** What [pgsp_allocate_plan] stores *)



Lemma register_rels_all rmax db k array : forall i t j t',
  register_rels rmax db k array i t = (true, j, t') ->
  j = i + Z.of_nat (length array).
Proof.
  induction array as [|o rest IH]; intros i t j t'; cbn [register_rels].
  - intros [= <- <-]. cbn. lia.
  - destruct (pgsp_entry_register_rdepend _ _ _ _) as [[] t1];
      [|discriminate].
    intros H. apply IH in H. cbn [length]. lia.
Qed.






(* ----------------------------------------------------------------- *)
(** ** Eviction by object: [pgsp_evict_by_oid] *)

Lemma hash_find_none h k :
  hash_find h k = None -> forall e, In e h -> key e <> k.
Proof.
  unfold hash_find. intros H e He Hk.
  apply (find_none _ _ H) in He. subst k. now rewrite key_eqb_refl in He.
Qed.

Lemma In_hash_update h k e' e :
  key e' = k ->
  In e (hash_update h k (fun _ => e')) ->
  (e = e' /\ key e = k) \/ (In e h /\ key e <> k).
Proof.
  intros Hk H. unfold hash_update in H. apply in_map_iff in H as (x & Hx & Hin).
  destruct (key_eqb (key x) k) eqn:E.
  - left. subst e. auto.
  - right. subst e. split; [exact Hin|]. now apply key_eqb_neq.
Qed.

Lemma evict_by_oid_run h db classid oid kind b :
  pgsp_evict_by_oid h db classid oid kind b
  = match classid with
    | OTHER_CACHE _ =>
        Raised RdependClassNotHandled (emit (EvEvictByOid classid oid kind) b)
    | _ =>
        Done tt (fold_left (fun b k => evict_entry kind k b)
                           (evicted_keys h db classid oid b)
                           (emit (EvEvictByOid classid oid kind) b))
    end.
Proof.
  unfold pgsp_evict_by_oid, evicted_keys, bind, modify, get, ret, raise.
  destruct classid; cbn [emit pgsp_rdepend];
    try (destruct (rdepend_find _ _); reflexivity).
  reflexivity.
Qed.

(** One step of a discard: the keys stay, the entries of [k] lose their
    plan, the others are untouched. *)
Lemma evict_entry_discard kind k b :
  kind = PGSP_DISCARD \/ kind = PGSP_DISCARD_AND_LOCK ->
  let b' := evict_entry kind k b in
  map key (pgsp_hash b') = map key (pgsp_hash b)
  /\ (forall e, In e (pgsp_hash b') -> key e = k -> dsa_valid (plan e) = false)
  /\ (forall e, In e (pgsp_hash b') -> key e <> k -> In e (pgsp_hash b))
  /\ pgsp_rdepend b' = pgsp_rdepend b.
Proof.
  intros Hkind. unfold evict_entry.
  destruct (hash_find (pgsp_hash b) k) as [e0|] eqn:Ef.
  2:{ cbv zeta. split; [reflexivity|]. split; [|split; [auto|reflexivity]].
      intros e He Hk. exfalso. exact (hash_find_none _ _ Ef e He Hk). }
  assert (Hk0 := hash_find_key _ _ _ Ef).
  assert (Hne : kind_eqb kind PGSP_UNLOCK = false
                /\ kind_eqb kind PGSP_EVICT = false)
    by (destruct Hkind; subst; auto).
  destruct Hne as [Hu He]. rewrite Hu, He.
  set (e1 := match kind with
             | PGSP_UNLOCK => _ | PGSP_DISCARD_AND_LOCK => _ | _ => e0 end).
  assert (Hk1 : key e1 = k) by (unfold e1; destruct kind; exact Hk0).
  destruct (dsa_valid (plan e1)) eqn:Ev; cbv zeta; cbn [pgsp_hash set_hash
    free_dsmem PGSP_FREEDSMEM set_pgsp set_area pgsp_rdepend].
  - split; [apply hash_update_keys; exact Hk1|].
    split; [|split; [|reflexivity]].
    + intros e Hin Hk.
      apply In_hash_update in Hin as [[-> _]|[_ Hn]]; [reflexivity|congruence|
        exact Hk1].
    + intros e Hin Hk.
      apply In_hash_update in Hin as [[_ Hn]|[Hin _]]; [congruence|exact Hin|
        exact Hk1].
  - split; [apply hash_update_keys; exact Hk1|].
    split; [|split; [|reflexivity]].
    + intros e Hin Hk.
      apply In_hash_update in Hin as [[-> _]|[_ Hn]]; [exact Ev|congruence|
        exact Hk1].
    + intros e Hin Hk.
      apply In_hash_update in Hin as [[_ Hn]|[Hin _]]; [congruence|exact Hin|
        exact Hk1].
Qed.

Lemma fold_evict_entry_discard kind ks : forall b,
  kind = PGSP_DISCARD \/ kind = PGSP_DISCARD_AND_LOCK ->
  let b' := fold_left (fun b k => evict_entry kind k b) ks b in
  map key (pgsp_hash b') = map key (pgsp_hash b)
  /\ (forall e, In e (pgsp_hash b') -> In (key e) ks ->
      dsa_valid (plan e) = false)
  /\ (forall e, In e (pgsp_hash b') -> ~ In (key e) ks -> In e (pgsp_hash b))
  /\ pgsp_rdepend b' = pgsp_rdepend b.
Proof.
  induction ks as [|k ks IH]; intros b Hkind; cbn [fold_left].
  - cbv zeta. repeat split; auto. intros e _ [].
  - destruct (IH (evict_entry kind k b) Hkind) as (Hkeys & Hin & Hout & Hrd).
    destruct (evict_entry_discard kind k b Hkind) as (Hkeys1 & Hin1 & Hout1 & Hrd1).
    cbv zeta. split; [congruence|]. split; [|split; [|congruence]].
    + intros e He [Hk|Hk].
      * destruct (in_dec (fun a b => Bool.reflect_dec _ _
                    (iff_reflect _ _ (iff_sym (key_eqb_eq a b)))) (key e) ks)
          as [Hi|Hni]; [now apply Hin|].
        apply Hout in He; [|exact Hni]. now apply Hin1.
      * now apply Hin.
    + intros e He Hn. apply Hout1.
      * apply Hout; [exact He|]. intros Hi. apply Hn. now right.
      * intros Hk. apply Hn. now left.
Qed.

(** X5: a discard ([PGSP_DISCARD] or [PGSP_DISCARD_AND_LOCK]) for an object
    of a handled class keeps every entry of the table, leaves without a plan
    each entry whose fingerprint the reverse index lists for the object, and
    does not touch the other entries nor the reverse index. *)
Theorem evict_by_oid_discards_plans h db classid oid kind b :
  kind = PGSP_DISCARD \/ kind = PGSP_DISCARD_AND_LOCK ->
  handled_class classid = true ->
  let ks := evicted_keys h db classid oid b in
  exists b',
    pgsp_evict_by_oid h db classid oid kind b = Done tt b'
    /\ map key (pgsp_hash b') = map key (pgsp_hash b)
    /\ (forall e, In e (pgsp_hash b') -> In (key e) ks ->
        plan e = InvalidDsaPointer)
    /\ (forall e, In e (pgsp_hash b') -> ~ In (key e) ks ->
        In e (pgsp_hash b))
    /\ pgsp_rdepend b' = pgsp_rdepend b
    /\ held_lwlocks b' = held_lwlocks b.
Proof.
  intros Hkind Hc ks. rewrite evict_by_oid_run.
  destruct (fold_evict_entry_discard kind ks
              (emit (EvEvictByOid classid oid kind) b) Hkind)
    as (Hkeys & Hin & Hout & Hrd).
  assert (Hs := fold_evict_entry_session kind ks
                  (emit (EvEvictByOid classid oid kind) b)).
  destruct classid; try discriminate Hc; eexists; (split; [reflexivity|]);
    (split; [exact Hkeys|]);
    (split; [intros e He Hk; specialize (Hin e He Hk);
             apply negb_false_iff, Z.eqb_eq in Hin; exact Hin|]);
    (split; [exact Hout|]); (split; [exact Hrd|]); apply (same_held _ _ Hs).
Qed.

Lemma evict_by_oid_discards_plans_witness :
  let ks := evicted_keys sample_host 1 RELOID 100
                         (cached_backend sample_stmt 4) in
  exists b',
    pgsp_evict_by_oid sample_host 1 RELOID 100 PGSP_DISCARD
                      (cached_backend sample_stmt 4) = Done tt b'
    /\ map key (pgsp_hash b') = map key (pgsp_hash (cached_backend sample_stmt 4))
    /\ (forall e, In e (pgsp_hash b') -> In (key e) ks ->
        plan e = InvalidDsaPointer)
    /\ (forall e, In e (pgsp_hash b') -> ~ In (key e) ks ->
        In e (pgsp_hash (cached_backend sample_stmt 4)))
    /\ pgsp_rdepend b' = pgsp_rdepend (cached_backend sample_stmt 4)
    /\ held_lwlocks b' = held_lwlocks (cached_backend sample_stmt 4).
Proof.
  apply (evict_by_oid_discards_plans sample_host 1 RELOID 100 PGSP_DISCARD
           (cached_backend sample_stmt 4));
    [left; reflexivity|reflexivity].
Defined.

Lemma evict_entry_evict k b :
  forall e, In e (pgsp_hash (evict_entry PGSP_EVICT k b))
            <-> In e (pgsp_hash b) /\ key e <> k.
Proof.
  intros e. unfold evict_entry.
  destruct (hash_find (pgsp_hash b) k) as [e0|] eqn:Ef.
  2:{ split; [|tauto]. intros H. split; [exact H|].
      exact (hash_find_none _ _ Ef e H). }
  assert (Hk0 := hash_find_key _ _ _ Ef).
  cbn [kind_eqb].
  destruct (dsa_valid (plan e0)); cbv zeta; rewrite entry_remove_hash;
    cbn [pgsp_hash set_hash free_dsmem PGSP_FREEDSMEM set_pgsp set_area key
         set_plan];
    rewrite In_hash_remove, Hk0; (split; intros [H Hn]; split; auto).
  - apply In_hash_update in H as [[_ ?]|[? _]]; [congruence|assumption|
      exact Hk0].
  - unfold hash_update. apply in_map_iff. exists e. split; [|exact H].
    apply key_eqb_neq in Hn. now rewrite Hn.
  - apply In_hash_update in H as [[_ ?]|[? _]]; [congruence|assumption|
      exact Hk0].
  - unfold hash_update. apply in_map_iff. exists e. split; [|exact H].
    apply key_eqb_neq in Hn. now rewrite Hn.
Qed.

Lemma fold_evict_entry_evict ks : forall b e,
  In e (pgsp_hash (fold_left (fun b k => evict_entry PGSP_EVICT k b) ks b))
  <-> In e (pgsp_hash b) /\ ~ In (key e) ks.
Proof.
  induction ks as [|k ks IH]; intros b e; cbn [fold_left].
  - cbn. tauto.
  - rewrite IH, evict_entry_evict. cbn [In]. intuition congruence.
Qed.

(** X6: [PGSP_EVICT] for an object of a handled class removes from the
    table exactly the entries whose fingerprint the reverse index lists for
    the object. *)
Theorem evict_by_oid_removes_entries h db classid oid b :
  handled_class classid = true ->
  let ks := evicted_keys h db classid oid b in
  exists b',
    pgsp_evict_by_oid h db classid oid PGSP_EVICT b = Done tt b'
    /\ (forall e, In e (pgsp_hash b')
                  <-> In e (pgsp_hash b) /\ ~ In (key e) ks)
    /\ held_lwlocks b' = held_lwlocks b.
Proof.
  intros Hc ks. rewrite evict_by_oid_run.
  assert (Hs := fold_evict_entry_session PGSP_EVICT ks
                  (emit (EvEvictByOid classid oid PGSP_EVICT) b)).
  destruct classid; try discriminate Hc; eexists; (split; [reflexivity|]);
    (split; [intros e;
             exact (fold_evict_entry_evict ks
                      (emit (EvEvictByOid _ oid PGSP_EVICT) b) e)|]);
    apply (same_held _ _ Hs).
Qed.

Lemma evict_by_oid_removes_entries_witness :
  let ks := evicted_keys sample_host 1 RELOID 100
                         (cached_backend sample_stmt 4) in
  exists b',
    pgsp_evict_by_oid sample_host 1 RELOID 100 PGSP_EVICT
                      (cached_backend sample_stmt 4) = Done tt b'
    /\ (forall e, In e (pgsp_hash b')
                  <-> In e (pgsp_hash (cached_backend sample_stmt 4))
                      /\ ~ In (key e) ks)
    /\ held_lwlocks b' = held_lwlocks (cached_backend sample_stmt 4).
Proof.
  apply (evict_by_oid_removes_entries sample_host 1 RELOID 100
           (cached_backend sample_stmt 4)).
  reflexivity.
Defined.

Lemma evict_entry_lockers kind k b :
  kind = PGSP_UNLOCK \/ kind = PGSP_DISCARD_AND_LOCK ->
  NoDup (map key (pgsp_hash b)) ->
  map key_lockers (pgsp_hash (evict_entry kind k b))
  = map (bump kind k) (map key_lockers (pgsp_hash b)).
Proof.
  intros Hkind Hnd. rewrite map_map. unfold evict_entry.
  destruct (hash_find (pgsp_hash b) k) as [e0|] eqn:Ef.
  2:{ apply map_ext_in. intros e He. unfold bump, key_lockers. cbn [fst snd].
      assert (Hn := hash_find_none _ _ Ef e He).
      apply key_eqb_neq in Hn. now rewrite Hn. }
  assert (Hk0 := hash_find_key _ _ _ Ef).
  assert (Hin0 := hash_find_In _ _ _ Ef).
  assert (Hupd : forall e2 b2,
            pgsp_hash b2 = pgsp_hash b ->
            key e2 = k -> lockers e2 = lockers_step kind (lockers e0) ->
            map key_lockers
              (pgsp_hash (set_hash b2 (hash_update (pgsp_hash b2) k
                                                   (fun _ => e2))))
            = map (fun x => bump kind k (key_lockers x)) (pgsp_hash b)).
  { intros e2 b2 Hb2 Hk2 Hl2. cbn [pgsp_hash set_hash]. rewrite Hb2.
    unfold hash_update. rewrite map_map. apply map_ext_in. intros e He.
    unfold bump, key_lockers. cbn [fst snd].
    destruct (key_eqb (key e) k) eqn:E; [|reflexivity].
    apply key_eqb_eq in E.
    assert (e = e0) by (apply (key_injective_on (pgsp_hash b)); congruence).
    subst e. congruence. }
  destruct Hkind as [-> | ->]; cbn [kind_eqb].
  - apply Hupd; auto.
  - destruct (dsa_valid (plan (set_lockers e0 _))); cbv zeta;
      apply Hupd; auto.
Qed.

Lemma evict_entry_keys kind k b :
  kind = PGSP_UNLOCK \/ kind = PGSP_DISCARD_AND_LOCK ->
  map key (pgsp_hash (evict_entry kind k b)) = map key (pgsp_hash b).
Proof.
  intros [-> | ->].
  - unfold evict_entry. destruct (hash_find _ _) eqn:Ef; [|reflexivity].
    cbn [kind_eqb pgsp_hash set_hash]. apply hash_update_keys.
    cbn. exact (hash_find_key _ _ _ Ef).
  - apply evict_entry_discard. now right.
Qed.

Lemma fold_evict_entry_lockers kind ks : forall b,
  kind = PGSP_UNLOCK \/ kind = PGSP_DISCARD_AND_LOCK ->
  NoDup (map key (pgsp_hash b)) ->
  let b' := fold_left (fun b k => evict_entry kind k b) ks b in
  map key (pgsp_hash b') = map key (pgsp_hash b)
  /\ map key_lockers (pgsp_hash b')
     = fold_left (fun pl k => map (bump kind k) pl) ks
                 (map key_lockers (pgsp_hash b)).
Proof.
  induction ks as [|k ks IH]; intros b Hkind Hnd; cbn [fold_left].
  - cbv zeta. auto.
  - assert (Hk := evict_entry_keys kind k b Hkind).
    destruct (IH (evict_entry kind k b) Hkind) as [Hkeys Hl];
      [now rewrite Hk|].
    cbv zeta. split; [congruence|].
    rewrite Hl, evict_entry_lockers by assumption. reflexivity.
Qed.

Lemma uint32_wrap_inc_dec l :
  uint32_wrap (uint32_wrap (l + 1) - 1) = uint32_wrap l.
Proof.
  unfold uint32_wrap. rewrite Zminus_mod_idemp_l. f_equal. lia.
Qed.

Lemma uint32_wrap_dec_inc l :
  uint32_wrap (uint32_wrap (l - 1) + 1) = uint32_wrap l.
Proof.
  unfold uint32_wrap. rewrite Zplus_mod_idemp_l. f_equal. lia.
Qed.

Lemma uint32_wrap_idem l : uint32_wrap (uint32_wrap l) = uint32_wrap l.
Proof. unfold uint32_wrap. apply Zmod_mod. Qed.

Lemma uint32_wrap_small l : 0 <= l < 2 ^ 32 -> uint32_wrap l = l.
Proof. intros H. unfold uint32_wrap. now apply Z.mod_small. Qed.

(** Locks and unlocks of any keys commute on a counter. *)
Lemma bump_commute k1 k2 (p : pgspHashKey * Z) :
  bump PGSP_UNLOCK k1 (bump PGSP_DISCARD_AND_LOCK k2 p)
  = bump PGSP_DISCARD_AND_LOCK k2 (bump PGSP_UNLOCK k1 p).
Proof.
  unfold bump. cbn [fst snd lockers_step].
  destruct (key_eqb (fst p) k1), (key_eqb (fst p) k2); try reflexivity.
  now rewrite uint32_wrap_inc_dec, uint32_wrap_dec_inc.
Qed.

Lemma fold_bump_map kind ks : forall pl,
  fold_left (fun pl k => map (bump kind k) pl) ks pl
  = map (fun p => fold_left (fun p k => bump kind k p) ks p) pl.
Proof.
  induction ks as [|k ks IH]; intros pl; cbn [fold_left].
  - now rewrite map_id.
  - rewrite IH, map_map. reflexivity.
Qed.

Lemma unlock_through_locks k ks : forall p,
  bump PGSP_UNLOCK k (fold_left (fun p k => bump PGSP_DISCARD_AND_LOCK k p) ks p)
  = fold_left (fun p k => bump PGSP_DISCARD_AND_LOCK k p) ks
              (bump PGSP_UNLOCK k p).
Proof.
  induction ks as [|k' ks IH]; intros p; cbn [fold_left]; [reflexivity|].
  now rewrite IH, bump_commute.
Qed.

Lemma locks_then_unlocks ks : forall p,
  0 <= snd p < 2 ^ 32 ->
  fold_left (fun p k => bump PGSP_UNLOCK k p) ks
    (fold_left (fun p k => bump PGSP_DISCARD_AND_LOCK k p) ks p) = p.
Proof.
  induction ks as [|k ks IH]; intros p Hp; cbn [fold_left]; [reflexivity|].
  rewrite unlock_through_locks.
  replace (bump PGSP_UNLOCK k (bump PGSP_DISCARD_AND_LOCK k p)) with p;
    [now apply IH|].
  unfold bump. cbn [fst snd lockers_step]. destruct p as [k' l]. cbn [fst snd].
  destruct (key_eqb k' k); [|reflexivity].
  rewrite uint32_wrap_inc_dec, uint32_wrap_small; auto.
Qed.

(** X7: locking the entries of an object ([PGSP_DISCARD_AND_LOCK]) and then
    unlocking them ([PGSP_UNLOCK]) leaves the lockers of every entry of the
    table as they were. *)
Theorem lock_then_unlock_restores_lockers h db classid oid b :
  handled_class classid = true ->
  NoDup (map key (pgsp_hash b)) ->
  (forall e, In e (pgsp_hash b) -> 0 <= lockers e < 2 ^ 32) ->
  exists b1 b2,
    pgsp_evict_by_oid h db classid oid PGSP_DISCARD_AND_LOCK b = Done tt b1
    /\ pgsp_evict_by_oid h db classid oid PGSP_UNLOCK b1 = Done tt b2
    /\ map key (pgsp_hash b2) = map key (pgsp_hash b)
    /\ map lockers (pgsp_hash b2) = map lockers (pgsp_hash b).
Proof.
  intros Hc Hnd Hrange.
  set (ks := evicted_keys h db classid oid b).
  set (ev1 := EvEvictByOid classid oid PGSP_DISCARD_AND_LOCK).
  set (ev2 := EvEvictByOid classid oid PGSP_UNLOCK).
  set (b1 := fold_left (fun b k => evict_entry PGSP_DISCARD_AND_LOCK k b) ks
                       (emit ev1 b)).
  assert (Hrd : pgsp_rdepend b1 = pgsp_rdepend b).
  { apply (fold_evict_entry_discard PGSP_DISCARD_AND_LOCK ks (emit ev1 b)).
    now right. }
  assert (Hks : evicted_keys h db classid oid b1 = ks).
  { unfold ks, evicted_keys. now rewrite Hrd. }
  set (b2 := fold_left (fun b k => evict_entry PGSP_UNLOCK k b) ks
                       (emit ev2 b1)).
  destruct (fold_evict_entry_lockers PGSP_DISCARD_AND_LOCK ks (emit ev1 b))
    as [Hk1 Hl1]; [now right|exact Hnd|].
  destruct (fold_evict_entry_lockers PGSP_UNLOCK ks (emit ev2 b1))
    as [Hk2 Hl2]; [now left|cbn [pgsp_hash emit]; fold b1 in Hk1;
                             now rewrite Hk1|].
  fold b1 in Hk1, Hl1. fold b2 in Hk2, Hl2.
  cbn [pgsp_hash emit] in Hk1, Hl1, Hk2, Hl2.
  exists b1, b2. rewrite !evict_by_oid_run, Hks.
  split; [destruct classid; try discriminate Hc; reflexivity|].
  split; [destruct classid; try discriminate Hc; reflexivity|].
  split; [congruence|].
  assert (Hkl : map key_lockers (pgsp_hash b2) = map key_lockers (pgsp_hash b)).
  { rewrite Hl2, Hl1, !fold_bump_map, map_map.
    rewrite <- (map_id (map key_lockers (pgsp_hash b))) at 2.
    apply map_ext_in. intros p Hp. apply locks_then_unlocks.
    apply in_map_iff in Hp as (e & <- & He). cbn. now apply Hrange. }
  apply (f_equal (map snd)) in Hkl. rewrite !map_map in Hkl. exact Hkl.
Qed.

Lemma lock_then_unlock_restores_lockers_witness :
  exists b1 b2,
    pgsp_evict_by_oid sample_host 1 RELOID 100 PGSP_DISCARD_AND_LOCK
                      (cached_backend sample_stmt 4) = Done tt b1
    /\ pgsp_evict_by_oid sample_host 1 RELOID 100 PGSP_UNLOCK b1 = Done tt b2
    /\ map key (pgsp_hash b2) = map key (pgsp_hash (cached_backend sample_stmt 4))
    /\ map lockers (pgsp_hash b2)
       = map lockers (pgsp_hash (cached_backend sample_stmt 4)).
Proof.
  apply (lock_then_unlock_restores_lockers sample_host 1 RELOID 100
           (cached_backend sample_stmt 4)).
  - reflexivity.
  - vm_compute. repeat constructor. intros [].
  - intros e [<-|[]]. cbn. lia.
Defined.

(* ----------------------------------------------------------------- *)
(** ** The requests of a utility statement *)

Lemma kind_eqb_eq a b : kind_eqb a b = true <-> a = b.
Proof. destruct a, b; cbn; split; congruence. Qed.

Lemma list_append_unique_oid_NoDup l o :
  NoDup l -> NoDup (list_append_unique_oid l o).
Proof.
  intros H. unfold list_append_unique_oid.
  destruct (existsb (Z.eqb o) l) eqn:E; [exact H|].
  apply NoDup_app; [exact H|repeat constructor; intros []|].
  intros x Hx [->|[]].
  assert (existsb (Z.eqb x) l = true)
    by (apply existsb_exists; exists x; split; [exact Hx|apply Z.eqb_refl]).
  congruence.
Qed.

Lemma list_concat_unique_oid_NoDup l2 : forall l1,
  NoDup l1 -> NoDup (list_concat_unique_oid l1 l2).
Proof.
  unfold list_concat_unique_oid.
  induction l2 as [|o l2 IH]; intros l1 H; cbn [fold_left]; [exact H|].
  apply IH. now apply list_append_unique_oid_NoDup.
Qed.

Lemma list_concat_unique_oid_nonempty l2 : forall l1,
  l1 <> [] \/ l2 <> [] -> list_concat_unique_oid l1 l2 <> [].
Proof.
  unfold list_concat_unique_oid.
  induction l2 as [|o l2 IH]; intros l1 H; cbn [fold_left].
  - destruct H; congruence.
  - apply IH. left. apply list_append_unique_oid_nonempty.
Qed.

Lemma existsb_map_in {A B} (f : A -> B) (p : B -> bool) l :
  existsb p (map f l) = existsb (fun x => p (f x)) l.
Proof. induction l as [|x l IH]; cbn; [reflexivity|now rewrite IH]. Qed.

Lemma existsb_ext_eq {A} (p q : A -> bool) l :
  (forall x, p x = q x) -> existsb p l = existsb q l.
Proof.
  intros H. induction l as [|x l IH]; cbn; [reflexivity|now rewrite H, IH].
Qed.

Lemma update_oids_entry_wf kind classid f h :
  (forall l, NoDup l -> f l <> [] /\ NoDup (f l)) ->
  NoDup (map bucket_key h) ->
  Forall (fun e => oids e <> [] /\ NoDup (oids e)) h ->
  NoDup (map bucket_key (update_oids_entry kind classid f h))
  /\ Forall (fun e => oids e <> [] /\ NoDup (oids e))
            (update_oids_entry kind classid f h)
  /\ forall kd,
       existsb (fun e => kind_eqb (oe_kind e) kd)
               (update_oids_entry kind classid f h)
       = kind_eqb kind kd
         || existsb (fun e => kind_eqb (oe_kind e) kd) h.
Proof.
  intros Hf Hnd Hall. unfold update_oids_entry.
  set (same := fun e => kind_eqb (oe_kind e) kind
                        && cache_id_eqb (oe_classid e) classid).
  destruct (existsb same h) eqn:Ex.
  - split; [|split].
    + rewrite map_map.
      replace (map _ h) with (map bucket_key h); [exact Hnd|].
      apply map_ext. intros e. cbv beta. destruct (_ && _); reflexivity.
    + apply Forall_map. apply Forall_impl with (2 := Hall).
      intros e [Hne Hn]. cbv beta. destruct (_ && _); cbn; auto.
    + intros kd. rewrite existsb_map_in.
      replace (existsb _ h)
        with (existsb (fun e => kind_eqb (oe_kind e) kd) h)
        by (apply existsb_ext_eq; intros e; cbv beta; destruct (_ && _); reflexivity).
      destruct (kind_eqb kind kd) eqn:Ek; [|reflexivity]. cbn.
      apply kind_eqb_eq in Ek. subst kd.
      apply existsb_exists in Ex as (e & He & Hs).
      apply existsb_exists. exists e. split; [exact He|].
      unfold same in Hs. now apply andb_prop in Hs.
  - split; [|split].
    + rewrite map_app. cbn [map bucket_key oe_kind oe_classid].
      apply NoDup_app; [exact Hnd|repeat constructor; intros []|].
      intros x Hx [<-|[]].
      apply in_map_iff in Hx as (e & Hk & He).
      assert (same e = true).
      { unfold same, bucket_key in *. injection Hk as -> ->.
        rewrite (proj2 (kind_eqb_eq _ _) eq_refl).
        now rewrite (proj2 (cache_id_eqb_eq _ _) eq_refl). }
      assert (existsb same h = true)
        by (apply existsb_exists; eauto).
      congruence.
    + apply Forall_app. split; [exact Hall|].
      constructor; [|constructor]. cbn. apply Hf. constructor.
    + intros kd. rewrite existsb_app. cbn [existsb oe_kind].
      rewrite orb_false_r. apply orb_comm.
Qed.

Ltac util_wf_step Hwf :=
  destruct Hwf as (Hnd & Hall & Hd & Hr & Hl & Hu);
  match goal with
  | |- util_wf (mk_util (update_oids_entry ?kind ?classid ?f ?h) _ _ _ _) =>
      let H := fresh "H" in
      assert (H : forall l, NoDup l -> f l <> [] /\ NoDup (f l));
      [|destruct (update_oids_entry_wf kind classid f h H Hnd Hall)
          as (Hnd' & Hall' & Hk');
        unfold util_wf, has_kind in *;
        cbn [oids_hash has_discard has_remove has_lock];
        rewrite !Hk'; cbn [kind_eqb orb]; repeat split; assumption]
  end.

Lemma discard_oid_wf classid oid c : util_wf c -> util_wf (discard_oid classid oid c).
Proof.
  intros Hwf. unfold discard_oid. destruct (negb (OidIsValid oid)); [exact Hwf|].
  util_wf_step Hwf. intros l Hl'. split;
    [apply list_append_unique_oid_nonempty|now apply list_append_unique_oid_NoDup].
Qed.

Lemma lock_oid_wf classid oid c : util_wf c -> util_wf (lock_oid classid oid c).
Proof.
  intros Hwf. unfold lock_oid. destruct (negb (OidIsValid oid)); [exact Hwf|].
  util_wf_step Hwf. intros l Hl'. split;
    [apply list_append_unique_oid_nonempty|now apply list_append_unique_oid_NoDup].
Qed.

Lemma remove_oid_wf classid oid c : util_wf c -> util_wf (remove_oid classid oid c).
Proof.
  intros Hwf. unfold remove_oid. destruct (negb (OidIsValid oid)); [exact Hwf|].
  util_wf_step Hwf. intros l Hl'. split;
    [apply list_append_unique_oid_nonempty|now apply list_append_unique_oid_NoDup].
Qed.

Lemma discard_oids_wf classid l c : util_wf c -> util_wf (discard_oids classid l c).
Proof.
  intros Hwf. unfold discard_oids. destruct l as [|o l]; [exact Hwf|].
  util_wf_step Hwf. intros l0 Hl'. split;
    [apply list_concat_unique_oid_nonempty; right; discriminate
    |now apply list_concat_unique_oid_NoDup].
Qed.

Lemma lock_oids_wf classid l c : util_wf c -> util_wf (lock_oids classid l c).
Proof.
  intros Hwf. unfold lock_oids. destruct l as [|o l]; [exact Hwf|].
  util_wf_step Hwf. intros l0 Hl'. split;
    [apply list_concat_unique_oid_nonempty; right; discriminate
    |now apply list_concat_unique_oid_NoDup].
Qed.

Lemma empty_util_wf : util_wf empty_util.
Proof. unfold util_wf, has_kind. cbn. repeat split; constructor. Qed.

Lemma drop_index_objects_wf concurrent hs : forall c,
  util_wf c -> util_wf (drop_index_objects concurrent hs c).
Proof.
  induction hs as [|o hs IH]; intros c Hwf; cbn [drop_index_objects];
    [exact Hwf|].
  destruct (negb (OidIsValid o)); [exact Hwf|].
  apply IH. destruct concurrent; [now apply lock_oid_wf|now apply discard_oid_wf].
Qed.

Lemma fold_remove_oid_wf classid l : forall c,
  util_wf c -> util_wf (fold_left (fun c o => remove_oid classid o c) l c).
Proof.
  induction l as [|o l IH]; intros c Hwf; cbn [fold_left]; [exact Hwf|].
  apply IH. now apply remove_oid_wf.
Qed.

Lemma pre_exec_wf s c : util_wf c -> util_wf (pgsp_utility_pre_exec s c).
Proof.
  intros Hwf. destruct s; cbn [pgsp_utility_pre_exec].
  - destruct (_ && _); [exact Hwf|now apply drop_index_objects_wf].
  - now apply fold_remove_oid_wf.
  - now apply fold_remove_oid_wf.
  - destruct in_xact_block; [exact Hwf|].
    destruct (OidIsValid reloid); [|exact Hwf].
    now apply lock_oids_wf, lock_oid_wf.
  - destruct (_ && _); [exact Hwf|].
    destruct (negb (OidIsValid heapoid)); [exact Hwf|].
    destruct concurrently; [now apply lock_oid_wf|now apply discard_oid_wf].
  - exact Hwf.
  - destruct Hwf as (? & ? & ? & ? & ? & ?). repeat split; assumption.
  - exact Hwf.
Qed.

Lemma post_exec_wf s c : util_wf c -> util_wf (pgsp_utility_post_exec s c).
Proof.
  intros Hwf. destruct s; cbn [pgsp_utility_post_exec]; try exact Hwf.
  destruct (OidIsValid oid); [|exact Hwf].
  now apply discard_oids_wf, discard_oid_wf.
Qed.

(** X8: the five functions that record a request keep [oids_hash] as the
    loops over it expect: one bucket per kind and class, no bucket empty (the
    [Assert] of [pgsp_utility_do_lock]), no oid twice in a bucket, and each
    flag set exactly when a bucket of its kind exists. *)
Theorem utility_requests_keep_buckets_well_formed
    (classid : cache_id) (oid : Oid) (l : list Oid) (c : pgspUtilityContext) :
  util_wf c ->
  util_wf (discard_oid classid oid c)
  /\ util_wf (discard_oids classid l c)
  /\ util_wf (lock_oid classid oid c)
  /\ util_wf (lock_oids classid l c)
  /\ util_wf (remove_oid classid oid c).
Proof.
  intros H.
  split; [now apply discard_oid_wf|].
  split; [now apply discard_oids_wf|].
  split; [now apply lock_oid_wf|].
  split; [now apply lock_oids_wf|now apply remove_oid_wf].
Qed.

Lemma utility_requests_keep_buckets_well_formed_witness :
  util_wf (discard_oid RELOID 100 empty_util)
  /\ util_wf (discard_oids RELOID [100; 101; 100] empty_util)
  /\ util_wf (lock_oid RELOID 100 empty_util)
  /\ util_wf (lock_oids RELOID [100; 101; 100] empty_util)
  /\ util_wf (remove_oid RELOID 100 empty_util).
Proof.
  apply (utility_requests_keep_buckets_well_formed RELOID 100 [100; 101; 100]
           empty_util).
  unfold util_wf, has_kind. cbn. repeat split; constructor.
Defined.

Lemma discard_oids_has_lock c l u :
  has_lock (discard_oids c l u) = has_lock u.
Proof. unfold discard_oids. now destruct l. Qed.

Lemma post_exec_has_lock s c :
  has_lock (pgsp_utility_post_exec s c) = has_lock c.
Proof.
  destruct s; cbn [pgsp_utility_post_exec]; try reflexivity.
  destruct (OidIsValid oid); [|reflexivity].
  now rewrite discard_oids_has_lock, discard_oid_has_lock.
Qed.

Lemma reset_current_db_ops classid oid l c :
  reset_current_db (discard_oid classid oid c) = reset_current_db c
  /\ reset_current_db (lock_oid classid oid c) = reset_current_db c
  /\ reset_current_db (remove_oid classid oid c) = reset_current_db c
  /\ reset_current_db (lock_oids classid l c) = reset_current_db c.
Proof.
  unfold discard_oid, lock_oid, remove_oid, lock_oids.
  destruct (negb (OidIsValid oid)), l; repeat split.
Qed.

Lemma drop_index_objects_reset concurrent hs : forall c,
  reset_current_db (drop_index_objects concurrent hs c) = reset_current_db c.
Proof.
  induction hs as [|o hs IH]; intros c; cbn [drop_index_objects];
    [reflexivity|].
  destruct (negb (OidIsValid o)); [reflexivity|]. rewrite IH.
  destruct concurrent; apply (reset_current_db_ops RELOID o []).
Qed.

Lemma fold_remove_oid_reset classid l : forall c,
  reset_current_db (fold_left (fun c o => remove_oid classid o c) l c)
  = reset_current_db c.
Proof.
  induction l as [|o l IH]; intros c; cbn [fold_left]; [reflexivity|].
  rewrite IH. apply (reset_current_db_ops classid o []).
Qed.

Lemma pre_exec_reset s :
  reset_current_db (pgsp_utility_pre_exec s empty_util) = true ->
  pgsp_utility_pre_exec s empty_util = mk_util [] false false false true.
Proof.
  destruct s; cbn [pgsp_utility_pre_exec].
  - destruct (_ && _); [discriminate|]. now rewrite drop_index_objects_reset.
  - now rewrite fold_remove_oid_reset.
  - now rewrite fold_remove_oid_reset.
  - destruct in_xact_block; [discriminate|].
    destruct (OidIsValid reloid); [|discriminate].
    rewrite (proj2 (proj2 (proj2 (reset_current_db_ops RELOID 0 ancestors _)))).
    now rewrite (proj1 (proj2 (reset_current_db_ops RELOID reloid [] _))).
  - destruct (_ && _); [discriminate|].
    destruct (negb (OidIsValid heapoid)); [discriminate|].
    destruct concurrently;
      [now rewrite (proj1 (proj2 (reset_current_db_ops RELOID heapoid [] _)))
      |now rewrite (proj1 (reset_current_db_ops RELOID heapoid [] _))].
  - discriminate.
  - reflexivity.
  - discriminate.
Qed.

(** X9: for every statement, what the pass before and the pass after the
    execution leave is well formed, and the assertions of
    [pgsp_utility_do_lock] and [pgsp_ProcessUtility] on the flags hold: lock
    requests come with no discard and no removal, and a reset of the
    database with no request at all. *)
Theorem utility_context_assertions_hold (s : utility_stmt) :
  let c := pgsp_utility_pre_exec s empty_util in
  let c' := pgsp_utility_post_exec s c in
  util_wf c /\ util_wf c'
  /\ (has_lock c = true -> has_discard c = false /\ has_remove c = false)
  /\ (reset_current_db c = true ->
      has_discard c = false /\ has_remove c = false /\ has_lock c = false)
  /\ (has_lock c' = true -> has_discard c' = false /\ has_remove c' = false).
Proof.
  cbv zeta.
  split; [apply pre_exec_wf, empty_util_wf|].
  split; [apply post_exec_wf, pre_exec_wf, empty_util_wf|].
  split; [|split].
  - intros H. destruct (lock_class_requests s H) as (l & _ & -> & _). auto.
  - intros H. rewrite (pre_exec_reset s H). auto.
  - rewrite post_exec_has_lock. intros H.
    destruct (lock_class_requests s H) as (l & _ & -> & ->). auto.
Qed.

(* ----------------------------------------------------------------- *)
(** ** The query walker *)

Section WalkerProofs.
Import QueryWalker.
Variable bc : build_config.
Variable wh : walker_host.

Lemma walker_unfold node ctx :
  pgsp_query_walker bc wh node ctx
  = match node with
    | T_Null => (false, ctx)
    | T_Query rtable limitOption resnames parts =>
        let (found, ctx1) := walk_rtable bc wh limitOption rtable ctx in
        if found then (true, ctx1)
        else tree_walker bc wh parts (walk_resnames wh resnames ctx1)
    | T_Const text =>
        (false, mk_walker_context
                  (hash_combine wh (wc_constid ctx) (hash_any wh text))
                  (wc_num_const ctx + 1))
    | T_FuncExpr funcid parts =>
        if negb (aclcheck_ok wh funcid) then (true, ctx)
        else tree_walker bc wh parts ctx
    | T_GroupingFunc agglevelsup parts =>
        tree_walker bc wh parts
          (if PG_VERSION_NUM bc <? 140000 then combine wh ctx agglevelsup
           else ctx)
    | T_XmlExpr name parts =>
        tree_walker bc wh parts
          (match name with Some n => combine_name wh ctx n | None => ctx end)
    | T_Param paramcollid => (false, combine wh ctx paramcollid)
    | T_Other parts => tree_walker bc wh parts ctx
    end.
Proof. destruct node; reflexivity. Qed.

Lemma walk_rtable_verdict lo rt : forall ctx,
  fst (walk_rtable bc wh lo rt ctx)
  = negb (forallb (fun r => negb (rte_rejected wh r)) rt).
Proof.
  induction rt as [|r rt IH]; intros ctx; cbn [walk_rtable forallb];
    [reflexivity|].
  destruct (rte_rejected wh r); cbn [negb andb fst]; [reflexivity|apply IH].
Qed.

Lemma tree_walker_verdict parts :
  Forall (fun n => forall ctx,
            fst (pgsp_query_walker bc wh n ctx) = negb (cacheable wh n)) parts ->
  forall ctx,
    fst (tree_walker bc wh parts ctx) = negb (forallb (cacheable wh) parts).
Proof.
  induction 1 as [|n parts Hn _ IH]; intros ctx; cbn [tree_walker forallb];
    [reflexivity|].
  specialize (Hn ctx).
  destruct (pgsp_query_walker bc wh n ctx) as [found ctx'].
  cbn [fst] in Hn. subst found.
  destruct (cacheable wh n); cbn [negb andb fst]; [apply IH|reflexivity].
Qed.

(** X12: the walker answers "not cacheable" exactly for the trees that hold
    a rejected relation (temporary, or with rules other than the single rule
    of a view) or a function the user may not execute, whatever the context
    it starts from. *)
Theorem query_walker_verdict (node : Node) (ctx : pgspWalkerContext) :
  fst (pgsp_query_walker bc wh node ctx) = negb (cacheable wh node).
Proof.
  revert ctx. induction node using Node_nested_ind; intros ctx;
    rewrite walker_unfold; cbn [cacheable]; try reflexivity.
  - pose proof (walk_rtable_verdict lo rt ctx) as Hrt.
    destruct (walk_rtable bc wh lo rt ctx) as [found ctx1].
    cbn [fst] in Hrt. subst found.
    destruct (forallb _ rt); cbn [negb andb fst]; [|reflexivity].
    now apply tree_walker_verdict.
  - destruct (aclcheck_ok wh f); cbn [negb andb fst]; [|reflexivity].
    now apply tree_walker_verdict.
  - now apply tree_walker_verdict.
  - now apply tree_walker_verdict.
  - now apply tree_walker_verdict.
Qed.

Lemma walked_walked ctx ws1 n1 ws2 n2 :
  walked wh (walked wh ctx ws1 n1) ws2 n2 = walked wh ctx (ws1 ++ ws2) (n1 + n2).
Proof.
  unfold walked. cbn [wc_constid wc_num_const]. rewrite fold_left_app.
  f_equal. lia.
Qed.

Lemma walked_nil ctx : walked wh ctx [] 0 = ctx.
Proof. destruct ctx. unfold walked. cbn. f_equal. lia. Qed.

Lemma fold_combine_name names : forall ctx,
  fold_left (combine_name wh) names ctx
  = walked wh ctx (map (hash_any wh) names) 0.
Proof.
  induction names as [|n names IH]; intros ctx; cbn [fold_left map].
  - now rewrite walked_nil.
  - rewrite IH. unfold walked, combine_name, combine. cbn. f_equal.
Qed.

Lemma combine_walked ctx v : combine wh ctx v = walked wh ctx [v] 0.
Proof. unfold combine, walked. cbn. f_equal. lia. Qed.

Lemma walk_rte_words lo r ctx :
  walk_rte bc wh lo r ctx = walked wh ctx (rte_words bc wh lo r) 0.
Proof.
  unfold walk_rte, rte_words. rewrite fold_combine_name.
  destruct (PG_VERSION_NUM bc <? 140000), (130000 <=? PG_VERSION_NUM bc);
    cbn [andb]; rewrite ?combine_walked, ?walked_walked; cbn [app Z.add];
    reflexivity.
Qed.

Lemma walk_rtable_words lo rt : forall ctx,
  forallb (fun r => negb (rte_rejected wh r)) rt = true ->
  walk_rtable bc wh lo rt ctx
  = (false, walked wh ctx (flat_map (rte_words bc wh lo) rt) 0).
Proof.
  induction rt as [|r rt IH]; intros ctx; cbn [walk_rtable forallb flat_map].
  - now rewrite walked_nil.
  - intros H. apply andb_prop in H as [Hr Hrt].
    apply negb_true_iff in Hr. rewrite Hr, IH by exact Hrt.
    now rewrite walk_rte_words, walked_walked.
Qed.

Lemma walk_resnames_words rn : forall ctx,
  walk_resnames wh rn ctx = walked wh ctx (resname_words wh rn) 0.
Proof.
  unfold walk_resnames, resname_words.
  induction rn as [|n rn IH]; intros ctx; cbn [fold_left flat_map].
  - now rewrite walked_nil.
  - rewrite IH. destruct n as [n|]; cbn [app].
    + unfold combine_name. now rewrite combine_walked, walked_walked.
    + reflexivity.
Qed.

Lemma tree_walker_words parts :
  Forall (fun n => forall ctx, cacheable wh n = true ->
            pgsp_query_walker bc wh n ctx
            = (false, walked wh ctx (hashed_words bc wh n) (count_const n)))
         parts ->
  forall ctx, forallb (cacheable wh) parts = true ->
    tree_walker bc wh parts ctx
    = (false, walked wh ctx (flat_map (hashed_words bc wh) parts)
                     (fold_right (fun n acc => count_const n + acc) 0 parts)).
Proof.
  induction 1 as [|n parts Hn _ IH]; intros ctx Hc;
    cbn [tree_walker forallb flat_map fold_right] in *.
  - now rewrite walked_nil.
  - apply andb_prop in Hc as [Hc1 Hc2].
    rewrite Hn, IH by assumption. now rewrite walked_walked.
Qed.

(** X13: on a tree it accepts, the walker leaves [num_const] increased by the
    number of Const nodes of the tree, and a constid that is the fold of
    [hash_combine] over the words of the tree in the order of the walk. *)
Theorem query_walker_context (node : Node) (ctx : pgspWalkerContext) :
  cacheable wh node = true ->
  pgsp_query_walker bc wh node ctx
  = (false, walked wh ctx (hashed_words bc wh node) (count_const node)).
Proof.
  revert ctx. induction node using Node_nested_ind; intros ctx Hc;
    rewrite walker_unfold; cbn [cacheable hashed_words count_const] in *.
  - now rewrite walked_nil.
  - apply andb_prop in Hc as [Hrt Hp].
    rewrite (walk_rtable_words lo rt ctx Hrt).
    rewrite walk_resnames_words, tree_walker_words by assumption.
    rewrite !walked_walked. reflexivity.
  - reflexivity.
  - apply andb_prop in Hc as [Hf Hp]. rewrite Hf. cbn [negb].
    now apply tree_walker_words.
  - rewrite tree_walker_words by assumption.
    destruct (PG_VERSION_NUM bc <? 140000);
      rewrite ?combine_walked, ?walked_walked; reflexivity.
  - rewrite tree_walker_words by assumption.
    destruct n; unfold combine_name;
      rewrite ?combine_walked, ?walked_walked; reflexivity.
  - now rewrite combine_walked.
  - now apply tree_walker_words.
Qed.

End WalkerProofs.

Lemma query_walker_context_witness :
  QueryWalker.pgsp_query_walker production_build sample_walker_host sample_tree
    (QueryWalker.mk_walker_context 0 0)
  = (false,
     walked sample_walker_host (QueryWalker.mk_walker_context 0 0)
            (hashed_words production_build sample_walker_host sample_tree)
            (count_const sample_tree)).
Proof.
  apply (query_walker_context production_build sample_walker_host sample_tree
           (QueryWalker.mk_walker_context 0 0)).
  reflexivity.
Defined.

(** The sample tree has two constants; with relation 900, which is
    temporary, in a sub-query, the walker rejects it. *)
Example sample_tree_walk :
  QueryWalker.wc_num_const
    (snd (QueryWalker.pgsp_query_walker production_build sample_walker_host
            sample_tree (QueryWalker.mk_walker_context 0 0))) = 2
  /\ fst (QueryWalker.pgsp_query_walker production_build sample_walker_host
            (QueryWalker.T_Other
               [sample_tree;
                QueryWalker.T_Query
                  [QueryWalker.mk_walked_rte (mk_rte RTE_RELATION 900)
                                             true []] 0 [] []])
            (QueryWalker.mk_walker_context 0 0)) = true.
Proof. split; reflexivity. Qed.

(* ----------------------------------------------------------------- *)
(** ** Locks for the execution of a cached plan *)

Lemma In_list_append_unique_oid l o x :
  In x (list_append_unique_oid l o) <-> In x l \/ x = o.
Proof.
  unfold list_append_unique_oid.
  destruct (existsb (Z.eqb o) l) eqn:E.
  - split; [auto|]. intros [H| ->]; [exact H|].
    apply existsb_exists in E as (y & Hy & Ey).
    apply Z.eqb_eq in Ey. now subst.
  - rewrite in_app_iff. cbn. intuition.
Qed.

Lemma plan_relation_oids_fold bc stmt :
  plan_relation_oids bc stmt
  = fold_left (fun oids rte =>
                 if plan_dependency bc rte
                 then list_append_unique_oid oids (relid rte) else oids)
              (rtable stmt) [].
Proof.
  unfold plan_relation_oids. generalize (@nil Oid).
  induction (rtable stmt) as [|r l IH]; intros init; cbn [fold_left];
    [reflexivity|].
  rewrite IH. f_equal. unfold plan_dependency.
  destruct (rtekind r), (160000 <=? PG_VERSION_NUM bc),
    (OidIsValid (relid r)); reflexivity.
Qed.

Lemma In_plan_relation_oids bc stmt o :
  In o (plan_relation_oids bc stmt)
  <-> exists rte, In rte (rtable stmt) /\ plan_dependency bc rte = true
                  /\ relid rte = o.
Proof.
  rewrite plan_relation_oids_fold.
  assert (H : forall l init,
    In o (fold_left (fun oids rte =>
                       if plan_dependency bc rte
                       then list_append_unique_oid oids (relid rte) else oids)
                    l init)
    <-> In o init \/ exists rte, In rte l /\ plan_dependency bc rte = true
                                 /\ relid rte = o).
  { induction l as [|r l IH]; intros init; cbn [fold_left].
    - split; [auto|]. intros [H|(r & [] & _)]. exact H.
    - rewrite IH. destruct (plan_dependency bc r) eqn:Ed.
      + rewrite In_list_append_unique_oid. split.
        * intros [[H| ->]|(r' & Hr' & Hd & Ho)]; auto.
          -- right. exists r. cbn. auto.
          -- right. exists r'. cbn. auto.
        * intros [H|(r' & [<-|Hr'] & Hd & Ho)]; auto.
          right. eauto.
      + split.
        * intros [H|(r' & Hr' & Hd & Ho)]; auto.
          right. exists r'. cbn. auto.
        * intros [H|(r' & [<-|Hr'] & Hd & Ho)]; auto; [congruence|].
          right. eauto. }
  rewrite H. cbn. intuition.
Qed.

(** X14: for a plan that is not a utility statement, every relation
    [pgsp_acquire_executor_locks] locks is one of the relations
    [pgsp_allocate_plan] registers the plan under, and releasing visits the
    same relations as acquiring, in the same order. *)
Theorem executor_locks_are_registered_dependencies
    (bc : build_config) (rellockmode : RangeTblEntry -> Z)
    (scan : PlannedStmt -> bool -> list lock_call)
    (stmt : PlannedStmt) (acquire : bool) :
  commandType stmt <> CMD_UTILITY ->
  (forall c,
     In c (pgsp_acquire_executor_locks rellockmode scan stmt acquire) ->
     In (locked_relation c) (plan_relation_oids bc stmt))
  /\ map locked_relation
         (pgsp_acquire_executor_locks rellockmode scan stmt false)
     = map locked_relation
           (pgsp_acquire_executor_locks rellockmode scan stmt true).
Proof.
  intros Hcmd. unfold pgsp_acquire_executor_locks. split.
  - intros c Hc.
    assert (Hin : In c (flat_map
              (fun rte =>
                 match rtekind rte with
                 | RTE_RELATION =>
                     [if acquire
                      then LockRelationOid (relid rte) (rellockmode rte)
                      else UnlockRelationOid (relid rte) (rellockmode rte)]
                 | _ => []
                 end) (rtable stmt)))
      by (destruct (commandType stmt); [exact Hc|congruence|exact Hc]).
    apply in_flat_map in Hin as (rte & Hrte & Hc').
    apply In_plan_relation_oids. exists rte.
    destruct (rtekind rte) eqn:Ek; try contradiction.
    destruct Hc' as [<-|[]].
    split; [exact Hrte|]. unfold plan_dependency. rewrite Ek.
    split; [reflexivity|]. now destruct acquire.
  - destruct (commandType stmt); try congruence;
      induction (rtable stmt) as [|rte l IH]; cbn [flat_map]; try reflexivity;
      rewrite !map_app, IH; f_equal; destruct (rtekind rte); reflexivity.
Qed.

Lemma executor_locks_are_registered_dependencies_witness :
  (forall c,
     In c (pgsp_acquire_executor_locks (fun _ => 1) (fun _ _ => [])
                                       sample_stmt true) ->
     In (locked_relation c) (plan_relation_oids production_build sample_stmt))
  /\ map locked_relation
         (pgsp_acquire_executor_locks (fun _ => 1) (fun _ _ => [])
                                      sample_stmt false)
     = map locked_relation
           (pgsp_acquire_executor_locks (fun _ => 1) (fun _ _ => [])
                                        sample_stmt true).
Proof.
  apply (executor_locks_are_registered_dependencies production_build
           (fun _ => 1) (fun _ _ => []) sample_stmt true).
  discriminate.
Defined.

(* ----------------------------------------------------------------- *)
(** ** The failures of [pgsp_allocate_plan], on sample states *)


Lemma allocate_plan_raises_only_when_rels_do_not_fit_witness :
  exists f b',
    pgsp_allocate_plan production_build guc_defaults 1 [] sample_stmt
      empty_context sample_key (fresh_backend 23) = Raised f b'
    /\ f = LockNotHeld
    /\ nodeToString_len sample_stmt + 1 <= dsa_room (pgsp_area (fresh_backend 23))
    /\ plan_relation_oids production_build sample_stmt <> []
    /\ dsa_room (pgsp_area (fresh_backend 23)) - (nodeToString_len sample_stmt + 1)
       < sizeof_Oid
         * Z.of_nat (length (plan_relation_oids production_build sample_stmt)).
Proof.
  eexists. eexists. split; [vm_compute; reflexivity|].
  eapply (allocate_plan_raises_only_when_rels_do_not_fit production_build
           guc_defaults 1 [] sample_stmt sample_key (fresh_backend 23));
    vm_compute; reflexivity.
Defined.

(* ----------------------------------------------------------------- *)
(** ** When a reset clears the statistics *)

Lemma filter_length_all {A} (f : A -> bool) l :
  length (filter f l) = length l <-> forallb f l = true.
Proof.
  induction l as [|x l IH]; cbn [filter forallb length]; [tauto|].
  destruct (f x); cbn [andb length].
  - rewrite <- IH. split; [now intros [=]|now intros ->].
  - split; [|discriminate]. intros H.
    pose proof (filter_length_le f l). lia.
Qed.

(** X15: [pg_shared_plans_reset_internal] returns with the lock released;
    it resets the global statistics ([dealloc] to 0, [stats_reset] to the
    current time) exactly when every entry of the table matches the filter,
    and the table is then empty; otherwise both statistics stay as they
    were. *)
Theorem reset_statistics (h : host) (u d : Oid) (q : Z) (b : backend) :
  held_lwlocks b = [] ->
  exists b',
    pg_shared_plans_reset_internal h u d q b = Done tt b'
    /\ held_lwlocks b' = []
    /\ (if forallb (reset_matches u d q) (pgsp_hash b)
        then pgsp_hash b' = []
             /\ dealloc (pgsp b') = 0
             /\ stats_reset (pgsp b') = GetCurrentTimestamp h
        else dealloc (pgsp b') = dealloc (pgsp b)
             /\ stats_reset (pgsp b') = stats_reset (pgsp b)).
Proof.
  intros Hl.
  unfold pg_shared_plans_reset_internal, bind, modify, LWLockAcquire,
    LWLockRelease.
  rewrite Hl. cbn [pgsp_hash emit set_held held_lwlocks].
  set (b0 := emit (EvAcquire LW_EXCLUSIVE) (set_held b [LW_EXCLUSIVE])).
  set (targets := reset_targets u d q (pgsp_hash b)).
  set (b1 := fold_left (fun b e => pgsp_entry_remove e b) targets b0).
  assert (Hs : same_session b0 b1) by apply fold_entry_remove_session.
  assert (Hh : pgsp_hash b1
               = fold_left (fun h e => hash_remove h (key e)) targets
                           (pgsp_hash b))
    by apply (fold_entry_remove_hash targets b0).
  assert (Hall : (hash_get_num_entries (pgsp_hash b)
                  =? Z.of_nat (length targets))
                 = forallb (reset_matches u d q) (pgsp_hash b)).
  { unfold hash_get_num_entries, targets, reset_targets.
    destruct (negb (u =? 0) || negb (d =? 0) || negb (q =? 0)) eqn:Ef.
    - destruct (forallb _ _) eqn:Ea.
      + apply filter_length_all in Ea. rewrite Ea. apply Z.eqb_refl.
      + apply Z.eqb_neq. intros E. apply Nat2Z.inj in E. symmetry in E.
        apply filter_length_all in E. congruence.
    - rewrite Z.eqb_refl. symmetry. apply forallb_forall. intros e _.
      unfold reset_matches.
      apply orb_false_iff in Ef as [Ef Eq]. apply orb_false_iff in Ef as [Eu Ed].
      apply negb_false_iff in Eu, Ed, Eq. now rewrite Eu, Ed, Eq. }
  rewrite Hall.
  destruct (forallb (reset_matches u d q) (pgsp_hash b)) eqn:Ea.
  - cbn [held_lwlocks set_pgsp]. rewrite (same_held _ _ Hs).
    cbn [held_lwlocks b0 set_held emit set_pgsp].
    eexists. split; [reflexivity|]. split; [reflexivity|].
    cbn [pgsp_hash emit set_held set_pgsp pgsp dealloc stats_reset set_dealloc].
    split; [|auto].
    rewrite Hh.
    destruct (fold_left _ targets (pgsp_hash b)) as [|e rest] eqn:E;
      [reflexivity|exfalso].
    assert (Hin : In e (fold_left (fun h t => hash_remove h (key t)) targets
                                  (pgsp_hash b))) by (rewrite E; now left).
    apply In_fold_hash_remove in Hin as [Hin Hno].
    rewrite Forall_forall in Hno. apply (Hno e); [|reflexivity].
    apply reset_targets_In. split; [exact Hin|].
    rewrite forallb_forall in Ea. now apply Ea.
  - rewrite (same_held _ _ Hs). cbn [held_lwlocks b0 set_held emit].
    eexists. split; [reflexivity|]. split; [reflexivity|].
    cbn [pgsp emit set_held].
    rewrite (same_dealloc _ _ Hs), (same_stats_reset _ _ Hs). auto.
Qed.

Lemma reset_statistics_witness :
  exists b',
    pg_shared_plans_reset_internal sample_host 0 2 0
      (cached_backend sample_stmt 4) = Done tt b'
    /\ pgsp_hash b' = pgsp_hash (cached_backend sample_stmt 4)
    /\ stats_reset (pgsp b') = stats_reset (pgsp (cached_backend sample_stmt 4)).
Proof.
  destruct (reset_statistics sample_host 0 2 0 (cached_backend sample_stmt 4))
    as (b' & Hrun & _ & Hstats); [reflexivity|].
  exists b'. split; [exact Hrun|].
  split; [|exact (proj2 Hstats)].
  vm_compute in Hrun. injection Hrun as <-. reflexivity.
Defined.

(* ----------------------------------------------------------------- *)
(** ** The lock is released on return *)

Lemma reset_returns_lock_free h u d q b :
  held_lwlocks b = [] ->
  exists b', pg_shared_plans_reset_internal h u d q b = Done tt b'
             /\ held_lwlocks b' = [].
Proof.
  intros Hl.
  unfold pg_shared_plans_reset_internal, bind, modify, LWLockAcquire,
    LWLockRelease.
  rewrite Hl. cbn [pgsp_hash emit set_held held_lwlocks].
  set (b0 := emit (EvAcquire LW_EXCLUSIVE) (set_held b [LW_EXCLUSIVE])).
  set (b1 := fold_left _ _ b0).
  assert (Hs : same_session b0 b1) by apply fold_entry_remove_session.
  destruct (_ =? _); cbn [held_lwlocks set_pgsp]; rewrite (same_held _ _ Hs);
    cbn [held_lwlocks b0 set_held emit]; eexists; split; reflexivity.
Qed.

Lemma allocate_plan_returns_lock_free bc g db items stmt k b r c b' :
  held_lwlocks b = [] ->
  pgsp_allocate_plan bc g db items stmt empty_context k b = Done (r, c) b' ->
  held_lwlocks b' = [].
Proof.
  intros Hheld. unfold pgsp_allocate_plan.
  destruct (dsa_allocate_extended (pgsp_area b) _ _) as [p area1].
  destruct (negb (dsa_valid p)); [now intros [= _ _ <-]|].
  cbv zeta.
  set (oids := plan_relation_oids bc stmt).
  destruct (Z.of_nat (length oids) =? 0) eqn:En.
  - cbn [negb andb].
    unfold bind at 1. unfold LWLockAcquire at 1.
    cbn [held_lwlocks PGSP_USEDSMEM set_pgsp set_area]. rewrite Hheld.
    allocate_plan_leaves; exact Hh.
  - destruct (dsa_allocate_extended _ _ (OidArray oids)) as [r0 area2].
    destruct (negb (dsa_valid r0)); cbn [negb andb].
    { unfold allocate_plan_free_plan, bind, modify, LWLockRelease.
      cbn [held_lwlocks free_dsmem PGSP_FREEDSMEM PGSP_USEDSMEM set_pgsp
           set_area].
      rewrite Hheld. discriminate. }
    unfold bind at 1. unfold LWLockAcquire at 1.
    cbn [held_lwlocks PGSP_USEDSMEM set_pgsp set_area]. rewrite Hheld.
    allocate_plan_leaves; exact Hh.
Qed.

Lemma accum_custom_plan_returns k cost b :
  held_lwlocks b = [] ->
  exists b', pgsp_accum_custom_plan k cost b = Done tt b'
             /\ held_lwlocks b' = [].
Proof.
  intros H. unfold pgsp_accum_custom_plan, bind, modify, LWLockAcquire,
    LWLockRelease. rewrite H. cbn [held_lwlocks emit set_held set_hash].
  eexists. split; reflexivity.
Qed.

Lemma cache_plan_releases bc g h parse custom generic k plantime nc b b' :
  0 < pgsp_max g ->
  held_lwlocks b = [] ->
  pgsp_cache_plan bc g h parse custom generic k plantime nc b = Done tt b' ->
  held_lwlocks b' = [].
Proof.
  intros Hmax Hl. unfold pgsp_cache_plan. unfold bind at 1.
  destruct (pgsp_allocate_plan _ _ _ _ _ _ _ b) as [[ok c] b1|f b1] eqn:Ea;
    [|discriminate].
  assert (Hl1 := allocate_plan_returns_lock_free _ _ _ _ _ _ _ _ _ _ Hl Ea).
  destruct ok; cbn [negb].
  - unfold bind at 1. unfold LWLockAcquire. rewrite Hl1.
    unfold bind at 1.
    match goal with |- context [pgsp_entry_alloc ?g ?db ?k ?c ?pt ?nc ?cc ?gc ?s] =>
      destruct (entry_alloc_capacity g db k c pt nc cc gc s Hmax)
        as (e & c' & b2 & Hrun & _ & Hh)
    end.
    rewrite Hrun. unfold LWLockRelease. rewrite Hh.
    cbn [held_lwlocks emit set_held]. now intros [= <-].
  - now intros [= <-].
Qed.

Lemma plan_and_save_releases bc g h parse bp k nc entry_null accum m b r b' :
  0 < pgsp_max g ->
  held_lwlocks b = [m] ->
  plan_and_save bc g h parse bp k nc entry_null accum b = Done r b' ->
  held_lwlocks b' = [].
Proof.
  intros Hmax Hl. unfold plan_and_save. unfold bind at 1.
  unfold LWLockRelease. rewrite Hl.
  set (b0 := emit EvRelease (set_held b [])).
  assert (Hl0 : held_lwlocks b0 = []) by reflexivity.
  destruct (entry_null && _).
  - unfold bind at 1.
    destruct (pgsp_cache_plan _ _ _ _ _ _ _ _ _ b0) as [[] b1|f b1] eqn:Ec;
      [|discriminate].
    intros [= _ <-]. exact (cache_plan_releases _ _ _ _ _ _ _ _ _ _ _
                              Hmax Hl0 Ec).
  - destruct accum.
    + unfold bind at 1.
      destruct (accum_custom_plan_returns k
                  (pgsp_cached_plan_cost h (host_planner h parse bp) true)
                  b0 Hl0) as (b1 & -> & Hl1).
      now intros [= _ <-].
    + now intros [= _ <-].
Qed.

Lemma planner_hook_releases bc g h parse bp b r b' :
  0 < pgsp_max g ->
  held_lwlocks b = [] ->
  pgsp_planner_hook bc g h parse bp b = Done r b' ->
  held_lwlocks b' = [].
Proof.
  intros Hmax Hl. unfold pgsp_planner_hook.
  destruct (hook_bypassed bc g parse bp); [now intros [= _ <-]|].
  destruct (utilityStmt parse); [now intros [= _ <-]|].
  destruct (pgsp_query_walker h parse) as [[nonc cid] nc].
  destruct nonc; [now intros [= _ <-]|].
  unfold bind at 1. unfold LWLockAcquire. rewrite Hl.
  unfold bind at 1, get.
  set (b0 := emit (EvAcquire LW_SHARED) (set_held b [LW_SHARED])).
  assert (Hl0 : held_lwlocks b0 = [LW_SHARED]) by reflexivity.
  destruct (hash_find (pgsp_hash b0) _) as [e|].
  2:{ apply (plan_and_save_releases _ _ _ _ _ _ _ _ _ _ _ _ _ Hmax Hl0). }
  destruct (negb (dsa_valid (plan e))).
  { apply (plan_and_save_releases _ _ _ _ _ _ _ _ _ _ _ _ _ Hmax Hl0). }
  destruct (pgsp_choose_cache_plan g e false) as [[use accum] e'].
  unfold bind at 1, modify.
  set (b1 := set_hash b0 _).
  assert (Hl1 : held_lwlocks b1 = [LW_SHARED]) by reflexivity.
  destruct use.
  2:{ apply (plan_and_save_releases _ _ _ _ _ _ _ _ _ _ _ _ _ Hmax Hl1). }
  destruct (dsa_get_address (pgsp_area b0) (plan e)) as [[stored| |]|];
    try discriminate.
  unfold bind at 1. unfold LWLockRelease at 1. rewrite Hl1.
  unfold bind at 1. cbn [held_lwlocks emit set_held].
  unfold bind at 1.
  unfold bind at 1. unfold LWLockRelease at 1.
  cbn [held_lwlocks emit set_held].
  match goal with |- context [match ?sv with Some _ => _ | None => _ end] =>
    destruct sv as [bypass|] end.
  - now intros [= _ <-].
  - unfold plan_and_save. unfold bind at 1. unfold LWLockRelease.
    cbn [held_lwlocks emit set_held]. discriminate.
Qed.

Lemma evict_by_oid_keeps_lock h db classid oid kind b b' :
  pgsp_evict_by_oid h db classid oid kind b = Done tt b' ->
  held_lwlocks b' = held_lwlocks b.
Proof.
  rewrite evict_by_oid_run.
  destruct classid; try discriminate; intros [= <-];
    exact (same_held _ _
             (fold_evict_entry_session kind _
                (emit (EvEvictByOid _ oid kind) b))).
Qed.

Lemma for_each_keeps_lock {A} (f : A -> M unit) l :
  (forall x b b', f x b = Done tt b' -> held_lwlocks b' = held_lwlocks b) ->
  forall b b', for_each l f b = Done tt b' ->
               held_lwlocks b' = held_lwlocks b.
Proof.
  intros Hf. induction l as [|x l IH]; intros b b'; cbn [for_each].
  - now intros [= <-].
  - unfold bind. destruct (f x b) as [[] b1|] eqn:E; [|discriminate].
    intros H. rewrite (IH _ _ H). now apply (Hf x).
Qed.

Lemma process_utility_releases h s b b' :
  held_lwlocks b = [] ->
  pgsp_ProcessUtility h s b = Done tt b' ->
  held_lwlocks b' = [].
Proof.
  intros Hl.
  destruct (lock_class s) eqn:Elc.
  { destruct (lock_class_requests s Elc) as (l & _ & Hpre & Hpost).
    destruct (lock_class_trace h s l b Hpre Hpost Hl) as (b1 & -> & _ & H1 & _).
    now intros [= <-]. }
  unfold lock_class in Elc.
  unfold pgsp_ProcessUtility, utility_before_exec, pgsp_utility_do_lock.
  rewrite Elc. cbn [negb]. unfold bind at 1. unfold bind at 1. unfold ret at 1.
  cbv beta iota. unfold ret at 1. cbv beta iota.
  unfold bind at 1, modify. cbv beta iota.
  set (b0 := emit EvRunUtility b).
  assert (Hl0 : held_lwlocks b0 = []) by exact Hl.
  unfold utility_after_exec.
  destruct (reset_current_db _).
  { destruct (reset_returns_lock_free h InvalidOid (MyDatabaseId h) 0 b0 Hl0)
      as (b1 & -> & H1). now intros [= <-]. }
  rewrite !post_exec_has_lock, Elc, orb_false_r.
  destruct (_ || _); [|now intros [= <-]].
  unfold bind at 1. unfold LWLockAcquire. rewrite Hl0.
  set (b1 := emit _ (set_held b0 _)).
  unfold bind at 1.
  match goal with |- context [for_each ?l ?f b1] =>
    destruct (for_each l f b1) as [[] b2|] eqn:Ef; [|discriminate];
    assert (Hl2 : held_lwlocks b2 = [LW_EXCLUSIVE])
  end.
  { apply (for_each_keeps_lock _ _) in Ef; [exact Ef|].
    intros entry s1 s2. destruct (_ && _); [now intros [= <-]|].
    apply for_each_keeps_lock. intros oid s3 s4.
    apply evict_by_oid_keeps_lock. }
  unfold bind at 1, modify. unfold LWLockRelease.
  cbn [held_lwlocks emit set_ro]. rewrite Hl2. now intros [= <-].
Qed.

(** X16: entered with the lock free, [pgsp_planner_hook],
    [pgsp_ProcessUtility] and [pg_shared_plans_reset_internal] have released
    the lock whenever they return. *)
Theorem operations_release_the_lock (bc : build_config) (g : gucs) (h : host)
    (parse : Query) (boundParams : option ParamListInfo) (s : utility_stmt)
    (userid0 dbid0 : Oid) (queryid0 : Z) (b : backend) :
  0 < pgsp_max g ->
  held_lwlocks b = [] ->
  returns_with_lock_free (pgsp_planner_hook bc g h parse boundParams b)
  /\ returns_with_lock_free (pgsp_ProcessUtility h s b)
  /\ returns_with_lock_free
       (pg_shared_plans_reset_internal h userid0 dbid0 queryid0 b).
Proof.
  intros Hmax Hl. unfold returns_with_lock_free. split; [|split].
  - destruct (pgsp_planner_hook bc g h parse boundParams b) as [r b'|] eqn:E;
      [|exact I].
    exact (planner_hook_releases _ _ _ _ _ _ _ _ Hmax Hl E).
  - destruct (pgsp_ProcessUtility h s b) as [[] b'|] eqn:E; [|exact I].
    exact (process_utility_releases _ _ _ _ Hl E).
  - destruct (reset_returns_lock_free h userid0 dbid0 queryid0 b Hl)
      as (b' & -> & H). exact H.
Qed.

Lemma operations_release_the_lock_witness :
  returns_with_lock_free
    (pgsp_planner_hook production_build guc_defaults sample_host sample_query
                       (Some 0) (cached_backend sample_stmt 4))
  /\ returns_with_lock_free
       (pgsp_ProcessUtility sample_host (DropRelations [100])
                            (cached_backend sample_stmt 4))
  /\ returns_with_lock_free
       (pg_shared_plans_reset_internal sample_host 0 1 0
                                       (cached_backend sample_stmt 4)).
Proof.
  apply (operations_release_the_lock production_build guc_defaults sample_host
           sample_query (Some 0) (DropRelations [100]) 0 1 0
           (cached_backend sample_stmt 4)); vm_compute; reflexivity.
Defined.

(* ----------------------------------------------------------------- *)
(** ** The memory of the cache is accounted for *)

(** Lists. *)

Lemma filter_all {A} (f : A -> bool) l :
  (forall x, In x l -> f x = true) -> filter f l = l.
Proof.
  induction l as [|x l IH]; intros H; cbn [filter]; [reflexivity|].
  rewrite (H x (or_introl eq_refl)). f_equal. apply IH.
  intros y Hy. apply H. now right.
Qed.

Lemma Permutation_filter_both {A} (f : A -> bool) l l' :
  Permutation l l' -> Permutation (filter f l) (filter f l').
Proof.
  induction 1 as [|x l l' _ IH|x y l|l l' l'' _ IH1 _ IH2]; cbn [filter].
  - constructor.
  - destruct (f x); [now constructor|exact IH].
  - destruct (f x), (f y); try reflexivity. apply perm_swap.
  - now transitivity (filter f l').
Qed.

Lemma NoDup_map_filter {A B} (f : A -> B) (g : A -> bool) l :
  NoDup (map f l) -> NoDup (map f (filter g l)).
Proof.
  induction l as [|x l IH]; cbn [map filter]; [auto|].
  intros H. inversion H as [|? ? Hn Hd]; subst.
  destruct (g x); cbn [map]; [|auto].
  constructor; [|auto]. intros Hi. apply Hn.
  apply in_map_iff in Hi as (y & <- & Hy). apply filter_In in Hy as [Hy _].
  now apply in_map.
Qed.

Lemma total_size_app l l' :
  total_size (l ++ l') = total_size l + total_size l'.
Proof.
  unfold total_size. induction l as [|x l IH]; cbn [app map fold_right];
    [reflexivity|]. rewrite IH. lia.
Qed.

Lemma total_size_perm l l' :
  Permutation l l' -> total_size l = total_size l'.
Proof.
  unfold total_size.
  induction 1 as [|x l l' _ IH|x y l|l l' l'' _ IH1 _ IH2];
    cbn [map fold_right]; lia.
Qed.

Lemma NoDup_fst_unique {A B} (l : list (A * B)) a b b' :
  NoDup (map fst l) -> In (a, b) l -> In (a, b') l -> b = b'.
Proof.
  induction l as [|[x y] l IH]; cbn [map fst In]; [tauto|].
  intros H. inversion H as [|? ? Hn Hd]; subst.
  intros [[= -> ->]|H1] [[= ->]|H2]; auto.
  - exfalso. apply Hn. now apply (in_map fst) in H2.
  - exfalso. apply Hn. now apply (in_map fst) in H1.
Qed.

(** The arena. *)

Lemma area_segments_ptrs a :
  map fst (area_segments a) = map seg_ptr (dsa_segments a).
Proof. unfold area_segments. rewrite map_map. reflexivity. Qed.

Lemma area_segments_free a p :
  area_segments (dsa_free a p)
  = filter (fun x => negb (fst x =? p)) (area_segments a).
Proof.
  unfold dsa_free, dsa_find, area_segments.
  destruct (find _ _) as [s|] eqn:E; cbn [dsa_segments].
  - induction (dsa_segments a) as [|x l IH] in |- *; cbn [map filter fst];
      [reflexivity|].
    destruct (negb (seg_ptr x =? p)); cbn [map]; now rewrite IH.
  - symmetry. apply filter_all. intros [q sz] Hi.
    apply in_map_iff in Hi as (s & [= <- <-] & Hs). cbn [fst].
    now rewrite (find_none _ _ E s Hs).
Qed.

Lemma free_room a p sz :
  NoDup (map seg_ptr (dsa_segments a)) ->
  In (p, sz) (area_segments a) ->
  dsa_room (dsa_free a p) = dsa_room a + sz.
Proof.
  intros Hn Hi. unfold dsa_free, dsa_find.
  destruct (find _ _) as [s|] eqn:E.
  - cbn [dsa_room]. apply find_some in E as [Hs Hp]. apply Z.eqb_eq in Hp.
    f_equal. rewrite <- area_segments_ptrs in Hn.
    apply (NoDup_fst_unique _ p _ _ Hn); [|exact Hi].
    apply in_map_iff. exists s. now rewrite Hp.
  - exfalso. apply in_map_iff in Hi as (s & [= <- <-] & Hs).
    pose proof (find_none _ _ E s Hs) as H. cbn in H.
    now rewrite Z.eqb_refl in H.
Qed.

Lemma accounted_frame cap own b b' :
  pgsp_area b' = pgsp_area b ->
  alloced_size (pgsp b') = alloced_size (pgsp b) ->
  accounted cap own b -> accounted cap own b'.
Proof. intros Ha Hs [? ? ? ? ?]. split; rewrite ?Ha, ?Hs; assumption. Qed.

Lemma accounted_perm cap own own' b :
  Permutation own own' -> accounted cap own b -> accounted cap own' b.
Proof.
  intros Hp [? ? Hl Hs ?]. split; try assumption.
  - now rewrite <- Hp.
  - now rewrite <- (total_size_perm _ _ Hp).
Qed.

Lemma accounted_free cap p sz rest b :
  accounted cap ((p, sz) :: rest) b ->
  accounted cap rest (free_dsmem p sz b).
Proof.
  intros [[Hnext Hwf] Hn Hl Hs Hr].
  assert (Hin : In (p, sz) (area_segments (pgsp_area b)))
    by (apply (Permutation_in _ Hl); now left).
  assert (Hnd : NoDup (map fst ((p, sz) :: rest))).
  { rewrite <- area_segments_ptrs in Hn.
    apply (Permutation_NoDup (l := map fst (area_segments (pgsp_area b))));
      [|exact Hn].
    symmetry. now apply Permutation_map. }
  unfold free_dsmem, PGSP_FREEDSMEM.
  split; cbn [pgsp pgsp_area set_pgsp set_area alloced_size set_alloced_size].
  - split.
    + unfold dsa_free. destruct (dsa_find _ _); exact Hnext.
    + unfold dsa_free. destruct (dsa_find _ _); [|exact Hwf].
      cbn [dsa_segments dsa_next]. apply Forall_forall. intros s Hs'.
      apply filter_In in Hs' as [Hs' _].
      now apply (proj1 (Forall_forall _ _) Hwf).
  - unfold dsa_free. destruct (dsa_find _ _); [|exact Hn].
    cbn [dsa_segments]. now apply NoDup_map_filter.
  - rewrite area_segments_free.
    apply (Permutation_filter_both (fun x => negb (fst x =? p))) in Hl.
    cbn [filter fst] in Hl. rewrite Z.eqb_refl in Hl. cbn [negb] in Hl.
    rewrite filter_all in Hl; [exact Hl|].
    intros [q sz'] Hq. cbn [fst]. apply negb_true_iff, Z.eqb_neq. intros ->.
    cbn [map fst] in Hnd. inversion Hnd as [|? ? Hni _]; subst.
    apply Hni. now apply (in_map fst) in Hq.
  - rewrite Hs. unfold total_size. cbn [map snd fold_right]. lia.
  - rewrite (free_room _ _ sz Hn Hin). lia.
Qed.



Lemma allocate_invalid a size d p a' :
  0 < dsa_next a ->
  dsa_allocate_extended a size d = (p, a') ->
  dsa_valid p = false -> a' = a.
Proof.
  intros Hnext. unfold dsa_allocate_extended.
  destruct (size <=? dsa_room a); intros [= <- <-]; [|reflexivity].
  unfold dsa_valid, InvalidDsaPointer. intros H.
  apply negb_false_iff, Z.eqb_eq in H. lia.
Qed.

(** The table. *)





Lemma accounted_free_mid cap l1 p sz l2 b :
  accounted cap (l1 ++ (p, sz) :: l2) b ->
  accounted cap (l1 ++ l2) (free_dsmem p sz b).
Proof.
  intros Hacc. apply accounted_free.
  apply (accounted_perm cap (l1 ++ (p, sz) :: l2)); [|exact Hacc].
  symmetry. apply Permutation_middle.
Qed.

Lemma accounted_free_if_mid cap l1 p sz l2 b t :
  accounted cap (l1 ++ seg_if p sz ++ l2) b ->
  accounted cap (l1 ++ l2)
    (if dsa_valid p then free_dsmem p sz (set_rdepend b t) else b).
Proof.
  unfold seg_if. destruct (dsa_valid p); cbn [app]; [|auto].
  intros Hacc. apply accounted_free_mid.
  now apply (accounted_frame cap _ b).
Qed.














Lemma decay_segments e : entry_segments (decay e) = entry_segments e.
Proof. reflexivity. Qed.



















Section ArenaKeeps.
Variable P : backend -> Prop.
(** [P] looks at the table, the arena and [alloced_size] only. *)
Hypothesis P_frame : forall b b',
  pgsp_hash b' = pgsp_hash b -> pgsp_area b' = pgsp_area b ->
  alloced_size (pgsp b') = alloced_size (pgsp b) -> P b -> P b'.



End ArenaKeeps.


Section ArenaConsistency.
Variable cap : Z.
Variable bc : build_config.
Variable g : gucs.
Variable h : host.
Hypothesis max_positive : 0 < pgsp_max g.













End ArenaConsistency.







(* ----------------------------------------------------------------- *)
(** ** REINDEX *)

(** X19: REINDEX SCHEMA, SYSTEM and DATABASE never get through the pre-exec
    pass: unless the statement is a REINDEX CONCURRENTLY inside a
    transaction, which is left alone, the branch ends on the error
    "unexpected reindex kind" (on a failed [Assert] in some cases of an
    assert-enabled build), after it has set [reset_current_db]. *)
Theorem reindex_of_many_objects_fails (bc : build_config)
    (RangeVarGetRelidExtended : RangeVar -> Oid)
    (IndexGetRelation : Oid -> Oid) (in_xact : bool)
    (rdx : ReindexStmt) (c : pgspUtilityContext) :
  reindexes_many rdx = true ->
  let result := pgsp_utility_pre_exec_reindex bc RangeVarGetRelidExtended
                  IndexGetRelation in_xact rdx c in
  (if rdx_concurrently rdx && in_xact
   then result = PreExecReturn c false
   else result = PreExecUnexpectedKind \/ result = PreExecAssertFailed)
  /\ (USE_ASSERT_CHECKING bc = false -> rdx_concurrently rdx && in_xact = false ->
      result = PreExecUnexpectedKind).
Proof.
  intros Hmany result. subst result. unfold pgsp_utility_pre_exec_reindex.
  unfold reindexes_many in Hmany.
  destruct (rdx_concurrently rdx && in_xact).
  - split; [reflexivity|discriminate].
  - split.
    + destruct (USE_ASSERT_CHECKING bc && _ && _); [now right|].
      destruct (USE_ASSERT_CHECKING bc && _); [now right|].
      destruct (rdx_kind rdx); try discriminate; now left.
    + intros -> _. cbn [andb].
      destruct (rdx_kind rdx); try discriminate; reflexivity.
Qed.

Lemma reindex_of_many_objects_fails_witness :
  let result := pgsp_utility_pre_exec_reindex production_build
                  (fun rv => rv) (fun o => o) false
                  (mk_reindex REINDEX_OBJECT_SCHEMA None (Some "public"%string)
                              false) empty_util in
  (if false && false
   then result = PreExecReturn empty_util false
   else result = PreExecUnexpectedKind \/ result = PreExecAssertFailed)
  /\ (USE_ASSERT_CHECKING production_build = false -> false && false = false ->
      result = PreExecUnexpectedKind).
Proof.
  apply (reindex_of_many_objects_fails production_build (fun rv => rv)
           (fun o => o) false
           (mk_reindex REINDEX_OBJECT_SCHEMA None (Some "public"%string) false)
           empty_util).
  reflexivity.
Defined.

(** X20: a REINDEX that gets through the pre-exec pass asks for what
    REINDEX INDEX or TABLE asks for the table its lookups find, and for
    nothing more: the plans that depend on the table are to be discarded, or
    locked if CONCURRENTLY was given, in which case the transaction has been
    restarted; a reset of the database is never asked for. *)
Theorem reindex_requests (bc : build_config)
    (RangeVarGetRelidExtended : RangeVar -> Oid)
    (IndexGetRelation : Oid -> Oid) (in_xact : bool)
    (rdx : ReindexStmt) (c c' : pgspUtilityContext) (restarted : bool) :
  reindex_from_grammar rdx ->
  pgsp_utility_pre_exec_reindex bc RangeVarGetRelidExtended IndexGetRelation
                                in_xact rdx c
  = PreExecReturn c' restarted ->
  let heapoid := reindex_heapoid RangeVarGetRelidExtended IndexGetRelation rdx in
  c' = pgsp_utility_pre_exec
         (ReindexRelation (rdx_concurrently rdx) in_xact heapoid) c
  /\ restarted = rdx_concurrently rdx && negb in_xact && OidIsValid heapoid
  /\ reset_current_db c' = reset_current_db c.
Proof.
  intros Hg. unfold pgsp_utility_pre_exec_reindex, reindex_heapoid.
  cbn [pgsp_utility_pre_exec]. unfold reindex_from_grammar, reindexes_many in Hg.
  destruct (rdx_concurrently rdx) eqn:Hc, in_xact; cbn [andb negb].
  - intros [= <- <-]. auto.
  - destruct (rdx_kind rdx);
      try (repeat destruct (_ && _); discriminate);
      destruct Hg as [-> Hrel]; try reflexivity;
      destruct (rdx_relation rdx) as [rv|]; try contradiction;
      cbn [is_null negb andb]; rewrite ?andb_false_r; cbn [andb].
    + destruct (OidIsValid (RangeVarGetRelidExtended rv)); cbn [negb].
      * destruct (OidIsValid (IndexGetRelation _)) eqn:Hv; cbn [negb];
          intros [= <- <-]; cbn [negb]; rewrite ?Hv; cbn [negb];
          repeat split; unfold lock_oid; rewrite ?Hv; reflexivity.
      * intros [= <- <-]. auto.
    + destruct (OidIsValid (RangeVarGetRelidExtended rv)) eqn:Hv; cbn [negb];
        intros [= <- <-]; repeat split; unfold lock_oid; rewrite ?Hv;
        reflexivity.
  - destruct (rdx_kind rdx);
      try (repeat destruct (_ && _); discriminate);
      destruct Hg as [-> Hrel]; try reflexivity;
      destruct (rdx_relation rdx) as [rv|]; try contradiction;
      cbn [is_null negb andb]; rewrite ?andb_false_r; cbn [andb].
    + destruct (OidIsValid (RangeVarGetRelidExtended rv)); cbn [negb].
      * destruct (OidIsValid (IndexGetRelation _)) eqn:Hv; cbn [negb];
          intros [= <- <-]; cbn [negb]; rewrite ?Hv; cbn [negb];
          repeat split; unfold discard_oid; rewrite ?Hv; reflexivity.
      * intros [= <- <-]. auto.
    + destruct (OidIsValid (RangeVarGetRelidExtended rv)) eqn:Hv; cbn [negb];
        intros [= <- <-]; repeat split; unfold discard_oid; rewrite ?Hv;
        reflexivity.
  - destruct (rdx_kind rdx);
      try (repeat destruct (_ && _); discriminate);
      destruct Hg as [-> Hrel]; try reflexivity;
      destruct (rdx_relation rdx) as [rv|]; try contradiction;
      cbn [is_null negb andb]; rewrite ?andb_false_r; cbn [andb].
    + destruct (OidIsValid (RangeVarGetRelidExtended rv)); cbn [negb].
      * destruct (OidIsValid (IndexGetRelation _)) eqn:Hv; cbn [negb];
          intros [= <- <-]; cbn [negb]; rewrite ?Hv; cbn [negb];
          repeat split; unfold discard_oid; rewrite ?Hv; reflexivity.
      * intros [= <- <-]. auto.
    + destruct (OidIsValid (RangeVarGetRelidExtended rv)) eqn:Hv; cbn [negb];
        intros [= <- <-]; repeat split; unfold discard_oid; rewrite ?Hv;
        reflexivity.
Qed.

Lemma reindex_requests_witness :
  lock_oid RELOID 100 empty_util
  = pgsp_utility_pre_exec (ReindexRelation true false 100) empty_util
  /\ true = true && negb false && OidIsValid 100
  /\ reset_current_db (lock_oid RELOID 100 empty_util)
     = reset_current_db empty_util.
Proof.
  apply (reindex_requests production_build (fun rv => rv) (fun o => o) false
           (mk_reindex REINDEX_OBJECT_TABLE (Some 100) None true) empty_util).
  - intros _. split; [reflexivity|discriminate].
  - reflexivity.
Defined.

(* ----------------------------------------------------------------- *)
(** ** Entries created and refreshed *)

Lemma make_space_not_full fuel g b :
  hash_get_num_entries (pgsp_hash b) < pgsp_max g ->
  make_space fuel g b = Some b.
Proof.
  intros H. destruct fuel; cbn [make_space];
    destruct (Z.leb_spec (pgsp_max g) (hash_get_num_entries (pgsp_hash b)));
    (lia || reflexivity).
Qed.

Lemma reconcile_fields db k e c b :
  let '(e', c', b') := reconcile_dependencies db k e c b in
  same_statistics e' e /\ plan e' = plan e /\ len e' = len e
  /\ holds_arrays_of e' c
  /\ ctx_plan c' = ctx_plan c
  /\ ctx_rels c' = InvalidDsaPointer /\ ctx_rdeps c' = InvalidDsaPointer.
Proof.
  unfold reconcile_dependencies, same_statistics, holds_arrays_of.
  destruct (dsa_valid (rels e)); cbn [rdeps num_rdeps set_rels];
    destruct (dsa_valid (rdeps e)); repeat split; reflexivity.
Qed.

Lemma hash_find_app_new h k e :
  hash_find h k = None -> key e = k -> hash_find (h ++ [e]) k = Some e.
Proof.
  unfold hash_find. intros Hn <-.
  induction h as [|x h IH]; cbn [app find] in *.
  - now rewrite key_eqb_refl.
  - destruct (key_eqb (key x) (key e)); [discriminate|auto].
Qed.


(** X21: what [pgsp_entry_alloc] does with the context, on a table that is
    not full.  It returns an entry that is the one of the table under the
    key, and leaves nothing in the context.  Without an entry under the key,
    the entry is new: it holds the plan and the arrays of the context, one
    custom plan of the given cost, usage [PGSP_USAGE_INIT], no locker.  An
    entry that exists keeps its statistics, its generic cost and its lockers;
    if it has a plan it keeps it and takes the arrays of the context only; if
    its plan was discarded it receives the plan and the arrays of the context,
    unless it is locked: a locked entry is left as it is, without a plan (the
    last [Assert] of the function holds). *)
Theorem entry_alloc_outcome (g : gucs) (db : Oid) (k : pgspHashKey)
    (c : pgspDsaContext) (plantime : float) (num_const : Z)
    (custom_cost generic_cost : float) (b : backend) :
  hash_get_num_entries (pgsp_hash b) < pgsp_max g ->
  dsa_valid (ctx_plan c) = true ->
  context_counts c ->
  exists e c' b',
    pgsp_entry_alloc g db k c plantime num_const custom_cost generic_cost b
    = Done (e, c') b'
    /\ hash_find (pgsp_hash b') k = Some e
    /\ context_released c'
    /\ held_lwlocks b' = held_lwlocks b
    /\ match hash_find (pgsp_hash b) k with
       | None =>
           e = new_entry k c plantime num_const custom_cost generic_cost
           /\ pgsp_hash b' = pgsp_hash b ++ [e]
           /\ pgsp_area b' = pgsp_area b
       | Some e0 =>
           same_statistics e e0
           /\ map key (pgsp_hash b') = map key (pgsp_hash b)
           /\ (if dsa_valid (plan e0)
               then plan e = plan e0 /\ len e = len e0 /\ holds_arrays_of e c
               else if lockers e0 =? 0
               then plan e = ctx_plan c /\ len e = ctx_len c
                    /\ holds_arrays_of e c
               else e = e0)
           /\ (dsa_valid (plan e) = true \/ lockers e0 <> 0)
       end.
Proof.
  intros Hroom Hp [Hcr Hcd]. unfold pgsp_entry_alloc.
  rewrite (make_space_not_full _ g b Hroom).
  destruct (hash_find (pgsp_hash b) k) as [e0|] eqn:Hf.
  2:{ do 3 eexists. split; [reflexivity|].
      cbn [pgsp_hash set_hash held_lwlocks pgsp_area].
      split; [now apply hash_find_app_new|].
      repeat split; reflexivity. }
  assert (Hk0 : key e0 = k) by now apply hash_find_key in Hf.
  destruct (dsa_valid (plan e0)) eqn:Hpe; cbn [negb].
  - rewrite Hp. unfold release_ctx_plan. rewrite Hpe.
    pose proof (reconcile_fields db k e0 (ctx_set_plan c InvalidDsaPointer 0)
                  (free_dsmem (ctx_plan c) (ctx_len c) b)) as Hrec.
    pose proof (reconcile_dependencies_frame db k e0
                  (ctx_set_plan c InvalidDsaPointer 0)
                  (free_dsmem (ctx_plan c) (ctx_len c) b)) as Hfr.
    destruct (reconcile_dependencies db k e0 _ _) as [[e3 c3] b3].
    cbn [snd] in Hfr. destruct Hfr as [Hh3 Hl3].
    destruct Hrec as (Hst & Hp3 & Hln3 & Harr & Hcp & Hcr3 & Hcd3).
    rewrite Hcr3. change (dsa_valid InvalidDsaPointer) with false.
    cbv beta iota. rewrite Hcd3.
    change (dsa_valid InvalidDsaPointer) with false. cbv beta iota.
    do 3 eexists. split; [reflexivity|].
    cbn [pgsp_hash set_hash held_lwlocks].
    rewrite Hh3, Hl3.
    cbn [pgsp_hash held_lwlocks free_dsmem PGSP_FREEDSMEM set_pgsp set_area].
    split; [apply (hash_find_update _ _ e0); [exact Hf|]; destruct Hst;
            congruence|].
    split; [unfold context_released; rewrite Hcp, Hcr3, Hcd3; repeat split;
            reflexivity|].
    split; [reflexivity|]. split; [exact Hst|].
    split; [apply hash_update_keys; destruct Hst; congruence|].
    split; [auto|]. left. now rewrite Hp3.
  - destruct (lockers e0 =? 0) eqn:Hlk; cbn [negb].
    + cbn [ctx_plan ctx_set_plan].
      change (dsa_valid InvalidDsaPointer) with false. cbv beta iota.
      cbn [plan set_plan]. rewrite Hp.
      pose proof (reconcile_fields db k (set_plan e0 (ctx_plan c) (ctx_len c))
                    (ctx_set_plan c InvalidDsaPointer 0) b) as Hrec.
      pose proof (reconcile_dependencies_frame db k
                    (set_plan e0 (ctx_plan c) (ctx_len c))
                    (ctx_set_plan c InvalidDsaPointer 0) b) as Hfr.
      destruct (reconcile_dependencies db k _ _ _) as [[e3 c3] b3].
      cbn [snd] in Hfr. destruct Hfr as [Hh3 Hl3].
      destruct Hrec as (Hst & Hp3 & Hln3 & Harr & Hcp & Hcr3 & Hcd3).
      rewrite Hcr3. change (dsa_valid InvalidDsaPointer) with false.
      cbv beta iota. rewrite Hcd3.
      change (dsa_valid InvalidDsaPointer) with false. cbv beta iota.
      do 3 eexists. split; [reflexivity|].
      cbn [pgsp_hash set_hash held_lwlocks].
      rewrite Hh3, Hl3.
      split; [apply (hash_find_update _ _ e0); [exact Hf|]; destruct Hst as [E _];
              cbn [key set_plan] in E; congruence|].
      split; [unfold context_released; rewrite Hcp, Hcr3, Hcd3; repeat split;
              reflexivity|].
      split; [reflexivity|]. split; [exact Hst|].
      split; [apply hash_update_keys; destruct Hst as [E _];
              cbn [key set_plan] in E; congruence|].
      split; [auto|]. left. rewrite Hp3. exact Hp.
    + pose proof (discard_locked_context_frame db k c b) as Hfr.
      assert (Hrel : context_released (fst (discard_locked_context db k c b))).
      { unfold discard_locked_context, release_ctx_plan, release_ctx_rels,
          release_ctx_rdeps.
        cbn [ctx_num_rels ctx_num_rdeps ctx_rels ctx_rdeps ctx_plan
             ctx_set_plan].
        rewrite Hcr.
        destruct (dsa_valid (ctx_rels c)) eqn:Hvr;
          cbn [ctx_num_rels ctx_num_rdeps ctx_rels ctx_rdeps ctx_plan
               ctx_set_plan ctx_set_rels]; rewrite Hcd;
          destruct (dsa_valid (ctx_rdeps c)) eqn:Hvd; cbn [fst];
          unfold context_released;
          cbn [ctx_num_rels ctx_num_rdeps ctx_rels ctx_rdeps ctx_plan
               ctx_set_plan ctx_set_rels ctx_set_rdeps];
          repeat split; try reflexivity; try assumption. }
      destruct (discard_locked_context db k c b) as [c1 b1].
      cbn [fst snd] in Hfr, Hrel. destruct Hfr as [Hh1 Hl1].
      destruct Hrel as (Hr1 & Hr2 & Hr3).
      rewrite Hr1, Hpe. cbv beta iota. rewrite Hr2. cbv beta iota.
      rewrite Hr3.
      do 3 eexists. split; [reflexivity|].
      cbn [pgsp_hash set_hash held_lwlocks]. rewrite Hh1, Hl1.
      split; [now apply (hash_find_update _ _ e0)|].
      split; [repeat split; assumption|].
      split; [reflexivity|].
      split; [repeat split; reflexivity|].
      split; [now apply hash_update_keys|].
      split; [reflexivity|]. right. now apply Z.eqb_neq.
Qed.

Lemma entry_alloc_outcome_witness :
  exists e c' b',
    pgsp_entry_alloc guc_defaults 1 sample_key
      (mk_pgspDsaContext 3 InvalidDsaPointer 0 21 0 InvalidDsaPointer)
      10%float 0 25%float 12%float (cached_backend sample_stmt 4)
    = Done (e, c') b'
    /\ hash_find (pgsp_hash b') sample_key = Some e
    /\ plan e = 1 /\ rels e = InvalidDsaPointer.
Proof.
  destruct (entry_alloc_outcome guc_defaults 1 sample_key
              (mk_pgspDsaContext 3 InvalidDsaPointer 0 21 0 InvalidDsaPointer)
              10%float 0 25%float 12%float (cached_backend sample_stmt 4))
    as (e & c' & b' & Hrun & Hfind & _ & _ & Hcase).
  - reflexivity.
  - reflexivity.
  - split; reflexivity.
  - exists e, c', b'. split; [exact Hrun|]. split; [exact Hfind|].
    cbn in Hcase. destruct Hcase as (_ & _ & (Hplan & _ & Harr & _) & _).
    split; [exact Hplan|exact Harr].
Defined.



(* ----------------------------------------------------------------- *)
(** ** Lockers across a LOCK-class statement *)

Lemma evict_entry_rdepend kind k b :
  kind = PGSP_UNLOCK \/ kind = PGSP_DISCARD_AND_LOCK ->
  pgsp_rdepend (evict_entry kind k b) = pgsp_rdepend b.
Proof.
  intros [-> | ->].
  - unfold evict_entry. destruct (hash_find _ _); reflexivity.
  - apply (evict_entry_discard PGSP_DISCARD_AND_LOCK k b). now right.
Qed.

Lemma fold_evict_entry_rdepend kind ks : forall b,
  kind = PGSP_UNLOCK \/ kind = PGSP_DISCARD_AND_LOCK ->
  pgsp_rdepend (fold_left (fun b k => evict_entry kind k b) ks b)
  = pgsp_rdepend b.
Proof.
  induction ks as [|k ks IH]; intros b Hk; cbn [fold_left]; [reflexivity|].
  rewrite IH by exact Hk. now apply evict_entry_rdepend.
Qed.

Lemma evicted_keys_rdepend h db classid oid b b' :
  pgsp_rdepend b' = pgsp_rdepend b ->
  evicted_keys h db classid oid b' = evicted_keys h db classid oid b.
Proof. unfold evicted_keys. now intros ->. Qed.

(** A run of [pgsp_evict_by_oid] over relations, locking or unlocking. *)
Lemma evictions_lockers h db kind l : forall b,
  kind = PGSP_UNLOCK \/ kind = PGSP_DISCARD_AND_LOCK ->
  NoDup (map key (pgsp_hash b)) ->
  exists b',
    for_each l (fun oid => pgsp_evict_by_oid h db RELOID oid kind) b
    = Done tt b'
    /\ map key (pgsp_hash b') = map key (pgsp_hash b)
    /\ pgsp_rdepend b' = pgsp_rdepend b
    /\ held_lwlocks b' = held_lwlocks b
    /\ map key_lockers (pgsp_hash b')
       = fold_left (fun pl k => map (bump kind k) pl)
                   (evicted_keys_of h db l b) (map key_lockers (pgsp_hash b)).
Proof.
  induction l as [|oid l IH]; intros b Hkind Hnd.
  - exists b. cbn. auto.
  - cbn [for_each]. unfold bind. rewrite evict_by_oid_run.
    set (ks := evicted_keys h db RELOID oid b).
    set (b0 := emit (EvEvictByOid RELOID oid kind) b).
    set (b1 := fold_left (fun b k => evict_entry kind k b) ks b0).
    destruct (fold_evict_entry_lockers kind ks b0 Hkind Hnd) as [Hk1 Hl1].
    fold b1 in Hk1, Hl1. cbn [pgsp_hash emit b0] in Hk1, Hl1.
    assert (Hr1 : pgsp_rdepend b1 = pgsp_rdepend b)
      by (unfold b1; now rewrite fold_evict_entry_rdepend).
    assert (Hh1 : held_lwlocks b1 = held_lwlocks b)
      by (apply (same_held _ _ (fold_evict_entry_session kind ks b0))).
    destruct (IH b1 Hkind) as (b' & Hrun & Hk & Hr & Hh & Hl);
      [now rewrite Hk1|].
    exists b'. split; [exact Hrun|].
    split; [congruence|]. split; [congruence|]. split; [congruence|].
    rewrite Hl, Hl1. unfold evicted_keys_of. cbn [flat_map].
    rewrite fold_left_app. fold ks. f_equal.
    apply flat_map_ext. intros o. now apply evicted_keys_rdepend.
Qed.

(** X23: no entry is locked while a LOCK-class statement runs.  The lockers
    that [pgsp_utility_do_lock] takes on the entries that depend on the
    relations of the statement, it gives back before it returns: when the
    host runs the statement, under the shared hold of the lock, and when
    [pgsp_ProcessUtility] is over, every entry has the lockers it had
    before. *)
Theorem lock_class_statement_restores_lockers (h : host) (s : utility_stmt)
    (b : backend) :
  lock_class s = true ->
  held_lwlocks b = [] ->
  NoDup (map key (pgsp_hash b)) ->
  (forall e, In e (pgsp_hash b) -> 0 <= lockers e < 2 ^ 32) ->
  exists util b1 b2,
    utility_before_exec h s b = Done util b1
    /\ held_lwlocks b1 = [LW_SHARED]
    /\ map key (pgsp_hash b1) = map key (pgsp_hash b)
    /\ map lockers (pgsp_hash b1) = map lockers (pgsp_hash b)
    /\ pgsp_ProcessUtility h s b = Done tt b2
    /\ map key (pgsp_hash b2) = map key (pgsp_hash b)
    /\ map lockers (pgsp_hash b2) = map lockers (pgsp_hash b).
Proof.
  intros Hlc Hl Hnd Hrange.
  destruct (lock_class_requests s Hlc) as (l & _ & Hpre & Hpost).
  set (b0 := emit (EvAcquire LW_EXCLUSIVE) (set_held b [LW_EXCLUSIVE])).
  destruct (evictions_lockers h (MyDatabaseId h) PGSP_DISCARD_AND_LOCK l b0)
    as (b1 & Hrun1 & Hk1 & Hr1 & Hh1 & Hl1); [now right|exact Hnd|].
  set (b1' := emit (EvAcquire LW_SHARED)
                (set_held (emit EvRelease (set_held b1 [])) [LW_SHARED])).
  destruct (evictions_lockers h (MyDatabaseId h) PGSP_UNLOCK l b1')
    as (b2 & Hrun2 & Hk2 & Hr2 & Hh2 & Hl2);
    [now left|cbn [pgsp_hash b1' emit set_held]; now rewrite Hk1|].
  assert (Hkeys : evicted_keys_of h (MyDatabaseId h) l b1'
                  = evicted_keys_of h (MyDatabaseId h) l b0).
  { unfold evicted_keys_of. apply flat_map_ext. intros o.
    apply evicted_keys_rdepend. exact Hr1. }
  assert (Hkl : map key_lockers (pgsp_hash b2) = map key_lockers (pgsp_hash b)).
  { rewrite Hl2, Hkeys. cbn [pgsp_hash b1' emit set_held]. rewrite Hl1.
    cbn [pgsp_hash b0 emit set_held].
    rewrite !fold_bump_map, map_map.
    rewrite <- (map_id (map key_lockers (pgsp_hash b))) at 2.
    apply map_ext_in. intros p Hp. apply locks_then_unlocks.
    apply in_map_iff in Hp as (e & <- & He). cbn. now apply Hrange. }
  assert (Hlk : map lockers (pgsp_hash b2) = map lockers (pgsp_hash b)).
  { apply (f_equal (map snd)) in Hkl. rewrite !map_map in Hkl. exact Hkl. }
  assert (Hks : map key (pgsp_hash b2) = map key (pgsp_hash b)).
  { rewrite Hk2. cbn [pgsp_hash b1' emit set_held]. exact Hk1. }
  assert (Hbefore : utility_before_exec h s b = Done (lock_requests l) b2).
  { unfold utility_before_exec. rewrite Hpre. unfold pgsp_utility_do_lock.
    cbn [has_lock lock_requests oids_hash negb for_each oe_kind oe_classid
         oids kind_eqb].
    unfold bind at 1. unfold bind at 1. unfold bind at 1.
    unfold LWLockAcquire at 1. rewrite Hl. fold b0.
    unfold bind at 1. rewrite Hrun1.
    unfold bind at 1. unfold LWLockRelease at 1. rewrite Hh1.
    cbn [held_lwlocks b0 emit set_held].
    unfold bind at 1. unfold LWLockAcquire at 1.
    cbn [held_lwlocks emit set_held]. fold b1'. rewrite Hrun2.
    reflexivity. }
  exists (lock_requests l), b2.
  unfold pgsp_ProcessUtility. unfold bind at 1. rewrite Hbefore.
  unfold utility_after_exec.
  cbn [reset_current_db lock_requests]. rewrite Hpost.
  cbn [has_lock has_discard has_remove lock_requests oids_hash negb orb
       for_each oe_kind oe_classid oids kind_eqb andb].
  unfold bind, ret, modify, LWLockRelease.
  cbn [held_lwlocks emit set_ro set_held]. rewrite Hh2.
  cbn [held_lwlocks b1' emit set_held].
  eexists.
  split; [reflexivity|]. split; [reflexivity|].
  split; [exact Hks|]. split; [exact Hlk|].
  split; [reflexivity|].
  cbn [pgsp_hash emit set_ro set_held]. split; assumption.
Qed.

Lemma lock_class_statement_restores_lockers_witness :
  exists util b1 b2,
    utility_before_exec sample_host (DropIndex true false [100])
                        (cached_backend sample_stmt 4) = Done util b1
    /\ held_lwlocks b1 = [LW_SHARED]
    /\ map key (pgsp_hash b1) = map key (pgsp_hash (cached_backend sample_stmt 4))
    /\ map lockers (pgsp_hash b1)
       = map lockers (pgsp_hash (cached_backend sample_stmt 4))
    /\ pgsp_ProcessUtility sample_host (DropIndex true false [100])
                           (cached_backend sample_stmt 4) = Done tt b2
    /\ map key (pgsp_hash b2) = map key (pgsp_hash (cached_backend sample_stmt 4))
    /\ map lockers (pgsp_hash b2)
       = map lockers (pgsp_hash (cached_backend sample_stmt 4)).
Proof.
  apply (lock_class_statement_restores_lockers sample_host
           (DropIndex true false [100]) (cached_backend sample_stmt 4)).
  - reflexivity.
  - reflexivity.
  - cbn. repeat constructor. intros [].
  - intros e [<-|[]]. cbn. lia.
Defined.

(* ----------------------------------------------------------------- *)
(** ** What the planner hook returns *)




